(** * Emotion-analysis pipeline: chat-log extraction, text normalisation and
      batched classification

    A shallow embedding of the Python sources
      - [src/emotion_analysis.py]  (batched classification client),
      - [src/data_parsers.py]      (WhatsApp and Telegram extractors),
      - [src/text_cleaning.py]     (emoji extraction and text cleaning),
      - [src/pipeline.py]          (selection of the texts to classify),
    followed by the properties established about them.

    Conventions.  A Python [str] is a sequence of Unicode code points and is
    modelled as [list N].  Library functionality the repository only calls
    (Unicode tables, [json.loads], the remote chat endpoint, BeautifulSoup,
    spaCy) is taken as a parameter, with the part that is fixed by the
    language definition written out. *)

From Stdlib Require Import String Ascii.
From Stdlib Require Import List NArith ZArith Bool Lia.
Import ListNotations.

Set Warnings "-register-all".

(* ================================================================== *)
(** * Part I.  Definitions                                             *)
(* ================================================================== *)

(* ------------------------------------------------------------------ *)
(** ** Python strings                                                  *)
(* ------------------------------------------------------------------ *)

Definition codepoint := N.
Definition str := list codepoint.

Definition cp_eqb (a b : codepoint) : bool := N.eqb a b.
Arguments cp_eqb (a b)%_N.

Fixpoint str_eqb (a b : str) : bool :=
  match a, b with
  | [], [] => true
  | x :: a', y :: b' => cp_eqb x y && str_eqb a' b'
  | _, _ => false
  end.

(** Decoding of a UTF-8 byte sequence; used to write string literals of the
    sources (which contain accented letters) as Rocq strings. *)
Fixpoint utf8_decode (bs : list N) : str :=
  match bs with
  | [] => []
  | b :: tl =>
    if (b <? 128)%N then b :: utf8_decode tl
    else if (b <? 224)%N then
      match tl with
      | b1 :: tl1 => ((b - 192) * 64 + (b1 - 128))%N :: utf8_decode tl1
      | _ => []
      end
    else if (b <? 240)%N then
      match tl with
      | b1 :: b2 :: tl2 =>
        ((b - 224) * 4096 + (b1 - 128) * 64 + (b2 - 128))%N :: utf8_decode tl2
      | _ => []
      end
    else
      match tl with
      | b1 :: b2 :: b3 :: tl3 =>
        ((b - 240) * 262144 + (b1 - 128) * 4096 + (b2 - 128) * 64 + (b3 - 128))%N
          :: utf8_decode tl3
      | _ => []
      end
  end.

(** [py "texto"] is the Python string written [texto] in UTF-8. *)
Definition py (s : string) : str :=
  utf8_decode (map N_of_ascii (list_ascii_of_string s)).

(** Same, with every apostrophe standing for a double quote, so that JSON
    text can be written as a literal. *)
Definition pyq (s : string) : str :=
  map (fun c => if (c =? 39)%N then 34%N else c) (py s).

(** [sep.join(parts)]. *)
Fixpoint str_join (sep : str) (parts : list str) : str :=
  match parts with
  | [] => []
  | [p] => p
  | p :: rest => p ++ sep ++ str_join sep rest
  end.

(** [str.isspace] on one code point: the characters whose bidirectional
    class is WS, B or S, or whose category is Zs. *)
Definition is_space (c : codepoint) : bool :=
  ((9 <=? c) && (c <=? 13) || (28 <=? c) && (c <=? 32)
   || (c =? 133) || (c =? 160) || (c =? 5760)
   || (8192 <=? c) && (c <=? 8202)
   || (c =? 8232) || (c =? 8233) || (c =? 8239) || (c =? 8287)
   || (c =? 12288))%N.

Fixpoint lstrip (s : str) : str :=
  match s with
  | c :: tl => if is_space c then lstrip tl else s
  | [] => []
  end.

Definition rstrip (s : str) : str := rev (lstrip (rev s)).

(** [s.strip()]. *)
Definition str_strip (s : str) : str := rstrip (lstrip s).

Fixpoint is_prefix (p s : str) : bool :=
  match p, s with
  | [], _ => true
  | x :: p', y :: s' => cp_eqb x y && is_prefix p' s'
  | _ :: _, [] => false
  end.

(** [s.replace(old, new)] for a non-empty [old]: occurrences are replaced
    from left to right, without overlap. *)
Fixpoint str_replace_fuel (fuel : nat) (old new s : str) : str :=
  match fuel with
  | O => s
  | S fuel' =>
    match s with
    | [] => []
    | c :: tl =>
      if is_prefix old s
      then new ++ str_replace_fuel fuel' old new (skipn (length old) s)
      else c :: str_replace_fuel fuel' old new tl
    end
  end.

Definition str_replace (old new s : str) : str :=
  str_replace_fuel (length s) old new s.

(** [old in s]. *)
Fixpoint str_contains (old s : str) : bool :=
  is_prefix old s ||
  match s with
  | [] => false
  | _ :: tl => str_contains old tl
  end.

(** [s.split(sep, 1)] and [s.split(sep)[0]] for a non-empty [sep]: the text
    before the first occurrence of [sep], and the text after it if any. *)
Fixpoint split_first (sep s : str) : str * option str :=
  if is_prefix sep s then ([], Some (skipn (length sep) s))
  else match s with
       | [] => ([], None)
       | c :: tl => let (a, b) := split_first sep tl in (c :: a, b)
       end.

(** [str(n)] for a non-negative integer. *)
Definition digit_char (d : N) : codepoint := (48 + d)%N.

Fixpoint uint_chars (u : Decimal.uint) : str :=
  match u with
  | Decimal.Nil => []
  | Decimal.D0 u' => 48%N :: uint_chars u'
  | Decimal.D1 u' => 49%N :: uint_chars u'
  | Decimal.D2 u' => 50%N :: uint_chars u'
  | Decimal.D3 u' => 51%N :: uint_chars u'
  | Decimal.D4 u' => 52%N :: uint_chars u'
  | Decimal.D5 u' => 53%N :: uint_chars u'
  | Decimal.D6 u' => 54%N :: uint_chars u'
  | Decimal.D7 u' => 55%N :: uint_chars u'
  | Decimal.D8 u' => 56%N :: uint_chars u'
  | Decimal.D9 u' => 57%N :: uint_chars u'
  end.

Definition str_of_nat (n : nat) : str := uint_chars (Nat.to_uint n).

(** The Unicode tables of the interpreter, outside the ASCII range where
    they are written out below. *)
Class Unicode := {
  (** [c.isalnum()] for a code point above 127 *)
  uni_isalnum : codepoint -> bool;
  (** the value of [c] when it is a decimal digit (category Nd) above 127 *)
  uni_decimal : codepoint -> option N;
  (** [s.lower()] *)
  str_lower : str -> str
}.

Definition ascii_digit (c : codepoint) : bool := ((48 <=? c) && (c <=? 57))%N.
Definition ascii_upper (c : codepoint) : bool := ((65 <=? c) && (c <=? 90))%N.
Definition ascii_lower (c : codepoint) : bool := ((97 <=? c) && (c <=? 122))%N.

(** The restriction of the tables to ASCII: no letter or digit above 127,
    and lowercasing of the letters A-Z only.  It agrees with the interpreter
    on ASCII strings and is used to evaluate the model on such inputs. *)
Definition ascii_lower_cp (c : codepoint) : codepoint :=
  if ascii_upper c then (c + 32)%N else c.

Definition AsciiUnicode : Unicode := {|
  uni_isalnum := fun _ => false;
  uni_decimal := fun _ => None;
  str_lower := map ascii_lower_cp
|}.

Section CharClasses.
Context {U : Unicode}.

(** [\d] of [re] on a [str] pattern: a Unicode decimal digit. *)
Definition is_digit (c : codepoint) : bool :=
  if (c <? 128)%N then ascii_digit c
  else match uni_decimal c with Some _ => true | None => false end.

(** [int(c)] for a character matched by [\d]. *)
Definition digit_value (c : codepoint) : N :=
  if (c <? 128)%N then (c - 48)%N
  else match uni_decimal c with Some v => v | None => 0%N end.

(** [\w] of [re] on a [str] pattern: alphanumeric or underscore. *)
Definition is_word (c : codepoint) : bool :=
  if (c <? 128)%N
  then ascii_digit c || ascii_upper c || ascii_lower c || (c =? 95)%N
  else uni_isalnum c.
End CharClasses.

(* ------------------------------------------------------------------ *)
(** ** JSON values                                                     *)
(* ------------------------------------------------------------------ *)

(** What [json.loads] builds.  A number keeps its lexeme: the program only
    ever asks whether a value is a string.  An object keeps its members in
    source order; [dict_get] gives the last binding of a key, as the [dict]
    built by the decoder does. *)
Inductive json : Type :=
| JNull
| JBool (b : bool)
| JNumber (lexeme : str)
| JString (s : str)
| JArray (items : list json)
| JObject (members : list (str * json)).

Fixpoint dict_get (members : list (str * json)) (key : str) : option json :=
  match members with
  | [] => None
  | (k, v) :: tl =>
    match dict_get tl key with
    | Some v' => Some v'
    | None => if str_eqb k key then Some v else None
    end
  end.

(** The three ways a call of [json.loads] ends. *)
Inductive loads_result : Type :=
| Loaded (v : json)
| LoadsDecodeError          (* json.JSONDecodeError *)
| LoadsOtherError.          (* any other exception, e.g. RecursionError *)

(* ------------------------------------------------------------------ *)
(** ** Exceptions and the [results] list                               *)
(* ------------------------------------------------------------------ *)

(** The exceptions that occur in [classify_texts_in_bulk]. *)
Inductive exn : Type :=
| JSONDecodeError
| AttributeError
| ApiError
| OtherError.

Definition is_JSONDecodeError (e : exn) : bool :=
  match e with JSONDecodeError => true | _ => false end.

(** [except Exception] *)
Definition is_Exception (e : exn) : bool := true.

Inductive outcome (A : Type) : Type :=
| Ok (a : A)
| Raised (e : exn).
Arguments Ok {A} a.
Arguments Raised {A} e.

(** A computation over the mutable list [results]: what was appended before
    an exception is raised stays appended. *)
Definition M (A : Type) : Type := list str -> outcome A * list str.

Definition ret {A} (a : A) : M A := fun results => (Ok a, results).

Definition bind {A B} (m : M A) (f : A -> M B) : M B :=
  fun results =>
    match m results with
    | (Ok a, results') => f a results'
    | (Raised e, results') => (Raised e, results')
    end.

Definition raise {A} (e : exn) : M A := fun results => (Raised e, results).

(** [results.append(x)] *)
Definition results_append (x : str) : M unit :=
  fun results => (Ok tt, results ++ [x]).

(** [try: body  except <catches>: handler] *)
Definition try_except {A} (body : M A) (catches : exn -> bool) (handler : M A) : M A :=
  fun results =>
    match body results with
    | (Ok a, results') => (Ok a, results')
    | (Raised e, results') =>
      if catches e then handler results' else (Raised e, results')
    end.

Notation "x <- m ;; k" := (bind m (fun x => k))
  (at level 61, m at next level, right associativity).
Notation "m ;;; k" := (bind m (fun _ => k))
  (at level 61, right associativity).

(** [for x in xs: body x] *)
Fixpoint for_each {X} (xs : list X) (body : X -> M unit) : M unit :=
  match xs with
  | [] => ret tt
  | x :: rest => body x ;;; for_each rest body
  end.

(** [appends m]: run from any list [r], [m] ends as it does from the empty
    list and leaves [r] followed by what it appends from the empty list. *)
Definition appends {A} (m : M A) : Prop :=
  forall r, m r = (fst (m []), r ++ snd (m [])).

(** [appends_only P m]: everything [m] appends satisfies [P]. *)
Definition appends_only {A} (P : str -> Prop) (m : M A) : Prop :=
  forall r, Forall P r -> Forall P (snd (m r)).

(** [range(0, stop, step)] for [step > 0]. *)
Definition py_range_step (stop step : nat) : list nat :=
  map (fun k => k * step) (seq 0 ((stop + step - 1) / step)).

(** [xs[start : start + n]] *)
Definition slice {X} (xs : list X) (start n : nat) : list X :=
  firstn n (skipn start xs).

(* ------------------------------------------------------------------ *)
(** ** emotion_analysis.py                                             *)
(* ------------------------------------------------------------------ *)

(** The request sent by [openai.chat.completions.create]; the model name and
    the temperature are constants of the program. *)
Record chat_request : Type := {
  system_content : str;
  user_content : str;
  max_tokens : Z
}.

(** How one remote call ends: it raises (network error, time-out, quota, a
    response without choices or without text), or it returns a message whose
    content is the given text. *)
Inductive api_outcome : Type :=
| ApiRaises
| ApiContent (content : str).

Module Classifier.
Section Classifier.
Context {U : Unicode}.

(** config.py *)
Variable VALID_EMOTIONS : list str.
Variable UNKNOWN_EMOTION_LABEL : str.

(** [json.loads] *)
Variable json_loads : str -> loads_result.

(** The remote service: its answer to the [n]-th call of a run. *)
Variable service : nat -> chat_request -> api_outcome.

Definition system_prompt : str :=
  py "Eres un sistema de clasificación de emociones en español. "
  ++ py "Recibirás un bloque de oraciones enumeradas, y tu respuesta debe ser "
  ++ py "EXCLUSIVAMENTE un objeto JSON con la forma:" ++ [10%N]
  ++ pyq "{ '1': 'amor', '2': 'ira', ... }" ++ [10%N]
  ++ py "sin texto adicional. Emociones posibles: "
  ++ str_join (py ", ") VALID_EMOTIONS ++ py ". No agregues explicaciones."
  ++ pyq "Si no coincide, usa '" ++ UNKNOWN_EMOTION_LABEL ++ pyq "'.".

(** ["\n".join(f"{i+1}) {txt}" for i, txt in enumerate(batch))] *)
Definition enumerated_text (batch : list str) : str :=
  str_join [10%N]
    (map (fun it => str_of_nat (fst it + 1) ++ py ") " ++ snd it)
         (combine (seq 0 (length batch)) batch)).

Definition user_prompt (batch : list str) : str :=
  py "Clasifica cada oración enumerada en una de las emociones. "
  ++ py "Devuelve SOLO un JSON. Ejemplo:" ++ [10%N]
  ++ pyq "{ '1': 'alegría', '2': 'ira' }" ++ [10%N; 10%N]
  ++ enumerated_text batch.

(** [for _ in batch: results.append(UNKNOWN_EMOTION_LABEL)] *)
Definition fill_unknown (batch : list str) : M unit :=
  for_each batch (fun _ => results_append UNKNOWN_EMOTION_LABEL).

(** [parsed_json.get(key, UNKNOWN_EMOTION_LABEL).lower()]: only a [dict] has
    [get], and only a [str] has [lower]. *)
Definition get_lower (parsed_json : json) (key : str) : M str :=
  match parsed_json with
  | JObject members =>
    match dict_get members key with
    | None => ret (str_lower UNKNOWN_EMOTION_LABEL)
    | Some (JString s) => ret (str_lower s)
    | Some _ => raise AttributeError
    end
  | _ => raise AttributeError
  end.

(** [raw_emo in [emo.lower() for emo in VALID_EMOTIONS]] *)
Definition in_valid_lower (raw_emo : str) : bool :=
  existsb (str_eqb raw_emo) (map str_lower VALID_EMOTIONS).

(** The body of [for i in range(len(batch))]. *)
Definition extract_item (parsed_json : json) (i : nat) : M unit :=
  let key := str_of_nat (i + 1) in
  raw_emo <- get_lower parsed_json key ;;
  let raw_emo := if in_valid_lower raw_emo then raw_emo else UNKNOWN_EMOTION_LABEL in
  results_append raw_emo.

(** [json.loads(content)] as a computation. *)
Definition loads (content : str) : M json :=
  match json_loads content with
  | Loaded v => ret v
  | LoadsDecodeError => raise JSONDecodeError
  | LoadsOtherError => raise OtherError
  end.

(** [openai.chat.completions.create(...)] followed by
    [response.choices[0].message.content.strip()]. *)
Definition call_api (n : nat) (batch : list str) (max_tokens_response : Z) : M str :=
  match service n {| system_content := system_prompt;
                     user_content := user_prompt batch;
                     max_tokens := max_tokens_response |} with
  | ApiRaises => raise ApiError
  | ApiContent content => ret (str_strip content)
  end.

(** The body of the loop over batches, for the [n]-th batch. *)
Definition process_batch (max_tokens_response : Z) (n : nat) (batch : list str) : M unit :=
  try_except
    (content <- call_api n batch max_tokens_response ;;
     parsed <- try_except
                 (v <- loads content ;; ret (Some v))
                 is_JSONDecodeError
                 (fill_unknown batch ;;; ret None (* continue *)) ;;
     match parsed with
     | None => ret tt
     | Some parsed_json =>
       for_each (seq 0 (length batch)) (extract_item parsed_json)
     end)
    is_Exception
    (fill_unknown batch).

(** The batches [texts[start_idx : start_idx + max_per_chunk]] for
    [start_idx in range(0, len(texts), max_per_chunk)], numbered in order. *)
Definition batches (texts : list str) (max_per_chunk : nat) : list (nat * list str) :=
  let starts := py_range_step (length texts) max_per_chunk in
  combine (seq 0 (length starts))
          (map (fun start_idx => slice texts start_idx max_per_chunk) starts).

(** [classify_texts_in_bulk(texts, max_per_chunk, max_tokens_response)].
    [range] raises [ValueError] for a zero step (the call then raises, [None]
    here) and is empty for a negative one. *)
Definition classify_texts_in_bulk
  (texts : list str) (max_per_chunk : Z) (max_tokens_response : Z) : option (list str) :=
  if (max_per_chunk =? 0)%Z then None
  else if (max_per_chunk <? 0)%Z then Some []
  else
    match for_each (batches texts (Z.to_nat max_per_chunk))
                   (fun b => process_batch max_tokens_response (fst b) (snd b)) [] with
    | (Ok _, results) => Some results
    | (Raised _, _) => None
    end.

(** What the [n]-th batch contributes to [results]. *)
Definition chunk_labels (max_tokens_response : Z) (n : nat) (batch : list str) : list str :=
  snd (process_batch max_tokens_response n batch []).

(** The [n]-th call raises, or its content is not valid JSON. *)
Definition chunk_call_fails (max_tokens_response : Z) (n : nat) (batch : list str) : Prop :=
  match service n {| system_content := system_prompt;
                     user_content := user_prompt batch;
                     max_tokens := max_tokens_response |} with
  | ApiRaises => True
  | ApiContent content => json_loads (str_strip content) = LoadsDecodeError
  end.

(** The label of an item whose entry in the parsed object is the string
    [s] ([Some s]) or is absent ([None]): lines 118-121. *)
Definition item_label (entry : option str) : str :=
  let raw_emo :=
    str_lower (match entry with Some s => s | None => UNKNOWN_EMOTION_LABEL end) in
  if in_valid_lower raw_emo then raw_emo else UNKNOWN_EMOTION_LABEL.

(** The entry of item [i] in the parsed object is absent or a string. *)
Definition entry_of (members : list (str * json)) (i : nat) : option (option str) :=
  match dict_get members (str_of_nat (i + 1)) with
  | None => Some None
  | Some (JString s) => Some (Some s)
  | Some _ => None
  end.

(** A label the function can emit: the fallback label, or the lowercase
    form of a configured label. *)
Definition label_ok (label : str) : Prop :=
  label = UNKNOWN_EMOTION_LABEL \/
  exists emo, In emo VALID_EMOTIONS /\ label = str_lower emo.

(** The response to the [n]-th call does not make [.lower()] fail after a
    label of the batch has been appended: the call raises, or the content is
    not decoded, or it is decoded to something else than an object, or to an
    object whose entries for the items of the batch are absent or strings. *)
Definition response_well_typed (mt : Z) (n : nat) (batch : list str) : Prop :=
  match service n {| system_content := system_prompt;
                     user_content := user_prompt batch;
                     max_tokens := mt |} with
  | ApiRaises => True
  | ApiContent content =>
    match json_loads (str_strip content) with
    | Loaded (JObject members) =>
      forall i, i < length batch -> entry_of members i <> None
    | _ => True
    end
  end.

End Classifier.
End Classifier.

(* ------------------------------------------------------------------ *)
(** ** A JSON decoder                                                  *)
(* ------------------------------------------------------------------ *)

(** [json_loads_in] follows the grammar that [json.loads] accepts (RFC 8259,
    plus the literals NaN, Infinity and -Infinity; control characters are
    refused inside strings).  It is the decoder used when the model is
    evaluated on a concrete response; the general statements below hold for
    every decoder.  A text outside the grammar is a decode error.  Two
    other errors depend on the interpreter that runs the call: an integer
    literal of more digits than [sys.get_int_max_str_digits()] makes [int]
    raise ValueError, and a container nested deeper than the calls that are
    left before the recursion limit raises RecursionError.  Neither is a
    JSONDecodeError. *)

Record interpreter : Type := {
  int_max_str_digits : nat;   (* sys.get_int_max_str_digits(); 0 for no limit *)
  recursion_room : nat        (* nested calls left at the call of json.loads *)
}.

(** How the scan of one item ends. *)
Inductive scanned (A : Type) : Type :=
| Scanned (a : A) (rest : str)
| ScanDecodeError
| ScanOtherError.
Arguments Scanned {A} a rest.
Arguments ScanDecodeError {A}.
Arguments ScanOtherError {A}.

Definition json_ws (c : codepoint) : bool :=
  ((c =? 32) || (c =? 9) || (c =? 10) || (c =? 13))%N.

Fixpoint skip_ws (s : str) : str :=
  match s with
  | c :: tl => if json_ws c then skip_ws tl else s
  | [] => []
  end.

Definition hex_value (c : codepoint) : option N :=
  if ascii_digit c then Some (c - 48)%N
  else if ((97 <=? c) && (c <=? 102))%N then Some (c - 87)%N
  else if ((65 <=? c) && (c <=? 70))%N then Some (c - 55)%N
  else None.

Definition hex4 (a b c d : codepoint) : option N :=
  match hex_value a, hex_value b, hex_value c, hex_value d with
  | Some x, Some y, Some z, Some w => Some (x * 4096 + y * 256 + z * 16 + w)%N
  | _, _, _, _ => None
  end.

Definition simple_escape (e : codepoint) : option codepoint :=
  if (e =? 34)%N then Some 34%N           (* quotation mark *)
  else if (e =? 92)%N then Some 92%N      (* backslash *)
  else if (e =? 47)%N then Some 47%N      (* \/ *)
  else if (e =? 98)%N then Some 8%N       (* \b *)
  else if (e =? 102)%N then Some 12%N     (* \f *)
  else if (e =? 110)%N then Some 10%N     (* \n *)
  else if (e =? 114)%N then Some 13%N     (* \r *)
  else if (e =? 116)%N then Some 9%N      (* \t *)
  else None.

Definition is_high_surrogate (u : N) : bool := ((55296 <=? u) && (u <=? 56319))%N.
Definition is_low_surrogate (u : N) : bool := ((56320 <=? u) && (u <=? 57343))%N.

Definition cons_fst (c : codepoint) (r : option (str * str)) : option (str * str) :=
  match r with
  | Some (body, rest) => Some (c :: body, rest)
  | None => None
  end.

(** The text of a string literal after its opening quote: the decoded
    string and what follows the closing quote. *)
Fixpoint scan_string (s : str) : option (str * str) :=
  match s with
  | [] => None
  | c :: tl =>
    if (c =? 34)%N then Some ([], tl)
    else if (c <? 32)%N then None
    else if (c =? 92)%N then
      match tl with
      | [] => None
      | e :: tl1 =>
        if (e =? 117)%N then
          match tl1 with
          | h1 :: h2 :: h3 :: h4 :: tl2 =>
            match hex4 h1 h2 h3 h4 with
            | None => None
            | Some u =>
              match tl2 with
              | b :: v :: g1 :: g2 :: g3 :: g4 :: tl3 =>
                match hex4 g1 g2 g3 g4 with
                | Some u2 =>
                  if is_high_surrogate u && (b =? 92)%N && (v =? 117)%N
                     && is_low_surrogate u2
                  then cons_fst (65536 + (u - 55296) * 1024 + (u2 - 56320))%N
                                (scan_string tl3)
                  else cons_fst u (scan_string tl2)
                | None => cons_fst u (scan_string tl2)
                end
              | _ => cons_fst u (scan_string tl2)
              end
            end
          | _ => None
          end
        else
          match simple_escape e with
          | Some c' => cons_fst c' (scan_string tl1)
          | None => None
          end
      end
    else cons_fst c (scan_string tl)
  end.

Fixpoint span_digits (s : str) : str * str :=
  match s with
  | c :: tl => if ascii_digit c then let (d, r) := span_digits tl in (c :: d, r)
               else ([], s)
  | [] => ([], [])
  end.

(** [int(lexeme)] for a number without fraction and exponent: the digits of
    the integer part are counted against the limit. *)
Definition int_too_long (max_digits : nat) (int_part frac expo : str) : bool :=
  match frac, expo with
  | [], [] => (0 <? max_digits) && (max_digits <? length int_part)
  | _, _ => false
  end.

(** The longest number lexeme at the head of [s], with its integer part,
    fraction and exponent. *)
Definition number_parts (s : str) : option (str * str * str * str * str) :=
  let (sign, s1) := match s with
                    | c :: tl => if (c =? 45)%N then ([c], tl) else ([], s)
                    | [] => ([], s)
                    end in
  match s1 with
  | [] => None
  | c :: tl =>
    let int_part :=
      if (c =? 48)%N then Some ([c], tl)
      else if ascii_digit c then let (d, r) := span_digits tl in Some (c :: d, r)
      else None in
    match int_part with
    | None => None
    | Some (ip, s2) =>
      let (frac, s3) :=
        match s2 with
        | dot :: d :: tl2 =>
          if (dot =? 46)%N && ascii_digit d
          then let (ds, r) := span_digits tl2 in (dot :: d :: ds, r)
          else ([], s2)
        | _ => ([], s2)
        end in
      let (expo, s4) :=
        match s3 with
        | e :: tl3 =>
          if ((e =? 101) || (e =? 69))%N then
            let (sg, tl4) := match tl3 with
                             | x :: tl4 => if ((x =? 43) || (x =? 45))%N
                                           then ([x], tl4) else ([], tl3)
                             | [] => ([], tl3)
                             end in
            match span_digits tl4 with
            | ([], _) => ([], s3)
            | (ds, r) => (e :: sg ++ ds, r)
            end
          else ([], s3)
        | [] => ([], s3)
        end in
      Some (sign, ip, frac, expo, s4)
    end
  end.

Definition scan_number (max_digits : nat) (s : str) : scanned json :=
  match number_parts s with
  | None => ScanDecodeError
  | Some (sign, ip, frac, expo, rest) =>
    if int_too_long max_digits ip frac expo then ScanOtherError
    else Scanned (JNumber (sign ++ ip ++ frac ++ expo)) rest
  end.

Definition strip_prefix (p s : str) : option str :=
  if is_prefix p s then Some (skipn (length p) s) else None.

(** One value at the head of [s] (no leading blanks), and the rest.
    [room] is the number of containers that can still be entered. *)
Fixpoint scan_value (max_digits fuel room : nat) (s : str) : scanned json :=
  match fuel with
  | O => ScanDecodeError
  | S fuel' =>
    match s with
    | [] => ScanDecodeError
    | c :: tl =>
      if (c =? 34)%N then
        match scan_string tl with
        | Some (body, rest) => Scanned (JString body) rest
        | None => ScanDecodeError
        end
      else if (c =? 123)%N then
        match room with
        | O => ScanOtherError
        | S room' =>
          match skip_ws tl with
          | c1 :: tl1 =>
            if (c1 =? 125)%N then Scanned (JObject []) tl1
            else match scan_members max_digits fuel' room' (c1 :: tl1) with
                 | Scanned ms rest => Scanned (JObject ms) rest
                 | ScanDecodeError => ScanDecodeError
                 | ScanOtherError => ScanOtherError
                 end
          | [] => ScanDecodeError
          end
        end
      else if (c =? 91)%N then
        match room with
        | O => ScanOtherError
        | S room' =>
          match skip_ws tl with
          | c1 :: tl1 =>
            if (c1 =? 93)%N then Scanned (JArray []) tl1
            else match scan_items max_digits fuel' room' (c1 :: tl1) with
                 | Scanned vs rest => Scanned (JArray vs) rest
                 | ScanDecodeError => ScanDecodeError
                 | ScanOtherError => ScanOtherError
                 end
          | [] => ScanDecodeError
          end
        end
      else
        match strip_prefix (py "null") s with
        | Some rest => Scanned JNull rest
        | None =>
        match strip_prefix (py "true") s with
        | Some rest => Scanned (JBool true) rest
        | None =>
        match strip_prefix (py "false") s with
        | Some rest => Scanned (JBool false) rest
        | None =>
        match strip_prefix (py "NaN") s with
        | Some rest => Scanned (JNumber (py "NaN")) rest
        | None =>
        match strip_prefix (py "Infinity") s with
        | Some rest => Scanned (JNumber (py "Infinity")) rest
        | None =>
        match strip_prefix (py "-Infinity") s with
        | Some rest => Scanned (JNumber (py "-Infinity")) rest
        | None => scan_number max_digits s
        end end end end end end
    end
  end

(** The members of an object from the first key (at the head of [s]) to the
    closing brace. *)
with scan_members (max_digits fuel room : nat) (s : str)
  : scanned (list (str * json)) :=
  match fuel with
  | O => ScanDecodeError
  | S fuel' =>
    match s with
    | q :: tl =>
      if (q =? 34)%N then
        match scan_string tl with
        | None => ScanDecodeError
        | Some (key, r1) =>
          match skip_ws r1 with
          | colon :: r2 =>
            if (colon =? 58)%N then
              match scan_value max_digits fuel' room (skip_ws r2) with
              | ScanDecodeError => ScanDecodeError
              | ScanOtherError => ScanOtherError
              | Scanned v r3 =>
                match skip_ws r3 with
                | d :: r4 =>
                  if (d =? 125)%N then Scanned [(key, v)] r4
                  else if (d =? 44)%N then
                    match scan_members max_digits fuel' room (skip_ws r4) with
                    | Scanned ms r5 => Scanned ((key, v) :: ms) r5
                    | ScanDecodeError => ScanDecodeError
                    | ScanOtherError => ScanOtherError
                    end
                  else ScanDecodeError
                | [] => ScanDecodeError
                end
              end
            else ScanDecodeError
          | [] => ScanDecodeError
          end
        end
      else ScanDecodeError
    | [] => ScanDecodeError
    end
  end

(** The items of an array from the first one to the closing bracket. *)
with scan_items (max_digits fuel room : nat) (s : str) : scanned (list json) :=
  match fuel with
  | O => ScanDecodeError
  | S fuel' =>
    match scan_value max_digits fuel' room s with
    | ScanDecodeError => ScanDecodeError
    | ScanOtherError => ScanOtherError
    | Scanned v r1 =>
      match skip_ws r1 with
      | d :: r2 =>
        if (d =? 93)%N then Scanned [v] r2
        else if (d =? 44)%N then
          match scan_items max_digits fuel' room (skip_ws r2) with
          | Scanned vs r3 => Scanned (v :: vs) r3
          | ScanDecodeError => ScanDecodeError
          | ScanOtherError => ScanOtherError
          end
        else ScanDecodeError
      | [] => ScanDecodeError
      end
    end
  end.

(** [json.loads(content)] in the interpreter [python]: one value, blanks
    around it, nothing else. *)
Definition json_loads_in (python : interpreter) (content : str) : loads_result :=
  match scan_value (int_max_str_digits python) (2 * length content + 2)
                   (recursion_room python) (skip_ws content) with
  | Scanned v rest =>
    match skip_ws rest with
    | [] => Loaded v
    | _ :: _ => LoadsDecodeError
    end
  | ScanDecodeError => LoadsDecodeError
  | ScanOtherError => LoadsOtherError
  end.

(** The decoder of the examples: an interpreter with the limits that
    CPython starts with, 4300 digits and 1000 nested calls, ten of which
    are in use when [json.loads] is called. *)
Definition json_decode : str -> loads_result :=
  json_loads_in {| int_max_str_digits := 4300; recursion_room := 990 |}.

(* ------------------------------------------------------------------ *)
(** ** Regular expressions                                             *)
(* ------------------------------------------------------------------ *)

(** The patterns of the program are written in the fragment below and
    matched the way [re] (and [regex]) match them: by backtracking, the left
    alternative first, quantifiers greedy.  A flag [re.IGNORECASE] is
    written into the character classes of the pattern. *)
Module Re.

Inductive regex : Type :=
| Eps                                            (* the empty pattern *)
| Chr (p : codepoint -> bool)                    (* one character of a class *)
| Seq (r1 r2 : regex)                            (* r1 r2 *)
| Alt (r1 r2 : regex)                            (* r1|r2 *)
| Rep (r : regex) (lo : nat) (hi : option nat)   (* r{lo,hi}, greedy *)
| Group (n : nat) (r : regex)                    (* ( r ), group number n *)
| Backref (n : nat)                              (* \n *)
| Bol                                            (* ^ *)
| Eol                                            (* $ *)
| WordB.                                         (* \b *)

(** Where a match stands: the text still to read, the character before it,
    and the groups captured so far. *)
Record mstate : Type := {
  rest : str;
  prev : option codepoint;
  groups : list (nat * str)
}.

Fixpoint group_get (gs : list (nat * str)) (n : nat) : option str :=
  match gs with
  | [] => None
  | (m, s) :: tl => if Nat.eqb m n then Some s else group_get tl n
  end.

Definition group_set (n : nat) (s : str) (st : mstate) : mstate :=
  {| rest := rest st; prev := prev st; groups := (n, s) :: groups st |}.

(** The state after reading [c], with [tl] still to read. *)
Definition advance (st : mstate) (c : codepoint) (tl : str) : mstate :=
  {| rest := tl; prev := Some c; groups := groups st |}.

(** The state after reading the non-empty prefix [g] of the text. *)
Definition advance_by (st : mstate) (g : str) : mstate :=
  {| rest := skipn (length g) (rest st);
     prev := match g with [] => prev st | _ => Some (last g 0%N) end;
     groups := groups st |}.

Section Matcher.
Context {U : Unicode}.

Definition word_opt (c : option codepoint) : bool :=
  match c with
  | Some c => is_word c
  | None => false
  end.

Definition matcher : Type := (mstate -> option mstate) -> mstate -> option mstate.

(** [body{lo,hi}] followed by [k].  One more round of [body] is tried first
    and must read at least one character; when that fails the repetition
    stops, provided [lo] rounds were made.  [fuel] bounds the rounds and is
    taken larger than the text. *)
Fixpoint rep (body : matcher) (fuel lo : nat) (hi : option nat)
         (k : mstate -> option mstate) (st : mstate) : option mstate :=
  match fuel with
  | O => None
  | S fuel' =>
    let more :=
      match hi with
      | Some O => None
      | _ =>
        body (fun st' =>
                if length (rest st') <? length (rest st)
                then rep body fuel' (pred lo) (option_map pred hi) k st'
                else None) st
      end in
    match more with
    | Some r => Some r
    | None => if Nat.eqb lo 0 then k st else None
    end
  end.

(** [rmatch r k st]: match [r] at [st], then continue with [k]; the first
    success in backtracking order. *)
Fixpoint rmatch (r : regex) : matcher :=
  fun k st =>
  match r with
  | Eps => k st
  | Chr p =>
    match rest st with
    | c :: tl => if p c then k (advance st c tl) else None
    | [] => None
    end
  | Seq r1 r2 => rmatch r1 (rmatch r2 k) st
  | Alt r1 r2 =>
    match rmatch r1 k st with
    | Some res => Some res
    | None => rmatch r2 k st
    end
  | Rep r1 lo hi => rep (rmatch r1) (S (length (rest st))) lo hi k st
  | Group n r1 =>
    rmatch r1
      (fun st' =>
         k (group_set n (firstn (length (rest st) - length (rest st')) (rest st)) st'))
      st
  | Backref n =>
    match group_get (groups st) n with
    | Some g => if is_prefix g (rest st) then k (advance_by st g) else None
    | None => None
    end
  | Bol => match prev st with None => k st | Some _ => None end
  | Eol =>
    match rest st with
    | [] => k st
    | [c] => if (c =? 10)%N then k st else None
    | _ => None
    end
  | WordB =>
    if xorb (word_opt (prev st)) (word_opt (hd_error (rest st))) then k st else None
  end.

(** A match of [r] starting at the head of [s], the character before it
    being [before]: the number of characters matched and the groups. *)
Definition match_here (r : regex) (before : option codepoint) (s : str)
  : option (nat * list (nat * str)) :=
  match rmatch r Some {| rest := s; prev := before; groups := [] |} with
  | Some st => Some (length s - length (rest st), groups st)
  | None => None
  end.

(** [pattern.match(s)] *)
Definition re_match (r : regex) (s : str) : option (nat * list (nat * str)) :=
  match_here r None s.

(** [pattern.sub(repl, s)], scanning from left to right.  None of the
    patterns of the program matches the empty string; an empty match is
    treated as no match. *)
Fixpoint sub_from (r : regex) (repl : list (nat * str) -> str) (fuel : nat)
         (before : option codepoint) (s : str) : str :=
  match fuel with
  | O => s
  | S fuel' =>
    match s with
    | [] => []
    | c :: tl =>
      match match_here r before s with
      | Some (S n, gs) =>
        repl gs ++ sub_from r repl fuel' (nth_error s n) (skipn (S n) s)
      | _ => c :: sub_from r repl fuel' (Some c) tl
      end
    end
  end.

Definition re_sub (r : regex) (repl : list (nat * str) -> str) (s : str) : str :=
  sub_from r repl (length s) None s.

(** [pattern.findall(s)] for a pattern without groups: the matched texts. *)
Fixpoint findall_from (r : regex) (fuel : nat) (before : option codepoint) (s : str)
  : list str :=
  match fuel with
  | O => []
  | S fuel' =>
    match s with
    | [] => []
    | c :: tl =>
      match match_here r before s with
      | Some (S n, _) =>
        firstn (S n) s :: findall_from r fuel' (nth_error s n) (skipn (S n) s)
      | _ => findall_from r fuel' (Some c) tl
      end
    end
  end.

Definition re_findall (r : regex) (s : str) : list str :=
  findall_from r (length s) None s.

(** A matcher that reads one character of the class [p], in the states
    that satisfy [I]. *)
Definition reads_one (body : matcher) (p : codepoint -> bool) (I : mstate -> Prop)
  : Prop :=
  forall k st, I st ->
    body k st = match rest st with
                | c :: tl => if p c then k (advance st c tl) else None
                | [] => None
                end.

Definition kept_by_advance (I : mstate -> Prop) : Prop :=
  forall st c tl, I st -> I (advance st c tl).

(** [leads r st st']: matched at [st], the pattern [r] hands [st'] to what
    follows it, and that is the match taken whenever what follows succeeds
    there (no alternative tried before it succeeds). *)
Definition leads (r : regex) (st st' : mstate) : Prop :=
  forall k res, k st' = Some res -> rmatch r k st = Some res.

End Matcher.

(** The room that a bound [hi] leaves for [n] rounds of a repetition, and
    the end of a run of characters of a class: the bound is reached, or the
    text ends, or its next character is not of the class. *)
Definition within (hi : option nat) (n : nat) : Prop :=
  match hi with
  | Some h => n <= h
  | None => True
  end.

Definition run_ends (p : codepoint -> bool) (hi : option nat) (n : nat) (tl : str) : Prop :=
  hi = Some n \/ match tl with
                 | [] => True
                 | c :: _ => p c = false
                 end.

(** Ways of writing patterns. *)
Definition chr (c : codepoint) : regex := Chr (cp_eqb c).
Arguments chr c%_N.
Definition chr_ci (lower upper : codepoint) : regex :=
  Chr (fun c => cp_eqb c lower || cp_eqb c upper).
Arguments chr_ci (lower upper)%_N.
Definition lit (s : str) : regex := fold_right (fun c r => Seq (chr c) r) Eps s.
Definition seqs (rs : list regex) : regex := fold_right Seq Eps rs.
Definition alts (r : regex) (rs : list regex) : regex := fold_left Alt rs r.
Definition opt (r : regex) : regex := Rep r 0 (Some 1).
Definition plus (r : regex) : regex := Rep r 1 None.
Definition star (r : regex) : regex := Rep r 0 None.
Definition times (r : regex) (lo hi : nat) : regex := Rep r lo (Some hi).
Definition range (lo hi : codepoint) : codepoint -> bool :=
  fun c => ((lo <=? c) && (c <=? hi))%N.
Arguments range (lo hi)%_N c.

End Re.

(* ------------------------------------------------------------------ *)
(** ** Notions used in the statements about texts                      *)
(* ------------------------------------------------------------------ *)

(** The longest prefix of characters of a class, and what follows it. *)
Fixpoint takewhile (p : codepoint -> bool) (s : str) : str :=
  match s with
  | c :: tl => if p c then c :: takewhile p tl else []
  | [] => []
  end.

Fixpoint dropwhile (p : codepoint -> bool) (s : str) : str :=
  match s with
  | c :: tl => if p c then dropwhile p tl else s
  | [] => []
  end.

(** The number of [c] at the head of [s]. *)
Definition lead (c : codepoint) (s : str) : nat := length (takewhile (cp_eqb c) s).
Arguments lead c%_N s.

(** [t] occurs in [s] as a run of consecutive characters. *)
Definition is_factor (t s : str) : Prop := exists pre post, s = pre ++ t ++ post.

(** No character occurs three or more times in a row. *)
Definition no_run3 (s : str) : Prop :=
  forall pre c post, s <> pre ++ c :: c :: c :: post.

(** The only blanks of [s] are single spaces, and [s] does not start with
    one. *)
Inductive spaced : bool -> str -> Prop :=
| spaced_nil : forall after_space, spaced after_space []
| spaced_char : forall after_space c s,
    is_space c = false -> spaced false s -> spaced after_space (c :: s)
| spaced_space : forall s, spaced true s -> spaced false (32%N :: s).

Definition single_spaced (s : str) : Prop := spaced true s.

(* ------------------------------------------------------------------ *)
(** ** datetime                                                        *)
(* ------------------------------------------------------------------ *)

(** A naive [datetime.datetime]. *)
Record datetime : Type := {
  year : N; month : N; day : N;
  hour : N; minute : N; second : N
}.

Definition is_leap (y : N) : bool :=
  ((y mod 4 =? 0) && (negb (y mod 100 =? 0) || (y mod 400 =? 0)))%N.

Definition days_in_month (y m : N) : N :=
  (if (m =? 2) then (if is_leap y then 29 else 28)
   else if (m =? 4) || (m =? 6) || (m =? 9) || (m =? 11) then 30
   else 31)%N.

(** The constructor [datetime(y, m, d, H, M, S)]; [None] is [ValueError]. *)
Definition make_datetime (y m d H M S : N) : option datetime :=
  if ((1 <=? y) && (y <=? 9999) && (1 <=? m) && (m <=? 12)
      && (1 <=? d) && (d <=? days_in_month y m)
      && (H <=? 23) && (M <=? 59) && (S <=? 59))%N
  then Some {| year := y; month := m; day := d; hour := H; minute := M; second := S |}
  else None.

Module Strptime.
Import Re.

Section Strptime.
Context {U : Unicode}.

(** [int(s)] for a string of decimal digits. *)
Definition int_of (s : str) : N :=
  fold_left (fun acc c => (acc * 10 + digit_value c)%N) s 0%N.

Definition d : regex := Chr is_digit.
Definition cls (lo hi : string) : regex :=
  match py lo, py hi with
  | [a], [b] => Chr (range a b)
  | _, _ => Chr (fun _ => false)
  end.

(** The patterns that [_strptime] substitutes for the directives. *)
Definition dir_d : regex :=        (* 3[0-1]|[1-2]\d|0[1-9]|[1-9]| [1-9] *)
  alts (Seq (chr 51) (cls "0" "1"))
       [Seq (cls "1" "2") d; Seq (chr 48) (cls "1" "9"); cls "1" "9";
        Seq (chr 32) (cls "1" "9")].
Definition dir_m : regex :=        (* 1[0-2]|0[1-9]|[1-9] *)
  alts (Seq (chr 49) (cls "0" "2")) [Seq (chr 48) (cls "1" "9"); cls "1" "9"].
Definition dir_Y : regex := seqs [d; d; d; d].       (* \d\d\d\d *)
Definition dir_I : regex := dir_m.                   (* 1[0-2]|0[1-9]|[1-9] *)
Definition dir_H : regex :=                          (* 2[0-3]|[0-1]\d|\d *)
  alts (Seq (chr 50) (cls "0" "3")) [Seq (cls "0" "1") d; d].
Definition dir_M : regex :=                          (* [0-5]\d|\d *)
  Alt (Seq (cls "0" "5") d) d.
Definition dir_S : regex :=                          (* 6[0-1]|[0-5]\d|\d *)
  alts (Seq (chr 54) (cls "0" "1")) [Seq (cls "0" "5") d; d].
Definition dir_p : regex :=                          (* am|pm, ignoring case *)
  Alt (Seq (chr_ci 97 65) (chr_ci 109 77)) (Seq (chr_ci 112 80) (chr_ci 109 77)).
Definition blanks : regex := plus (Chr is_space).    (* \s+ *)

(** The compiled format ["%d/%m/%Y %I:%M%p"]. *)
Definition format_whatsapp : regex :=
  seqs [Group 1 dir_d; chr 47; Group 2 dir_m; chr 47; Group 3 dir_Y; blanks;
        Group 4 dir_I; chr 58; Group 5 dir_M; Group 6 dir_p].

(** The compiled format ["%d.%m.%Y %H:%M:%S"]. *)
Definition format_telegram : regex :=
  seqs [Group 1 dir_d; chr 46; Group 2 dir_m; chr 46; Group 3 dir_Y; blanks;
        Group 4 dir_H; chr 58; Group 5 dir_M; chr 58; Group 6 dir_S].

Definition group_int (gs : list (nat * str)) (n : nat) : N :=
  match group_get gs n with
  | Some s => int_of (str_strip s)
  | None => 0%N
  end.

(** The whole of [data] has to match the format. *)
Definition match_format (format : regex) (data : str) : option (list (nat * str)) :=
  match re_match format data with
  | Some (n, gs) => if Nat.eqb n (length data) then Some gs else None
  | None => None
  end.

(** A field of [lo] to [hi] ASCII digits whose value lies between [vmin]
    and [vmax]. *)
Definition digits_in (lo hi : nat) (vmin vmax : N) (s : str) : bool :=
  (lo <=? length s) && (length s <=? hi) && forallb ascii_digit s
  && (vmin <=? int_of s)%N && (int_of s <=? vmax)%N.

(** [datetime.strptime(data, "%d/%m/%Y %I:%M%p")]; [None] is [ValueError]. *)
Definition strptime_whatsapp (data : str) : option datetime :=
  match match_format format_whatsapp data with
  | None => None
  | Some gs =>
    let hour12 := group_int gs 4 in
    let ampm := match group_get gs 6 with
                | Some s => map ascii_lower_cp s
                | None => []
                end in
    let hour24 :=
      if str_eqb ampm (py "am") then (if (hour12 =? 12)%N then 0%N else hour12)
      else (if (hour12 =? 12)%N then hour12 else (hour12 + 12)%N) in
    make_datetime (group_int gs 3) (group_int gs 2) (group_int gs 1)
                  hour24 (group_int gs 5) 0
  end.

(** [datetime.strptime(data, "%d.%m.%Y %H:%M:%S")]; [None] is [ValueError]. *)
Definition strptime_telegram (data : str) : option datetime :=
  match match_format format_telegram data with
  | None => None
  | Some gs =>
    make_datetime (group_int gs 3) (group_int gs 2) (group_int gs 1)
                  (group_int gs 4) (group_int gs 5) (group_int gs 6)
  end.

End Strptime.
End Strptime.

(* ------------------------------------------------------------------ *)
(** ** data_parsers.py                                                 *)
(* ------------------------------------------------------------------ *)

(** A row of the returned DataFrame. *)
Record message : Type := {
  msg_datetime : datetime;
  msg_sender : str;
  msg_text : str
}.

Module WhatsApp.
Import Re.

Section WhatsApp.
Context {U : Unicode}.

Definition d : regex := Chr is_digit.
Definition s_opt : regex := opt (Chr is_space).
Definition s_star : regex := star (Chr is_space).
Definition not_newline (c : codepoint) : bool := negb (c =? 10)%N.

(** The pattern of line 40, compiled with [re.IGNORECASE]:
    [^(\d{1,2}\/\d{1,2}\/\d{4}),\s*(\d{1,2}:\d{2}\s?[ap]\.?m\.?)\s*-\s*(REST)$]
    where REST stands for any run of characters other than a newline. *)
Definition pattern : regex :=
  seqs [Bol;
        Group 1 (seqs [times d 1 2; chr 47; times d 1 2; chr 47; times d 4 4]);
        chr 44; s_star;
        Group 2 (seqs [times d 1 2; chr 58; times d 2 2; s_opt;
                       Chr (fun c => cp_eqb c 97 || cp_eqb c 65
                                     || cp_eqb c 112 || cp_eqb c 80);
                       opt (chr 46); chr_ci 109 77; opt (chr 46)]);
        s_star; chr 45; s_star;
        Group 3 (star (Chr not_newline));
        Eol].

(** Lines 60-68: the chain of [replace] on the matched time.  The first
    call (line 61) removes the narrow no-break space U+202F, code point
    8239; the space U+0020 is removed by the last call only (line 67). *)
Definition normalize_time (time_str : str) : str :=
  let t := str_replace [8239%N] [] time_str in
  let t := str_replace (py "a. m.") (py "AM") t in
  let t := str_replace (py "p. m.") (py "PM") t in
  let t := str_replace (py "a.m.") (py "AM") t in
  let t := str_replace (py "p.m.") (py "PM") t in
  let t := str_replace (py ".") [] t in
  str_replace (py " ") [] t.

Definition group_text (gs : list (nat * str)) (n : nat) : str :=
  match group_get gs n with
  | Some s => s
  | None => []
  end.

(** The body of the loop over the lines of the file: the row appended for
    [line], if any. *)
Definition parse_line (line : str) : option message :=
  let line := str_strip line in
  match re_match pattern line with
  | None => None                                     (* continue *)
  | Some (_, gs) =>
    let date_str := group_text gs 1 in
    let time_str := normalize_time (group_text gs 2) in
    let content := group_text gs 3 in
    match Strptime.strptime_whatsapp (date_str ++ py " " ++ time_str) with
    | None => None                                   (* except ValueError: continue *)
    | Some dt =>
      let (sender, message) :=
        if str_contains (py ": ") content
        then match split_first (py ": ") content with
             | (a, Some b) => (a, b)
             | (a, None) => (a, [])
             end
        else (py "SYSTEM", content) in
      Some {| msg_datetime := dt; msg_sender := sender; msg_text := message |}
    end
  end.

Fixpoint filter_map {X Y} (f : X -> option Y) (xs : list X) : list Y :=
  match xs with
  | [] => []
  | x :: rest =>
    match f x with
    | Some y => y :: filter_map f rest
    | None => filter_map f rest
    end
  end.

(** The lines of an export that the statements below speak of: day, month
    and year separated by "/", a comma and a space, hour and minute
    separated by ":", a meridiem mark, " - " and the content.  A meridiem
    mark is "am" or "pm" in either case, with or without a space (U+0020)
    before it and with or without a dot after each of its letters. *)
Definition meridiem_marks : list str :=
  flat_map (fun sp =>
    flat_map (fun ap =>
      flat_map (fun dot1 =>
        flat_map (fun m =>
          map (fun dot2 => sp ++ [ap] ++ dot1 ++ [m] ++ dot2) [[]; [46%N]])
          [109%N; 77%N])
        [[]; [46%N]])
      [97%N; 65%N; 112%N; 80%N])
    [[]; [32%N]].

(** The same marks without a blank before them. *)
Definition bare_marks : list str :=
  flat_map (fun ap =>
    flat_map (fun dot1 =>
      flat_map (fun m =>
        map (fun dot2 => [ap] ++ dot1 ++ [m] ++ dot2) [[]; [46%N]])
        [109%N; 77%N])
      [[]; [46%N]])
    [97%N; 65%N; 112%N; 80%N].

Definition is_pm (mer : str) : bool :=
  existsb (fun c => cp_eqb c 112 || cp_eqb c 80) mer.

Definition export_line (dd mm yyyy hh mi mer content : str) : str :=
  dd ++ py "/" ++ mm ++ py "/" ++ yyyy ++ py ", "
     ++ hh ++ py ":" ++ mi ++ mer ++ py " - " ++ content.

Definition fields_ok (dd mm yyyy hh mi mer : str) : Prop :=
  Strptime.digits_in 1 2 1 31 dd = true
  /\ Strptime.digits_in 1 2 1 12 mm = true
  /\ Strptime.digits_in 4 4 0 9999 yyyy = true
  /\ Strptime.digits_in 1 2 1 12 hh = true
  /\ Strptime.digits_in 2 2 0 59 mi = true
  /\ In mer meridiem_marks.

(** The hour of the day of hour [hour12] of the morning or of the
    afternoon. *)
Definition hour24 (hour12 : N) (pm : bool) : N :=
  if pm then (if (hour12 =? 12)%N then 12%N else (hour12 + 12)%N)
  else (if (hour12 =? 12)%N then 0%N else hour12).

(** The moment that the fields denote, if there is such a day. *)
Definition fields_datetime (dd mm yyyy hh mi mer : str) : option datetime :=
  make_datetime (Strptime.int_of yyyy) (Strptime.int_of mm) (Strptime.int_of dd)
                (hour24 (Strptime.int_of hh) (is_pm mer)) (Strptime.int_of mi) 0.

(** [parse_whatsapp_lines(filepath)], given what reading the file yields:
    its lines, or [None] when opening or reading it raises. *)
Definition parse_whatsapp_lines (file : option (list str)) : list message :=
  match file with
  | Some lines => filter_map parse_line lines
  | None => []
  end.

End WhatsApp.
End WhatsApp.

Module Telegram.

(** What BeautifulSoup reports about one [div] selected by
    [find_all("div", class_=re.compile(r"message default clearfix"))]. *)
Record msg_div : Type := {
  (** [msg_div.get("class", [])] *)
  div_classes : list str;
  (** the [title] of the [div] of class "pull_right date details", when
      there is such a [div] and it has the attribute *)
  date_title : option str;
  (** [get_text(strip=True)] of the [div] of class "from_name", if any *)
  from_name : option str;
  (** [get_text("\n", strip=True)] of the [div] of class "text", if any *)
  text_div : option str
}.

Section Telegram.
Context {U : Unicode}.

Definition is_service (m : msg_div) : bool :=
  existsb (str_eqb (py "service")) (div_classes m).

(** [date_str.split(" UTC")[0].strip()] and [strptime]. *)
Definition parse_date (date_str : str) : option datetime :=
  let parted := str_strip (fst (split_first (py " UTC") date_str)) in
  Strptime.strptime_telegram parted.

(** Truth value of a string. *)
Definition truthy (s : option str) : bool :=
  match s with
  | Some (_ :: _) => true
  | _ => false
  end.

(** One round of the loop over [msg_divs]: the new value of [last_sender]
    and the row appended, if any. *)
Definition step (last_sender : option str) (m : msg_div)
  : option str * option message :=
  if is_service m then (last_sender, None)
  else
    match date_title m with
    | None => (last_sender, None)
    | Some date_str =>
      match parse_date date_str with
      | None => (last_sender, None)
      | Some dt =>
        let (sender, last_sender') :=
          match from_name m with
          | Some name => (name, Some name)
          | None =>
            ((if truthy last_sender
              then match last_sender with Some s => s | None => [] end
              else py "Unknown"),
             last_sender)
          end in
        match text_div m with
        | None => (last_sender', None)
        | Some message_text =>
          match message_text with
          | [] => (last_sender', None)
          | _ :: _ =>
            (last_sender',
             Some {| msg_datetime := dt; msg_sender := sender; msg_text := message_text |})
          end
        end
      end
    end.

(** The loop, from a given value of [last_sender]. *)
Fixpoint scan (last_sender : option str) (msg_divs : list msg_div) : list message :=
  match msg_divs with
  | [] => []
  | m :: rest =>
    match step last_sender m with
    | (last_sender', Some row) => row :: scan last_sender' rest
    | (last_sender', None) => scan last_sender' rest
    end
  end.

(** The value of [last_sender] after the loop. *)
Fixpoint last_sender_after (last_sender : option str) (msg_divs : list msg_div)
  : option str :=
  match msg_divs with
  | [] => last_sender
  | m :: rest => last_sender_after (fst (step last_sender m)) rest
  end.

(** [parse_telegram_html(filepath)], given what reading and parsing the
    file yields: the selected [div]s in document order, or [None] when
    opening or reading the file raises. *)
Definition parse_telegram_html (file : option (list msg_div)) : list message :=
  match file with
  | Some msg_divs => scan None msg_divs     (* last_sender = None *)
  | None => []
  end.

(** The sender that the scan reads from a node and stores in
    [last_sender]: the node is not a service message, its timestamp can be
    parsed, and it has a sender field. *)
Definition sender_read (m : msg_div) : option str :=
  if is_service m then None
  else match date_title m with
       | None => None
       | Some date_str =>
         match parse_date date_str with
         | None => None
         | Some _ => from_name m
         end
       end.

(** The most recent sender read among the nodes [before]. *)
Definition most_recent_sender (before : list msg_div) : option str :=
  hd_error (rev (WhatsApp.filter_map sender_read before)).

(** The row that the scan appends for [m], if it appends one, is the row
    after those of the nodes before [m]. *)
Definition row_of (before : list msg_div) (m : msg_div) (after : list msg_div)
  : option message :=
  nth_error (parse_telegram_html (Some (before ++ m :: after)))
            (length (parse_telegram_html (Some before))).

(** [pipeline.py], lines 84-93: every file is parsed by a call of its own. *)
Definition parse_telegram_files (files : list (option (list msg_div)))
  : list (list message) :=
  map parse_telegram_html files.

(** The titles that the statements below speak of: day, month and year
    separated by dots, a space, hour, minute and second separated by colons,
    and " UTC" followed by anything (the offset). *)
Definition title_of (dd mm yyyy HH MM SS offset : str) : str :=
  dd ++ py "." ++ mm ++ py "." ++ yyyy ++ py " "
     ++ HH ++ py ":" ++ MM ++ py ":" ++ SS ++ py " UTC" ++ offset.

Definition title_ok (dd mm yyyy HH MM SS : str) : Prop :=
  Strptime.digits_in 1 2 1 31 dd = true
  /\ Strptime.digits_in 1 2 1 12 mm = true
  /\ Strptime.digits_in 4 4 0 9999 yyyy = true
  /\ Strptime.digits_in 1 2 0 23 HH = true
  /\ Strptime.digits_in 2 2 0 59 MM = true
  /\ Strptime.digits_in 2 2 0 59 SS = true.

(** The timestamp of a node that passes lines 136-151: it is not a service
    message and its timestamp can be parsed. *)
Definition node_datetime (m : msg_div) : option datetime :=
  if is_service m then None
  else match date_title m with
       | None => None
       | Some date_str => parse_date date_str
       end.

Definition is_read (m : msg_div) : bool :=
  match node_datetime m with
  | Some _ => true
  | None => false
  end.

(** The timestamp and the text of the row of a node that has one: the node
    passes lines 136-151 and its text container is there and not empty. *)
Definition row_content (m : msg_div) : option (datetime * str) :=
  match node_datetime m with
  | None => None
  | Some dt =>
    match text_div m with
    | Some (c :: t) => Some (dt, c :: t)
    | _ => None
    end
  end.

End Telegram.
End Telegram.

(* ------------------------------------------------------------------ *)
(** ** text_cleaning.py                                                *)
(* ------------------------------------------------------------------ *)

(** A token of a spaCy [Doc], with the attributes the program can read. *)
Record Token : Type := {
  tok_text : str;          (* token.text *)
  tok_like_num : bool;     (* token.like_num *)
  tok_lemma : str          (* token.lemma_ *)
}.

Module TextCleaning.
Import Re.

Section TextCleaning.
Context {U : Unicode}.

(** The linguistic model [nlp = spacy.load("es_core_news_sm")]. *)
Variable nlp : str -> list Token.

(** [nlp.Defaults.stop_words], [stopwords.words("spanish")] and
    [CUSTOM_STOPWORDS] of config.py. *)
Variable stopwords_spacy : list str.
Variable stopwords_nltk : list str.
Variable CUSTOM_STOPWORDS : list str.

(** [token.lower_]: the lowercase form of the token text. *)
Definition lower_ (t : Token) : str := str_lower (tok_text t).

(** [stopwords_spacy.union(stopwords_nltk).union(CUSTOM_STOPWORDS)] *)
Definition spanish_stopwords : list str :=
  (stopwords_spacy ++ stopwords_nltk) ++ CUSTOM_STOPWORDS.

Definition in_set (x : str) (set : list str) : bool := existsb (str_eqb x) set.

Definition not_space (c : codepoint) : bool := negb (is_space c).
Definition not_newline (c : codepoint) : bool := negb (c =? 10)%N.
Definition d : regex := Chr is_digit.

(** [https?://\S+|www\.\S+] *)
Definition URL_PATTERN : regex :=
  Alt (seqs [lit (py "http"); opt (chr 115); lit (py "://"); plus (Chr not_space)])
      (seqs [lit (py "www"); chr 46; plus (Chr not_space)]).

(** The four ranges of the character class of [EMOJI_PATTERN]. *)
Definition is_emoji (c : codepoint) : bool :=
  range 128512 128591 c       (* U+1F600 - U+1F64F *)
  || range 127744 128511 c    (* U+1F300 - U+1F5FF *)
  || range 128640 128767 c    (* U+1F680 - U+1F6FF *)
  || range 127456 127487 c.   (* U+1F1E0 - U+1F1FF *)

Definition EMOJI_PATTERN : regex := plus (Chr is_emoji).

(** [@\w+] *)
Definition MENTION_PATTERN : regex := Seq (chr 64) (plus (Chr is_word)).

(** [\+\d{1,3}[- ]?\d{6,14}] *)
Definition PHONE_PATTERN : regex :=
  seqs [chr 43; times d 1 3; opt (Chr (fun c => cp_eqb c 45 || cp_eqb c 32));
        times d 6 14].

Definition slash_or_dash (c : codepoint) : bool := cp_eqb c 47 || cp_eqb c 45.

(** [\b\d{1,2}[/-]\d{1,2}[/-]\d{2,4}\b] *)
Definition DATE_PATTERN : regex :=
  seqs [WordB; times d 1 2; Chr slash_or_dash; times d 1 2; Chr slash_or_dash;
        times d 2 4; WordB].

(** [\b\d{1,2}:\d{2}\b] *)
Definition TIME_PATTERN : regex :=
  seqs [WordB; times d 1 2; chr 58; times d 2 2; WordB].

(** [(.)\1{2,}] *)
Definition REPEATED_CHARS : regex :=
  Seq (Group 1 (Chr not_newline)) (Rep (Backref 1) 2 None).

(** [[^\w\s]] *)
Definition NOT_WORD_NOR_SPACE : regex :=
  Chr (fun c => negb (is_word c || is_space c)).

(** [\s+] *)
Definition SPACES : regex := plus (Chr is_space).

Definition empty (_ : list (nat * str)) : str := [].
Definition space (_ : list (nat * str)) : str := [32%N].
Definition group1 (gs : list (nat * str)) : str :=
  match group_get gs 1 with
  | Some s => s
  | None => []
  end.

(** [extract_emojis(text)] *)
Definition extract_emojis (text : str) : str :=
  match str_strip text with
  | [] => []
  | _ :: _ =>
    let found_emojis := re_findall EMOJI_PATTERN text in
    concat found_emojis                     (* "".join(found_emojis) *)
  end.

(** Line 79: [text.lower().replace("\n", " ").replace("\r", " ")] *)
Definition first_step (text : str) : str :=
  str_replace [13%N] [32%N] (str_replace [10%N] [32%N] (str_lower text)).

(** Lines 79-90 of [clean_text]: the text handed to the linguistic model. *)
Definition normalize (text : str) : str :=
  let text := first_step text in
  let text := re_sub URL_PATTERN empty text in
  let text := re_sub EMOJI_PATTERN empty text in
  let text := re_sub MENTION_PATTERN empty text in
  let text := re_sub PHONE_PATTERN empty text in
  let text := re_sub DATE_PATTERN empty text in
  let text := re_sub TIME_PATTERN empty text in
  let text := re_sub NOT_WORD_NOR_SPACE space text in
  let text := re_sub REPEATED_CHARS group1 text in
  str_strip (re_sub SPACES space text).

(** The condition of the comprehension of lines 93-97. *)
Definition keeps (token : Token) : bool :=
  negb (in_set (str_lower (tok_text token)) spanish_stopwords)
  && negb (tok_like_num token).

(** [clean_text(text)] *)
Definition clean_text (text : str) : str :=
  match str_strip text with
  | [] => []
  | _ :: _ =>
    let doc := nlp (normalize text) in
    let tokens := map lower_ (filter keeps doc) in
    str_join [32%N] tokens
  end.

(** The last stage as the specification words it (steps 10 and 11): the
    lemmas of the surviving tokens, joined by single spaces. *)
Definition clean_text_joining_lemmas (text : str) : str :=
  match str_strip text with
  | [] => []
  | _ :: _ => str_join [32%N] (map tok_lemma (filter keeps (nlp (normalize text))))
  end.

(** A model that differs from [nlp] in the lemmas only. *)
Definition with_lemmas (f : Token -> str) (s : str) : list Token :=
  map (fun t => {| tok_text := tok_text t;
                   tok_like_num := tok_like_num t;
                   tok_lemma := f t |}) (nlp s).

(** What the statements below assume of the interpreter's Unicode tables:
    lowercasing leaves unchanged a text made of characters of lowercased
    texts and of spaces (lowercase and uncased characters have no further
    lowercase form). *)
Definition lower_stable : Prop :=
  forall s t : str,
    (forall c, In c t -> In c (str_lower s) \/ c = 32%N) -> str_lower t = t.

(** What they assume of the tokenizer of the linguistic model: in a text
    whose only blanks are single spaces between words, every token is a
    non-empty piece of a word. *)
Definition tokens_are_word_pieces : Prop :=
  forall s, single_spaced s ->
    Forall (fun t => tok_text t <> []
                     /\ is_factor (tok_text t) s
                     /\ Forall (fun c => is_space c = false) (tok_text t))
           (nlp s).

(** A word of a clean text: not empty, made of characters of [\w] (none of
    which is a blank). *)
Definition is_clean_word (w : str) : Prop :=
  w <> [] /\ Forall (fun c => is_word c = true /\ is_space c = false) w.

End TextCleaning.
End TextCleaning.

(** A small linguistic model, used to evaluate [clean_text] on examples: a
    token is a maximal run of characters other than blanks, it is
    number-like when it is made of digits, and its lemma drops a final "s". *)
Module ToyModel.

Fixpoint split_blanks (fuel : nat) (s : str) : list str :=
  match fuel with
  | O => []
  | S fuel' =>
    match dropwhile is_space s with
    | [] => []
    | c :: tl =>
      (c :: takewhile TextCleaning.not_space tl)
        :: split_blanks fuel' (dropwhile TextCleaning.not_space tl)
    end
  end.

Definition drop_final_s (w : str) : str :=
  match rev w with
  | c :: (_ :: _) as r => if (c =? 115)%N then rev (tl (c :: r)) else w
  | _ => w
  end.

Definition token_of (w : str) : Token :=
  {| tok_text := w;
     tok_like_num := forallb ascii_digit w;
     tok_lemma := drop_final_s w |}.

Definition nlp (s : str) : list Token := map token_of (split_blanks (length s) s).

End ToyModel.

(* ------------------------------------------------------------------ *)
(** ** pipeline.py: the texts handed to the classifier                 *)
(* ------------------------------------------------------------------ *)

Module Pipeline.

(** [x.split()]: the maximal runs of characters that are not blanks. *)
Fixpoint split_fuel (fuel : nat) (x : str) : list str :=
  match fuel with
  | O => []
  | S fuel' =>
    match dropwhile is_space x with
    | [] => []
    | c :: tl =>
      (c :: takewhile (fun c => negb (is_space c)) tl)
        :: split_fuel fuel' (dropwhile (fun c => negb (is_space c)) tl)
    end
  end.

Definition str_split (x : str) : list str := split_fuel (length x) x.

(** Line 124: [df["message_clean"].apply(lambda x: len(x.split()))]. *)
Definition n_tokens (message_clean : str) : nat := length (str_split message_clean).

(** Lines 125 and 130: the clean texts of the rows with [n_tokens > 1], in
    the order of the rows. *)
Definition texts_to_classify (messages_clean : list str) : list str :=
  filter (fun x => 1 <? n_tokens x) messages_clean.

End Pipeline.

(* ------------------------------------------------------------------ *)
(** ** Data of the examples                                            *)
(* ------------------------------------------------------------------ *)

(** A run of three batches of two texts whose second call raises. *)
Definition demo_valid : list str := [py "amor"; py "ira"; py "tristeza"].
Definition demo_unknown : str := py "Neutro".
Definition demo_texts : list str :=
  [py "te quiero"; py "odio esto"; py "estoy triste"; py "que rabia"; py "mi amor"].
Definition demo_service (n : nat) (req : chat_request) : api_outcome :=
  match n with
  | 0 => ApiContent (pyq "{'1': 'amor', '2': 'ira'}")
  | 1 => ApiContent (pyq "{'1': 'tristeza', '2': 'IRA'}")
  | _ => ApiContent (pyq "{'1': 'Amor'}")
  end.
Definition demo_service_failing (n : nat) (req : chat_request) : api_outcome :=
  match n with
  | 1 => ApiRaises
  | _ => demo_service n req
  end.

(** A run of three batches of two texts: the first answer holds a number
    where a label is expected, the second is as expected, the third call
    raises. *)
Definition demo_texts6 : list str :=
  [py "te quiero"; py "odio esto"; py "que rabia"; py "estoy triste";
   py "mi amor"; py "que pena"].
Definition demo_service_number (n : nat) (req : chat_request) : api_outcome :=
  match n with
  | 0 => ApiContent (pyq "{'1': 'amor', '2': 5}")
  | 1 => ApiContent (pyq "{'1': 'ira', '2': 'tristeza'}")
  | _ => ApiRaises
  end.

(** Nodes of a Telegram export used in the examples below. *)
Definition tg_node (classes : list str) (title sender text : option str)
  : Telegram.msg_div :=
  {| Telegram.div_classes := classes;
     Telegram.date_title := title;
     Telegram.from_name := sender;
     Telegram.text_div := text |}.

Definition tg_classes : list str := [py "message"; py "default"; py "clearfix"].
Definition tg_joined : list str := tg_classes ++ [py "joined"].

Definition tg_ana : Telegram.msg_div :=
  tg_node tg_classes (Some (py "03.01.2022 18:30:05 UTC-05:00")) (Some (py "Ana")) (Some (py "hola")).
Definition tg_empty_name : Telegram.msg_div :=
  tg_node tg_classes (Some (py "03.01.2022 18:31:00 UTC-05:00")) (Some (py "")) (Some (py "que tal")).
Definition tg_photo : Telegram.msg_div :=
  tg_node tg_classes (Some (py "03.01.2022 18:32:00 UTC-05:00")) (Some (py "Luis")) None.
Definition tg_senderless : Telegram.msg_div :=
  tg_node tg_joined (Some (py "03.01.2022 18:33:10 UTC-05:00")) None (Some (py "todo bien")).
Definition tg_service_with_name : Telegram.msg_div :=
  tg_node (tg_classes ++ [py "service"])
          (Some (py "03.01.2022 18:32:00 UTC-05:00")) (Some (py "Luis")) (Some (py "Luis joined")).

Definition tg_time (H M S : N) : datetime :=
  {| year := 2022; month := 1; day := 3; hour := H; minute := M; second := S |}.

(** The text of the examples. *)
Definition demo_message : str :=
  py "Holaaaa @juan mira los gatos 😀😀 https://x.com/a?b=1 el 3/1/2022 a las 8:30 +51 987654321!!!".

Definition demo_clean_text : str -> str :=
  TextCleaning.clean_text (U := AsciiUnicode) ToyModel.nlp
    [py "el"; py "a"] [py "los"; py "las"] [py "mira"].

(* ================================================================== *)
(** * Part II.  Properties                                             *)
(* ================================================================== *)

(* ------------------------------------------------------------------ *)
(** ** Strings                                                         *)
(* ------------------------------------------------------------------ *)

Lemma str_eqb_eq (a b : str) : str_eqb a b = true <-> a = b.
Proof.
  revert b; induction a as [|x a IH]; intros [|y b]; simpl; split; intro H;
    try reflexivity; try discriminate.
  - apply andb_prop in H as [Hx Hab]. apply N.eqb_eq in Hx.
    apply IH in Hab. now subst.
  - injection H as -> ->. unfold cp_eqb. rewrite N.eqb_refl. simpl. now apply IH.
Qed.

Lemma str_eqb_refl (a : str) : str_eqb a a = true.
Proof. now apply str_eqb_eq. Qed.

(* ------------------------------------------------------------------ *)
(** ** Computations over [results] only ever append                    *)
(* ------------------------------------------------------------------ *)

Section ResultsMonad.

Lemma appends_ret {A} (a : A) : appends (ret a).
Proof. intro r. unfold ret. simpl. now rewrite app_nil_r. Qed.

Lemma appends_raise {A} (e : exn) : appends (@raise A e).
Proof. intro r. unfold raise. simpl. now rewrite app_nil_r. Qed.

Lemma appends_results_append (x : str) : appends (results_append x).
Proof. intro r. reflexivity. Qed.

Lemma appends_bind {A B} (m : M A) (f : A -> M B) :
  appends m -> (forall a, appends (f a)) -> appends (bind m f).
Proof.
  intros Hm Hf r. unfold bind. rewrite (Hm r).
  destruct (m []) as [[a|e] d]; simpl.
  - rewrite (Hf a (r ++ d)), (Hf a d). simpl. now rewrite app_assoc.
  - reflexivity.
Qed.

Lemma appends_try_except {A} (body : M A) catches (handler : M A) :
  appends body -> appends handler -> appends (try_except body catches handler).
Proof.
  intros Hb Hh r. unfold try_except. rewrite (Hb r).
  destruct (body []) as [[a|e] d]; simpl; [reflexivity|].
  destruct (catches e); [|reflexivity].
  rewrite (Hh (r ++ d)), (Hh d). simpl. now rewrite app_assoc.
Qed.

Lemma appends_for_each {X} (xs : list X) (body : X -> M unit) :
  (forall x, appends (body x)) -> appends (for_each xs body).
Proof.
  intro Hb. induction xs as [|x xs IH]; simpl.
  - apply appends_ret.
  - apply appends_bind; auto.
Qed.

Lemma appends_only_ret {A} P (a : A) : appends_only P (ret a).
Proof. intros r Hr. exact Hr. Qed.

Lemma appends_only_raise {A} P (e : exn) : appends_only P (@raise A e).
Proof. intros r Hr. exact Hr. Qed.

Lemma appends_only_results_append P (x : str) :
  P x -> appends_only P (results_append x).
Proof. intros Hx r Hr. simpl. apply Forall_app. split; auto. Qed.

Lemma appends_only_bind {A B} P (m : M A) (f : A -> M B) :
  appends_only P m -> (forall a, appends_only P (f a)) ->
  appends_only P (bind m f).
Proof.
  intros Hm Hf r Hr. unfold bind. specialize (Hm r Hr).
  destruct (m r) as [[a|e] d]; simpl in *; auto. now apply Hf.
Qed.

Lemma appends_only_try_except {A} P (body : M A) catches (handler : M A) :
  appends_only P body -> appends_only P handler ->
  appends_only P (try_except body catches handler).
Proof.
  intros Hb Hh r Hr. unfold try_except. specialize (Hb r Hr).
  destruct (body r) as [[a|e] d]; simpl in *; auto.
  destruct (catches e); simpl; auto.
Qed.

Lemma appends_only_for_each {X} P (xs : list X) (body : X -> M unit) :
  (forall x, appends_only P (body x)) -> appends_only P (for_each xs body).
Proof.
  intro Hb. induction xs as [|x xs IH]; simpl.
  - apply appends_only_ret.
  - apply appends_only_bind; auto.
Qed.

(** A loop whose body always ends normally and only appends leaves the
    concatenation of what each iteration appends. *)
Lemma for_each_concat {X} (xs : list X) (body : X -> M unit) :
  (forall x, appends (body x)) ->
  (forall x, fst (body x []) = Ok tt) ->
  forall r, for_each xs body r =
            (Ok tt, r ++ concat (map (fun x => snd (body x [])) xs)).
Proof.
  intros Ha Hok. induction xs as [|x xs IH]; intro r; simpl.
  - unfold ret. now rewrite app_nil_r.
  - unfold bind. rewrite (Ha x r), (Hok x). rewrite IH. now rewrite app_assoc.
Qed.

End ResultsMonad.

(* ------------------------------------------------------------------ *)
(** ** Lists: batches                                                  *)
(* ------------------------------------------------------------------ *)

Lemma nth_error_split_at {X} (l : list X) (k : nat) (x : X) :
  nth_error l k = Some x -> l = firstn k l ++ x :: skipn (S k) l.
Proof.
  revert k; induction l as [|y l IH]; intros [|k] H; simpl in *; try discriminate.
  - now injection H as ->.
  - f_equal. now apply IH.
Qed.

Lemma nth_error_combine {X Y} (xs : list X) (ys : list Y) (k : nat) x y :
  nth_error xs k = Some x -> nth_error ys k = Some y ->
  nth_error (combine xs ys) k = Some (x, y).
Proof.
  revert ys k; induction xs as [|a xs IH]; intros [|b ys] [|k] Hx Hy;
    simpl in *; try discriminate.
  - now injection Hx as ->; injection Hy as ->.
  - now apply IH.
Qed.

Lemma nth_error_seq_lt (start len k : nat) :
  k < len -> nth_error (seq start len) k = Some (start + k).
Proof.
  revert start k; induction len as [|len IH]; intros start [|k] H; simpl; try lia.
  - f_equal; lia.
  - rewrite IH by lia. f_equal; lia.
Qed.

Lemma div_ceil_gt (stop step k : nat) :
  0 < step -> k * step < stop -> k < (stop + step - 1) / step.
Proof.
  intros Hs Hk. apply Nat.div_le_lower_bound with (q := S k); lia.
Qed.

(** The [k]-th batch is number [k] and holds [texts[k*step : k*step + step]]. *)
Lemma batches_nth (texts : list str) (step k : nat) :
  0 < step -> k * step < length texts ->
  nth_error (Classifier.batches texts step) k = Some (k, slice texts (k * step) step).
Proof.
  intros Hs Hk. unfold Classifier.batches, py_range_step.
  pose proof (div_ceil_gt _ _ _ Hs Hk) as Hlt.
  apply nth_error_combine.
  - rewrite length_map, length_seq. now rewrite nth_error_seq_lt.
  - rewrite !nth_error_map, nth_error_seq_lt by assumption. reflexivity.
Qed.

(** The batches are a partition of [texts], in order. *)
Lemma skipn_firstn_chunks {X} (xs : list X) (step n start : nat) :
  0 < step ->
  length xs <= (start + n) * step ->
  concat (map (fun k => firstn step (skipn (k * step) xs)) (seq start n))
  = skipn (start * step) xs.
Proof.
  intros Hs. revert start. induction n as [|n IH]; intros start Hlen; simpl.
  - rewrite skipn_all2; [reflexivity|]. lia.
  - rewrite IH by lia.
    replace (S start * step) with (step + start * step) by lia.
    rewrite <- skipn_skipn. apply firstn_skipn.
Qed.

Lemma batches_concat (texts : list str) (step : nat) :
  0 < step -> concat (map snd (Classifier.batches texts step)) = texts.
Proof.
  intro Hs. unfold Classifier.batches, py_range_step.
  set (n := (length texts + step - 1) / step).
  rewrite map_map. rewrite length_map, length_seq.
  assert (Hsnd : forall (xs : list nat) (ys : list (list str)),
             length xs = length ys -> map snd (combine xs ys) = ys).
  { induction xs as [|x xs IH]; intros [|y ys] H; simpl in *; try discriminate;
      [reflexivity|]. f_equal. apply IH. lia. }
  rewrite Hsnd by now rewrite length_map, !length_seq.
  unfold slice.
  rewrite (skipn_firstn_chunks texts step n 0 Hs).
  - reflexivity.
  - simpl. destruct (Nat.lt_ge_cases (n * step) (length texts)) as [Hlt|]; [|lia].
    apply div_ceil_gt in Hlt; [|assumption]. fold n in Hlt. lia.
Qed.
(* ------------------------------------------------------------------ *)
(** ** emotion_analysis.py: the contribution of one batch              *)
(* ------------------------------------------------------------------ *)

Section ClassifierFacts.
Context {U : Unicode}.
Variable VALID_EMOTIONS : list str.
Variable UNKNOWN_EMOTION_LABEL : str.
Variable json_loads : str -> loads_result.
Variable service : nat -> chat_request -> api_outcome.

Local Abbreviation process_batch :=
  (Classifier.process_batch VALID_EMOTIONS UNKNOWN_EMOTION_LABEL json_loads service).
Local Abbreviation chunk_labels :=
  (Classifier.chunk_labels VALID_EMOTIONS UNKNOWN_EMOTION_LABEL json_loads service).
Local Abbreviation classify_texts_in_bulk :=
  (Classifier.classify_texts_in_bulk VALID_EMOTIONS UNKNOWN_EMOTION_LABEL json_loads service).
Local Abbreviation fill_unknown := (Classifier.fill_unknown UNKNOWN_EMOTION_LABEL).
Local Abbreviation extract_item := (Classifier.extract_item VALID_EMOTIONS UNKNOWN_EMOTION_LABEL).
Local Abbreviation get_lower := (Classifier.get_lower UNKNOWN_EMOTION_LABEL).
Local Abbreviation item_label := (Classifier.item_label VALID_EMOTIONS UNKNOWN_EMOTION_LABEL).

Lemma fill_unknown_run (batch : list str) (r : list str) :
  fill_unknown batch r = (Ok tt, r ++ repeat UNKNOWN_EMOTION_LABEL (length batch)).
Proof.
  unfold Classifier.fill_unknown. revert r.
  induction batch as [|x batch IH]; intro r; simpl.
  - unfold ret. now rewrite app_nil_r.
  - unfold bind, results_append. rewrite IH. now rewrite <- app_assoc.
Qed.

Lemma get_lower_appends parsed_json key : appends (get_lower parsed_json key).
Proof.
  unfold Classifier.get_lower. destruct parsed_json; try apply appends_raise.
  destruct (dict_get members key) as [[]|];
    try apply appends_raise; apply appends_ret.
Qed.

Lemma extract_item_appends parsed_json i : appends (extract_item parsed_json i).
Proof.
  unfold Classifier.extract_item. apply appends_bind.
  - apply get_lower_appends.
  - intro a. apply appends_results_append.
Qed.

Lemma fill_unknown_appends batch : appends (fill_unknown batch).
Proof. apply appends_for_each. intro. apply appends_results_append. Qed.

Lemma process_batch_appends mt n batch : appends (process_batch mt n batch).
Proof.
  unfold Classifier.process_batch. apply appends_try_except.
  - apply appends_bind.
    + unfold Classifier.call_api. destruct (service _ _); [apply appends_raise|apply appends_ret].
    + intro content. apply appends_bind.
      * apply appends_try_except.
        -- apply appends_bind.
           ++ unfold Classifier.loads. destruct (json_loads content);
                [apply appends_ret|apply appends_raise|apply appends_raise].
           ++ intro. apply appends_ret.
        -- apply appends_bind; [apply fill_unknown_appends|intro; apply appends_ret].
      * intros [parsed_json|]; [|apply appends_ret].
        apply appends_for_each. intro. apply extract_item_appends.
  - apply fill_unknown_appends.
Qed.

(** The loop body never lets an exception escape. *)
Lemma process_batch_ok mt n batch r : fst (process_batch mt n batch r) = Ok tt.
Proof.
  unfold Classifier.process_batch, try_except.
  match goal with |- context [match ?b r with _ => _ end] => destruct (b r) as [[[]|e] d] end.
  - reflexivity.
  - simpl. now rewrite fill_unknown_run.
Qed.

Lemma process_batch_run mt n batch r :
  process_batch mt n batch r = (Ok tt, r ++ chunk_labels mt n batch).
Proof.
  rewrite (process_batch_appends mt n batch r).
  now rewrite process_batch_ok.
Qed.

(** The result is the concatenation, batch after batch, of what each batch
    contributes. *)
Lemma classify_concat texts max_per_chunk mt :
  (1 <= max_per_chunk)%Z ->
  classify_texts_in_bulk texts max_per_chunk mt =
  Some (concat (map (fun b => chunk_labels mt (fst b) (snd b))
                    (Classifier.batches texts (Z.to_nat max_per_chunk)))).
Proof.
  intro H. unfold Classifier.classify_texts_in_bulk.
  destruct (Z.eqb_spec max_per_chunk 0) as [|_]; [lia|].
  destruct (Z.ltb_spec max_per_chunk 0) as [|_]; [lia|].
  rewrite for_each_concat.
  - reflexivity.
  - intros [n b]. apply process_batch_appends.
  - intros [n b]. apply process_batch_ok.
Qed.

(** A call that raises: the whole batch gets the fallback label. *)
Lemma chunk_labels_api_raises mt n batch :
  service n {| system_content := Classifier.system_prompt VALID_EMOTIONS UNKNOWN_EMOTION_LABEL;
               user_content := Classifier.user_prompt batch;
               max_tokens := mt |} = ApiRaises ->
  chunk_labels mt n batch = repeat UNKNOWN_EMOTION_LABEL (length batch).
Proof.
  intro H. unfold Classifier.chunk_labels, Classifier.process_batch, try_except, bind, Classifier.call_api.
  rewrite H. unfold raise. simpl. now rewrite fill_unknown_run.
Qed.

(** Content that [json.loads] refuses, with either kind of exception: the
    whole batch gets the fallback label. *)
Lemma chunk_labels_not_loaded mt n batch content :
  service n {| system_content := Classifier.system_prompt VALID_EMOTIONS UNKNOWN_EMOTION_LABEL;
               user_content := Classifier.user_prompt batch;
               max_tokens := mt |} = ApiContent content ->
  (forall v, json_loads (str_strip content) <> Loaded v) ->
  chunk_labels mt n batch = repeat UNKNOWN_EMOTION_LABEL (length batch).
Proof.
  intros H Hl.
  unfold Classifier.chunk_labels, Classifier.process_batch, try_except, bind, Classifier.call_api, Classifier.loads.
  rewrite H. unfold ret at 1.
  destruct (json_loads (str_strip content)) as [v| |].
  - now elim (Hl v).
  - unfold raise. simpl. rewrite fill_unknown_run. reflexivity.
  - unfold raise. simpl. rewrite fill_unknown_run. reflexivity.
Qed.

Lemma chunk_labels_fails mt n batch :
  Classifier.chunk_call_fails VALID_EMOTIONS UNKNOWN_EMOTION_LABEL json_loads service mt n batch ->
  chunk_labels mt n batch = repeat UNKNOWN_EMOTION_LABEL (length batch).
Proof.
  unfold Classifier.chunk_call_fails. intro H.
  destruct (service n _) as [|content] eqn:E.
  - now apply chunk_labels_api_raises.
  - apply chunk_labels_not_loaded with (content := content); [assumption|].
    intros v Hv. congruence.
Qed.

End ClassifierFacts.
(* ------------------------------------------------------------------ *)
(** ** emotion_analysis.py: isolation of a failing batch               *)
(* ------------------------------------------------------------------ *)

Lemma map_fst_combine_seq {Y} (ys : list Y) (start : nat) :
  map fst (combine (seq start (length ys)) ys) = seq start (length ys).
Proof.
  revert start; induction ys as [|y ys IH]; intro start; simpl; [reflexivity|].
  now rewrite IH.
Qed.

Lemma batches_numbers (texts : list str) (step : nat) :
  map fst (Classifier.batches texts step)
  = seq 0 (length (Classifier.batches texts step)).
Proof.
  unfold Classifier.batches.
  set (starts := py_range_step (length texts) step).
  set (bs := map (fun start_idx => slice texts start_idx step) starts).
  assert (E : length starts = length bs) by (unfold bs; now rewrite length_map).
  rewrite E, map_fst_combine_seq.
  rewrite length_combine, length_seq. now rewrite Nat.min_id.
Qed.

Lemma in_firstn_seq (k start len x : nat) :
  In x (firstn k (seq start len)) -> x < start + k.
Proof.
  revert start len; induction k as [|k IH]; intros start [|len] H; simpl in H;
    try contradiction.
  destruct H as [<-|H]; [lia|]. apply IH in H. lia.
Qed.

Lemma batches_before (texts : list str) (step k : nat) b :
  In b (firstn k (Classifier.batches texts step)) -> fst b < k.
Proof.
  intro H. apply (in_map fst) in H.
  rewrite <- firstn_map, batches_numbers in H.
  apply in_firstn_seq in H. lia.
Qed.

Lemma batches_after (texts : list str) (step k : nat) b :
  In b (skipn (S k) (Classifier.batches texts step)) -> k < fst b.
Proof.
  intro H. apply (in_map fst) in H.
  rewrite <- skipn_map, batches_numbers, skipn_seq in H.
  apply in_seq in H. lia.
Qed.

(* ------------------------------------------------------------------ *)
(** ** emotion_analysis.py: the labels of a parsed batch               *)
(* ------------------------------------------------------------------ *)

Section Labels.
Context {U : Unicode}.
Variable VALID_EMOTIONS : list str.
Variable UNKNOWN_EMOTION_LABEL : str.
Variable json_loads : str -> loads_result.
Variable service : nat -> chat_request -> api_outcome.

Local Abbreviation process_batch :=
  (Classifier.process_batch VALID_EMOTIONS UNKNOWN_EMOTION_LABEL json_loads service).
Local Abbreviation chunk_labels :=
  (Classifier.chunk_labels VALID_EMOTIONS UNKNOWN_EMOTION_LABEL json_loads service).
Local Abbreviation classify_texts_in_bulk :=
  (Classifier.classify_texts_in_bulk VALID_EMOTIONS UNKNOWN_EMOTION_LABEL json_loads service).
Local Abbreviation extract_item :=
  (Classifier.extract_item VALID_EMOTIONS UNKNOWN_EMOTION_LABEL).
Local Abbreviation item_label :=
  (Classifier.item_label VALID_EMOTIONS UNKNOWN_EMOTION_LABEL).
Local Abbreviation in_valid_lower := (Classifier.in_valid_lower VALID_EMOTIONS).
Local Abbreviation label_ok :=
  (Classifier.label_ok VALID_EMOTIONS UNKNOWN_EMOTION_LABEL).

Lemma in_valid_lower_true (raw_emo : str) :
  in_valid_lower raw_emo = true ->
  exists emo, In emo VALID_EMOTIONS /\ raw_emo = str_lower emo.
Proof.
  unfold Classifier.in_valid_lower. intro H.
  apply existsb_exists in H as (x & Hx & Heq).
  apply in_map_iff in Hx as (emo & <- & Hemo).
  apply str_eqb_eq in Heq. eauto.
Qed.

Lemma item_label_ok entry : label_ok (item_label entry).
Proof.
  unfold Classifier.item_label, Classifier.label_ok.
  destruct (in_valid_lower _) eqn:E; [right|now left].
  now apply in_valid_lower_true.
Qed.

Lemma extract_item_only parsed_json i :
  appends_only label_ok (extract_item parsed_json i).
Proof.
  unfold Classifier.extract_item. apply appends_only_bind.
  - unfold Classifier.get_lower. destruct parsed_json; try apply appends_only_raise.
    destruct (dict_get members _) as [[]|];
      try apply appends_only_raise; apply appends_only_ret.
  - intro raw_emo. apply appends_only_results_append.
    unfold Classifier.label_ok. destruct (in_valid_lower raw_emo) eqn:E; [right|now left].
    now apply in_valid_lower_true.
Qed.

Lemma fill_unknown_only batch :
  appends_only label_ok (Classifier.fill_unknown UNKNOWN_EMOTION_LABEL batch).
Proof.
  apply appends_only_for_each. intro. apply appends_only_results_append. now left.
Qed.

Lemma process_batch_only mt n batch : appends_only label_ok (process_batch mt n batch).
Proof.
  unfold Classifier.process_batch. apply appends_only_try_except.
  - apply appends_only_bind.
    + unfold Classifier.call_api.
      destruct (service _ _); [apply appends_only_raise|apply appends_only_ret].
    + intro content. apply appends_only_bind.
      * apply appends_only_try_except.
        -- apply appends_only_bind.
           ++ unfold Classifier.loads. destruct (json_loads content);
                [apply appends_only_ret|apply appends_only_raise|apply appends_only_raise].
           ++ intro. apply appends_only_ret.
        -- apply appends_only_bind;
             [apply fill_unknown_only|intro; apply appends_only_ret].
      * intros [parsed_json|]; [|apply appends_only_ret].
        apply appends_only_for_each. intro. apply extract_item_only.
  - apply fill_unknown_only.
Qed.

Lemma chunk_labels_ok mt n batch : Forall label_ok (chunk_labels mt n batch).
Proof. apply (process_batch_only mt n batch []). constructor. Qed.

Lemma extract_item_run members (i : nat) (r : list str) entry :
  Classifier.entry_of members i = Some entry ->
  extract_item (JObject members) i r = (Ok tt, r ++ [item_label entry]).
Proof.
  unfold Classifier.entry_of, Classifier.extract_item, Classifier.get_lower,
    Classifier.item_label, bind, ret, results_append.
  destruct (dict_get members (str_of_nat (i + 1))) as [[]|];
    intro H; inversion H; reflexivity.
Qed.

(** The loop over the items of a batch whose entries are all absent or
    strings. *)
Lemma extract_loop_run members (len start : nat) (r : list str) :
  (forall i, start <= i < start + len -> Classifier.entry_of members i <> None) ->
  exists labels,
    for_each (seq start len) (extract_item (JObject members)) r = (Ok tt, r ++ labels) /\
    Forall2 (fun i label => exists entry, Classifier.entry_of members i = Some entry /\
                                          label = item_label entry)
            (seq start len) labels.
Proof.
  revert start r. induction len as [|len IH]; intros start r H.
  - exists []. split; [simpl; unfold ret; now rewrite app_nil_r|constructor].
  - destruct (Classifier.entry_of members start) as [entry|] eqn:E;
      [|elim (H start); [lia|exact E]].
    destruct (IH (S start) (r ++ [item_label entry])) as (labels & Hrun & Hall).
    { intros i Hi. apply H. lia. }
    exists (item_label entry :: labels). split.
    + cbn [seq for_each]. unfold bind at 1.
      rewrite (extract_item_run members start r entry E).
      rewrite Hrun. now rewrite <- app_assoc.
    + cbn [seq]. constructor; [eauto|exact Hall].
Qed.

Lemma chunk_labels_parsed_object mt n batch content members :
  service n {| system_content :=
                 Classifier.system_prompt VALID_EMOTIONS UNKNOWN_EMOTION_LABEL;
               user_content := Classifier.user_prompt batch;
               max_tokens := mt |} = ApiContent content ->
  json_loads (str_strip content) = Loaded (JObject members) ->
  (forall i, i < length batch -> Classifier.entry_of members i <> None) ->
  Forall2 (fun i label => exists entry, Classifier.entry_of members i = Some entry /\
                                        label = item_label entry)
          (seq 0 (length batch)) (chunk_labels mt n batch).
Proof.
  intros Hsvc Hload Hentries.
  destruct (extract_loop_run members (length batch) 0 []) as (labels & Hrun & Hall).
  { intros i Hi. apply Hentries. lia. }
  replace (chunk_labels mt n batch) with labels; [exact Hall|].
  unfold Classifier.chunk_labels, Classifier.process_batch, try_except, bind,
    Classifier.call_api, Classifier.loads.
  rewrite Hsvc. unfold ret at 1. rewrite Hload. unfold ret at 1 2. rewrite Hrun.
  reflexivity.
Qed.

Lemma classify_labels_ok texts max_per_chunk mt :
  match classify_texts_in_bulk texts max_per_chunk mt with
  | Some labels => Forall label_ok labels
  | None => max_per_chunk = 0%Z
  end.
Proof.
  destruct (Z.le_gt_cases 1 max_per_chunk) as [Hge|Hlt].
  - rewrite classify_concat by assumption.
    apply Forall_forall. intros label Hin.
    apply in_concat in Hin as (labels & Hl & Hin).
    apply in_map_iff in Hl as (b & <- & _).
    pose proof (chunk_labels_ok mt (fst b) (snd b)) as Hok.
    rewrite Forall_forall in Hok. now apply Hok.
  - unfold Classifier.classify_texts_in_bulk.
    destruct (Z.eqb_spec max_per_chunk 0) as [|Hne]; [assumption|].
    destruct (Z.ltb_spec max_per_chunk 0); [constructor|lia].
Qed.

(** C5 (as amended).  (a) Whatever the service answers and whatever the
    decoder makes of it, every label returned is the fallback label or the
    lowercase form of a configured label; the function returns a list for
    every chunk size but zero.  (b) For a batch whose response parses to an
    object in which the entry of every item is absent or a string, item [i]
    is looked up under the key [str(i+1)] and labelled [item_label]: the
    lowercased entry (the lowercased fallback label when the key is absent)
    if that is among the lowercased configured labels, the fallback label
    otherwise. *)
Theorem classify_labels_lowercased_valid_or_unknown :
  (forall texts max_per_chunk mt,
      match classify_texts_in_bulk texts max_per_chunk mt with
      | Some labels => Forall label_ok labels
      | None => max_per_chunk = 0%Z
      end) /\
  (forall mt n batch content members,
      service n {| system_content :=
                     Classifier.system_prompt VALID_EMOTIONS UNKNOWN_EMOTION_LABEL;
                   user_content := Classifier.user_prompt batch;
                   max_tokens := mt |} = ApiContent content ->
      json_loads (str_strip content) = Loaded (JObject members) ->
      (forall i, i < length batch -> Classifier.entry_of members i <> None) ->
      Forall2 (fun i label => exists entry, Classifier.entry_of members i = Some entry /\
                                            label = item_label entry)
              (seq 0 (length batch)) (chunk_labels mt n batch)).
Proof.
  split.
  - apply classify_labels_ok.
  - apply chunk_labels_parsed_object.
Qed.

End Labels.

(** The claim as first stated fails: with the configured label "Amor" and
    the answer "Amor", the label returned is "amor", which is neither a
    configured label nor the fallback label. *)
Lemma classify_label_not_in_configured_set :
  exists labels,
    Classifier.classify_texts_in_bulk (U := AsciiUnicode)
      [py "Amor"; py "Ira"] (py "Neutro") json_decode
      (fun _ _ => ApiContent (pyq "{'1': 'Amor'}"))
      [py "te quiero mucho"] 50 300 = Some labels /\
    ~ (forall label, In label labels ->
                     In label [py "Amor"; py "Ira"] \/ label = py "Neutro").
Proof.
  exists [py "amor"]. split; [reflexivity|].
  intro H. destruct (H (py "amor") (or_introl eq_refl)) as [[E|[E|[]]]|E];
    discriminate E.
Qed.

Lemma classify_labels_lowercased_witness :
  Forall2 (fun i label =>
             exists entry,
               Classifier.entry_of
                 [(py "1", JString (py "Amor")); (py "3", JString (py "alegre"))] i
               = Some entry /\
               label = Classifier.item_label (U := AsciiUnicode)
                         [py "Amor"; py "Ira"] (py "Neutro") entry)
          (seq 0 (length [py "te quiero"; py "que rabia"; py "estoy feliz"]))
          (Classifier.chunk_labels (U := AsciiUnicode) [py "Amor"; py "Ira"] (py "Neutro")
             json_decode
             (fun _ _ => ApiContent (pyq "{'1': 'Amor', '3': 'alegre'}"))
             300 0 [py "te quiero"; py "que rabia"; py "estoy feliz"]).
Proof.
  apply (proj2 (@classify_labels_lowercased_valid_or_unknown AsciiUnicode
                  [py "Amor"; py "Ira"] (py "Neutro") json_decode
                  (fun _ _ => ApiContent (pyq "{'1': 'Amor', '3': 'alegre'}")))
               300%Z 0 [py "te quiero"; py "que rabia"; py "estoy feliz"]
               (pyq "{'1': 'Amor', '3': 'alegre'}")
               [(py "1", JString (py "Amor")); (py "3", JString (py "alegre"))]).
  - reflexivity.
  - reflexivity.
  - intros [|[|[|i]]] Hi; simpl in Hi; try lia; discriminate.
Defined.
(* ------------------------------------------------------------------ *)
(** ** emotion_analysis.py: length of the result                       *)
(* ------------------------------------------------------------------ *)

Section ResultLength.
Context {U : Unicode}.
Variable VALID_EMOTIONS : list str.
Variable UNKNOWN_EMOTION_LABEL : str.
Variable json_loads : str -> loads_result.
Variable service : nat -> chat_request -> api_outcome.

Local Abbreviation chunk_labels :=
  (Classifier.chunk_labels VALID_EMOTIONS UNKNOWN_EMOTION_LABEL json_loads service).
Local Abbreviation classify_texts_in_bulk :=
  (Classifier.classify_texts_in_bulk VALID_EMOTIONS UNKNOWN_EMOTION_LABEL json_loads service).
Local Abbreviation extract_item :=
  (Classifier.extract_item VALID_EMOTIONS UNKNOWN_EMOTION_LABEL).
Local Abbreviation response_well_typed :=
  (Classifier.response_well_typed VALID_EMOTIONS UNKNOWN_EMOTION_LABEL json_loads service).

Lemma extract_loop_not_object parsed_json (len : nat) :
  (forall members, parsed_json <> JObject members) ->
  for_each (seq 0 len) (extract_item parsed_json) [] =
  match len with
  | O => (Ok tt, [])
  | S _ => (Raised AttributeError, [])
  end.
Proof.
  intro H. destruct len as [|len]; [reflexivity|].
  cbn [seq for_each]. unfold bind at 1.
  unfold Classifier.extract_item, Classifier.get_lower, bind, raise.
  destruct parsed_json; try reflexivity. now elim (H members).
Qed.

Lemma chunk_labels_length mt n batch :
  response_well_typed mt n batch ->
  length (chunk_labels mt n batch) = length batch.
Proof.
  unfold Classifier.response_well_typed. intro H.
  destruct (service n _) as [|content] eqn:Hs.
  - rewrite chunk_labels_api_raises by assumption. apply repeat_length.
  - destruct (json_loads (str_strip content)) as [v| |] eqn:Hl.
    + assert (Hrun : forall members, v = JObject members ->
                 (forall i, i < length batch -> Classifier.entry_of members i <> None) ->
                 length (chunk_labels mt n batch) = length batch).
      { intros members -> Hent.
        pose proof (chunk_labels_parsed_object VALID_EMOTIONS UNKNOWN_EMOTION_LABEL
                      json_loads service mt n batch content members Hs Hl Hent) as HF.
        apply Forall2_length in HF. now rewrite length_seq in HF. }
      assert (Hother : (forall members, v <> JObject members) ->
                 length (chunk_labels mt n batch) = length batch).
      { intro Hno.
        unfold Classifier.chunk_labels, Classifier.process_batch, try_except, bind,
          Classifier.call_api, Classifier.loads.
        rewrite Hs. unfold ret at 1. rewrite Hl. unfold ret at 1 2.
        rewrite (extract_loop_not_object v (length batch) Hno).
        destruct batch as [|x batch]; [reflexivity|].
        cbn [length is_Exception]. rewrite fill_unknown_run.
        cbn [snd app]. apply repeat_length. }
      destruct v; try (apply Hother; intros; discriminate).
      now apply Hrun with (members := members).
    + rewrite chunk_labels_not_loaded with (content := content);
        [apply repeat_length|assumption|congruence].
    + rewrite chunk_labels_not_loaded with (content := content);
        [apply repeat_length|assumption|congruence].
Qed.

(** When no response makes [.lower()] fail in the middle of a batch, there
    is one label per text. *)
Lemma classify_length_well_typed texts max_per_chunk mt :
  (1 <= max_per_chunk)%Z ->
  (forall n batch, response_well_typed mt n batch) ->
  exists labels,
    classify_texts_in_bulk texts max_per_chunk mt = Some labels /\
    length labels = length texts.
Proof.
  intros Hstep Hwt. rewrite classify_concat by assumption.
  eexists. split; [reflexivity|].
  assert (Hpos : 0 < Z.to_nat max_per_chunk) by lia.
  rewrite <- (batches_concat texts (Z.to_nat max_per_chunk) Hpos) at 2.
  induction (Classifier.batches texts (Z.to_nat max_per_chunk)) as [|b bs IH];
    [reflexivity|].
  cbn [map concat]. rewrite !length_app, IH. f_equal. now apply chunk_labels_length.
Qed.

End ResultLength.

(** C1 (divergence).  One batch of two texts; the service answers with a
    JSON object whose second entry is a number.  The label of the first text
    is appended, [.lower()] then fails on the number, and the handler appends
    one fallback label per text of the batch: three labels for two texts. *)
Theorem classify_returns_more_labels_than_texts :
  Classifier.classify_texts_in_bulk (U := AsciiUnicode) demo_valid demo_unknown
    json_decode (fun _ _ => ApiContent (pyq "{'1': 'amor', '2': 5}"))
    [py "te quiero"; py "odio esto"] 50 300
  = Some [py "amor"; py "Neutro"; py "Neutro"].
Proof. reflexivity. Qed.
(* ------------------------------------------------------------------ *)
(** ** emotion_analysis.py: isolation of a failing batch               *)
(* ------------------------------------------------------------------ *)

Lemma firstn_S_nth {X} (l : list X) (k : nat) (x : X) :
  nth_error l k = Some x -> firstn (S k) l = firstn k l ++ [x].
Proof.
  revert k. induction l as [|y l IH]; intros [|k] H; cbn in *; try discriminate.
  - now injection H as ->.
  - f_equal. now apply IH.
Qed.

(** The batches before the [k]-th one, when there is a [k]-th one. *)
Lemma firstn_batches (texts : list str) (step k : nat) :
  0 < step -> k * step < length texts ->
  firstn k (Classifier.batches texts step)
  = map (fun i => (i, slice texts (i * step) step)) (seq 0 k).
Proof.
  intro Hs. induction k as [|k IH]; intro Hk; [reflexivity|].
  rewrite (firstn_S_nth _ k (k, slice texts (k * step) step)).
  - rewrite IH by lia. now rewrite seq_S, map_app.
  - apply batches_nth; [assumption|lia].
Qed.

Lemma slice_full_length {X} (xs : list X) (start n : nat) :
  start + n <= length xs -> length (slice xs start n) = n.
Proof.
  intro H. unfold slice. rewrite length_firstn, length_skipn. lia.
Qed.

Section FaultIsolation.
Context {U : Unicode}.
Variable VALID_EMOTIONS : list str.
Variable UNKNOWN_EMOTION_LABEL : str.
Variable json_loads : str -> loads_result.

Local Abbreviation chunk_labels :=
  (Classifier.chunk_labels VALID_EMOTIONS UNKNOWN_EMOTION_LABEL json_loads).
Local Abbreviation classify_texts_in_bulk :=
  (Classifier.classify_texts_in_bulk VALID_EMOTIONS UNKNOWN_EMOTION_LABEL json_loads).
Local Abbreviation chunk_call_fails :=
  (Classifier.chunk_call_fails VALID_EMOTIONS UNKNOWN_EMOTION_LABEL json_loads).
Local Abbreviation response_well_typed :=
  (Classifier.response_well_typed VALID_EMOTIONS UNKNOWN_EMOTION_LABEL json_loads).

(** What a batch contributes depends on the service only through its answer
    to that batch's own call. *)
Lemma chunk_labels_local (service1 service2 : nat -> chat_request -> api_outcome)
      mt n batch :
  (forall req, service1 n req = service2 n req) ->
  chunk_labels service1 mt n batch = chunk_labels service2 mt n batch.
Proof.
  intro H. unfold Classifier.chunk_labels, Classifier.process_batch, Classifier.call_api.
  now rewrite H.
Qed.

(** The labels of the batches before the [k]-th one take one place per
    text when the responses to these batches are well typed. *)
Lemma labels_before_length (service : nat -> chat_request -> api_outcome)
      (texts : list str) (step : nat) mt (k : nat) :
  0 < step -> k * step < length texts ->
  (forall i, i < k -> response_well_typed service mt i (slice texts (i * step) step)) ->
  length (concat (map (fun b => chunk_labels service mt (fst b) (snd b))
                      (firstn k (Classifier.batches texts step))))
  = k * step.
Proof.
  intros Hs Hk Hwt. rewrite firstn_batches by assumption.
  assert (Hk' : k * step <= length texts) by lia. clear Hk.
  induction k as [|k IH]; [reflexivity|].
  rewrite seq_S, !map_app, concat_app, length_app. cbn [map concat fst snd plus].
  rewrite IH by (try lia; intros i Hi; apply Hwt; lia).
  rewrite app_nil_r, chunk_labels_length by (apply Hwt; lia).
  rewrite slice_full_length; lia.
Qed.

Lemma classify_with_failing_chunk
  (service service' : nat -> chat_request -> api_outcome)
  (texts : list str) (max_per_chunk mt : Z) (k : nat) :
  (1 <= max_per_chunk)%Z ->
  k * Z.to_nat max_per_chunk < length texts ->
  (forall n req, n <> k -> service' n req = service n req) ->
  chunk_call_fails service' mt k
    (slice texts (k * Z.to_nat max_per_chunk) (Z.to_nat max_per_chunk)) ->
  classify_texts_in_bulk service' texts max_per_chunk mt =
  Some (concat (map (fun b => chunk_labels service mt (fst b) (snd b))
                    (firstn k (Classifier.batches texts (Z.to_nat max_per_chunk))))
        ++ repeat UNKNOWN_EMOTION_LABEL
             (length (slice texts (k * Z.to_nat max_per_chunk) (Z.to_nat max_per_chunk)))
        ++ concat (map (fun b => chunk_labels service mt (fst b) (snd b))
                       (skipn (S k) (Classifier.batches texts (Z.to_nat max_per_chunk))))).
Proof.
  intros Hstep Hk Hsame Hfail.
  set (step := Z.to_nat max_per_chunk) in *.
  assert (Hpos : 0 < step) by (unfold step; lia).
  rewrite classify_concat by assumption. fold step.
  pose proof (batches_nth texts step k Hpos Hk) as Hnth.
  rewrite (nth_error_split_at _ _ _ Hnth) at 1.
  rewrite map_app, concat_app. simpl.
  rewrite (chunk_labels_fails _ _ _ _ _ _ _ Hfail).
  f_equal. f_equal; [|f_equal]; f_equal; apply map_ext_in; intros b Hb;
    apply chunk_labels_local; intro req; apply Hsame.
  - apply batches_before in Hb. lia.
  - apply batches_after in Hb. lia.
Qed.

(** Fault isolation between two runs.  Take any behaviour [service] of the
    remote endpoint and let [service'] differ from it on call [k] only, where
    it raises or returns content that is not valid JSON.  Then the run with
    [service'] appends, for batch [k], the fallback label once per item and
    nothing else; what every other batch appends is exactly what it appends
    from its own response under [service]; and the batches after [k] are
    still processed.  When the responses to the batches before [k] are well
    typed, the labels of batch [k] stand at the places of its texts: text
    number [k * max_per_chunk + j] receives the fallback label. *)
Theorem chunk_fault_isolation
  (service service' : nat -> chat_request -> api_outcome)
  (texts : list str) (max_per_chunk mt : Z) (k : nat) :
  (1 <= max_per_chunk)%Z ->
  k * Z.to_nat max_per_chunk < length texts ->
  (forall n req, n <> k -> service' n req = service n req) ->
  chunk_call_fails service' mt k
    (slice texts (k * Z.to_nat max_per_chunk) (Z.to_nat max_per_chunk)) ->
  exists labels,
    classify_texts_in_bulk service' texts max_per_chunk mt = Some labels
    /\ labels =
       concat (map (fun b => chunk_labels service mt (fst b) (snd b))
                   (firstn k (Classifier.batches texts (Z.to_nat max_per_chunk))))
       ++ repeat UNKNOWN_EMOTION_LABEL
            (length (slice texts (k * Z.to_nat max_per_chunk) (Z.to_nat max_per_chunk)))
       ++ concat (map (fun b => chunk_labels service mt (fst b) (snd b))
                      (skipn (S k) (Classifier.batches texts (Z.to_nat max_per_chunk))))
    /\ ((forall i, i < k ->
           response_well_typed service mt i
             (slice texts (i * Z.to_nat max_per_chunk) (Z.to_nat max_per_chunk))) ->
        forall j,
          j < length (slice texts (k * Z.to_nat max_per_chunk) (Z.to_nat max_per_chunk)) ->
          nth_error labels (k * Z.to_nat max_per_chunk + j) = Some UNKNOWN_EMOTION_LABEL).
Proof.
  intros Hstep Hk Hsame Hfail.
  eexists. split;
    [exact (classify_with_failing_chunk service service' texts max_per_chunk mt k
              Hstep Hk Hsame Hfail)|].
  split; [reflexivity|].
  intros Hwt j Hj.
  assert (Hpos : 0 < Z.to_nat max_per_chunk) by lia.
  pose proof (labels_before_length service texts (Z.to_nat max_per_chunk) mt k
                Hpos Hk Hwt) as Hlen.
  rewrite nth_error_app2 by lia. rewrite Hlen.
  replace (k * Z.to_nat max_per_chunk + j - k * Z.to_nat max_per_chunk) with j by lia.
  rewrite nth_error_app1 by now rewrite repeat_length.
  now apply nth_error_repeat.
Qed.

End FaultIsolation.

Lemma chunk_fault_isolation_witness :
  exists labels,
    Classifier.classify_texts_in_bulk (U := AsciiUnicode) demo_valid demo_unknown
      json_decode demo_service_failing demo_texts 2 300 = Some labels
    /\ labels = [py "amor"; py "ira"; py "Neutro"; py "Neutro"; py "amor"]
    /\ nth_error labels 2 = Some (py "Neutro")
    /\ nth_error labels 3 = Some (py "Neutro").
Proof.
  destruct (@chunk_fault_isolation AsciiUnicode demo_valid demo_unknown json_decode
              demo_service demo_service_failing demo_texts 2 300 1)
    as (labels & Hrun & Hlabels & Hplaces).
  - lia.
  - simpl. lia.
  - intros [|[|n]] req Hn; try reflexivity. now elim Hn.
  - exact I.
  - exists labels. split; [exact Hrun|]. split; [exact Hlabels|].
    assert (Hwt : forall i, i < 1 ->
              Classifier.response_well_typed demo_valid demo_unknown
                json_decode demo_service 300 i
                (slice demo_texts (i * Z.to_nat 2) (Z.to_nat 2))).
    { intros [|i] Hi; [|lia].
      change (forall j, j < 2 ->
                Classifier.entry_of
                  [(py "1", JString (py "amor")); (py "2", JString (py "ira"))] j <> None).
      intros [|[|j]] Hj H; try lia; vm_compute in H; discriminate H. }
    split; [apply (Hplaces Hwt 0)|apply (Hplaces Hwt 1)]; vm_compute; lia.
Defined.

(** C3 (divergence).  Three batches of two texts.  The first answer holds a
    number where the label of its second text is expected, the second
    answer is as expected, the third call raises.  The first batch leaves
    three labels for its two texts, so every later label stands one place
    too far: the result has seven labels for six texts, text number 2, of
    the second batch, stands against the fallback label that the first
    batch appended although its own answer says "ira", and text number 4,
    of the batch whose call raised, stands against "tristeza", the label of
    text number 3. *)
Theorem failing_chunk_labels_misplaced :
  Classifier.classify_texts_in_bulk (U := AsciiUnicode) demo_valid demo_unknown
    json_decode demo_service_number demo_texts6 2 300
  = Some [py "amor"; py "Neutro"; py "Neutro"; py "ira"; py "tristeza";
          py "Neutro"; py "Neutro"].
Proof. vm_compute. reflexivity. Qed.

(* ------------------------------------------------------------------ *)
(** ** emotion_analysis.py: batching, text order and response shapes   *)
(* ------------------------------------------------------------------ *)

Lemma batches_length (texts : list str) (step : nat) :
  length (Classifier.batches texts step) = (length texts + step - 1) / step.
Proof.
  unfold Classifier.batches, py_range_step.
  now rewrite length_combine, !length_map, !length_seq, Nat.min_id.
Qed.

Lemma batches_nth_inv (texts : list str) (step k : nat) b :
  0 < step ->
  nth_error (Classifier.batches texts step) k = Some b ->
  k * step < length texts /\ b = (k, slice texts (k * step) step).
Proof.
  intros Hs Hb.
  assert (Hk : k < (length texts + step - 1) / step).
  { rewrite <- batches_length. apply nth_error_Some. congruence. }
  assert (Hlt : k * step < length texts).
  { destruct (Nat.lt_ge_cases (k * step) (length texts)) as [|Hge]; [assumption|].
    exfalso.
    assert ((length texts + step - 1) / step <= k); [|lia].
    apply Nat.lt_succ_r, Nat.Div0.div_lt_upper_bound; lia. }
  split; [assumption|].
  rewrite (batches_nth texts step k Hs Hlt) in Hb. congruence.
Qed.

Lemma slice_length {X} (xs : list X) (start n : nat) :
  length (slice xs start n) = Nat.min n (length xs - start).
Proof. unfold slice. now rewrite length_firstn, length_skipn. Qed.

(** X1.  The texts are cut into consecutive batches: put end to end the
    batches give back [texts]; there are ceil(len(texts) / max_per_chunk) of
    them, numbered from 0 in the order of their calls; none is empty, none
    holds more than [max_per_chunk] texts, and all but the last hold exactly
    [max_per_chunk]. *)
Theorem batches_partition_texts (texts : list str) (max_per_chunk : nat) :
  0 < max_per_chunk ->
  concat (map snd (Classifier.batches texts max_per_chunk)) = texts
  /\ length (Classifier.batches texts max_per_chunk)
     = (length texts + max_per_chunk - 1) / max_per_chunk
  /\ (forall k b,
        nth_error (Classifier.batches texts max_per_chunk) k = Some b ->
        fst b = k
        /\ snd b = slice texts (k * max_per_chunk) max_per_chunk
        /\ 1 <= length (snd b) <= max_per_chunk
        /\ (S k < length (Classifier.batches texts max_per_chunk) ->
            length (snd b) = max_per_chunk)).
Proof.
  intro Hs. split; [now apply batches_concat|]. split; [apply batches_length|].
  intros k b Hb.
  destruct (batches_nth_inv texts max_per_chunk k b Hs Hb) as [Hlt ->].
  cbn [fst snd]. rewrite slice_length.
  split; [reflexivity|]. split; [reflexivity|]. split; [lia|].
  intro Hnext.
  assert (Hk1 : nth_error (Classifier.batches texts max_per_chunk) (S k) <> None)
    by now apply nth_error_Some.
  destruct (nth_error (Classifier.batches texts max_per_chunk) (S k)) as [b'|] eqn:Hb';
    [|congruence].
  apply batches_nth_inv in Hb' as [Hlt' _]; [|assumption]. simpl in Hlt'. lia.
Qed.

Lemma batches_partition_texts_witness :
  map snd (Classifier.batches demo_texts 2)
  = [[py "te quiero"; py "odio esto"]; [py "estoy triste"; py "que rabia"]; [py "mi amor"]]
  /\ concat (map snd (Classifier.batches demo_texts 2)) = demo_texts
  /\ length (Classifier.batches demo_texts 2) = 3.
Proof.
  split; [reflexivity|].
  destruct (batches_partition_texts demo_texts 2) as (Hc & Hl & _); [lia|].
  split; [exact Hc|exact Hl].
Defined.

Lemma nth_error_concat_chunk {X} (before : list (list X)) (chunk : list X)
      (after : list (list X)) (j : nat) :
  j < length chunk ->
  nth_error (concat (before ++ chunk :: after)) (length (concat before) + j)
  = nth_error chunk j.
Proof.
  intro Hj. rewrite concat_app. cbn [concat].
  rewrite nth_error_app2 by lia.
  replace (length (concat before) + j - length (concat before)) with j by lia.
  now rewrite nth_error_app1.
Qed.

Lemma for_each_ext {X} (xs : list X) (body1 body2 : X -> M unit) :
  (forall x, In x xs -> body1 x = body2 x) ->
  for_each xs body1 = for_each xs body2.
Proof.
  induction xs as [|x xs IH]; intro H; [reflexivity|].
  cbn [for_each]. rewrite (H x (or_introl eq_refl)), IH; [reflexivity|].
  intros y Hy. apply H. now right.
Qed.

Section TextOrder.
Context {U : Unicode}.
Variable VALID_EMOTIONS : list str.
Variable UNKNOWN_EMOTION_LABEL : str.
Variable json_loads : str -> loads_result.

Local Abbreviation chunk_labels :=
  (Classifier.chunk_labels VALID_EMOTIONS UNKNOWN_EMOTION_LABEL json_loads).
Local Abbreviation classify_texts_in_bulk :=
  (Classifier.classify_texts_in_bulk VALID_EMOTIONS UNKNOWN_EMOTION_LABEL json_loads).
Local Abbreviation response_well_typed :=
  (Classifier.response_well_typed VALID_EMOTIONS UNKNOWN_EMOTION_LABEL json_loads).
Local Abbreviation item_label :=
  (Classifier.item_label VALID_EMOTIONS UNKNOWN_EMOTION_LABEL).
Local Abbreviation request batch mt :=
  {| system_content := Classifier.system_prompt VALID_EMOTIONS UNKNOWN_EMOTION_LABEL;
     user_content := Classifier.user_prompt batch;
     max_tokens := mt |}.

(** X2.  When no response makes [.lower()] fail in the middle of a batch,
    the result has one label per text and the labels stand in the order of
    the texts: the label of text number [i] is the one obtained for item
    [i mod max_per_chunk] of batch [i / max_per_chunk].  When the call of that
    batch returned a JSON object, it is the label computed from the entry of
    the object under the key [str(i mod max_per_chunk + 1)]. *)
Theorem classify_labels_in_text_order
  (service : nat -> chat_request -> api_outcome)
  (texts : list str) (max_per_chunk mt : Z) :
  (1 <= max_per_chunk)%Z ->
  (forall n batch, response_well_typed service mt n batch) ->
  exists labels,
    classify_texts_in_bulk service texts max_per_chunk mt = Some labels
    /\ length labels = length texts
    /\ forall i, i < length texts ->
         let step := Z.to_nat max_per_chunk in
         let batch := slice texts (i / step * step) step in
         nth_error labels i
         = nth_error (chunk_labels service mt (i / step) batch) (i mod step)
         /\ forall content members,
              service (i / step) (request batch mt) = ApiContent content ->
              json_loads (str_strip content) = Loaded (JObject members) ->
              exists entry,
                Classifier.entry_of members (i mod step) = Some entry
                /\ nth_error labels i = Some (item_label entry).
Proof.
  intros Hstep Hwt.
  destruct (classify_length_well_typed VALID_EMOTIONS UNKNOWN_EMOTION_LABEL json_loads
              service texts max_per_chunk mt Hstep Hwt) as (labels & Hrun & Hlen).
  exists labels. split; [exact Hrun|]. split; [exact Hlen|].
  intros i Hi step batch.
  assert (Hpos : 0 < step) by (unfold step; lia).
  assert (Hk : i / step * step < length texts).
  { pose proof (Nat.Div0.mul_div_le i step). lia. }
  assert (Hj : i mod step < length batch).
  { unfold batch. rewrite slice_length.
    pose proof (Nat.mod_upper_bound i step ltac:(lia)).
    pose proof (Nat.div_mod_eq i step). lia. }
  assert (Hpos_i : nth_error labels i
                   = nth_error (chunk_labels service mt (i / step) batch) (i mod step)).
  { rewrite classify_concat in Hrun by assumption. injection Hrun as <-.
    fold step.
    pose proof (batches_nth texts step (i / step) Hpos Hk) as Hnth.
    set (f := fun b : nat * list str => chunk_labels service mt (fst b) (snd b)).
    assert (Hsplit : map f (Classifier.batches texts step)
                     = map f (firstn (i / step) (Classifier.batches texts step))
                       ++ chunk_labels service mt (i / step) batch
                       :: map f (skipn (S (i / step)) (Classifier.batches texts step))).
    { rewrite (nth_error_split_at _ _ _ Hnth) at 1. now rewrite map_app. }
    rewrite Hsplit.
    assert (Hi_eq : i = length (concat (map f (firstn (i / step)
                                                  (Classifier.batches texts step))))
                        + i mod step).
    { unfold f. rewrite labels_before_length; try assumption.
      - pose proof (Nat.div_mod_eq i step). lia.
      - intros; apply Hwt. }
    assert (Hat : forall m,
               m = length (concat (map f (firstn (i / step)
                                             (Classifier.batches texts step))))
                   + i mod step ->
               nth_error
                 (concat (map f (firstn (i / step) (Classifier.batches texts step))
                          ++ chunk_labels service mt (i / step) batch
                          :: map f (skipn (S (i / step)) (Classifier.batches texts step))))
                 m
               = nth_error (chunk_labels service mt (i / step) batch) (i mod step)).
    { intros m ->. apply nth_error_concat_chunk.
      rewrite (chunk_labels_length VALID_EMOTIONS UNKNOWN_EMOTION_LABEL json_loads service)
        by apply Hwt.
      exact Hj. }
    apply Hat, Hi_eq. }
  split; [exact Hpos_i|].
  intros content members Hs Hl.
  pose proof (Hwt (i / step) batch) as Hw.
  unfold Classifier.response_well_typed in Hw. rewrite Hs, Hl in Hw.
  pose proof (chunk_labels_parsed_object VALID_EMOTIONS UNKNOWN_EMOTION_LABEL json_loads
                service mt (i / step) batch content members Hs Hl Hw) as HF.
  rewrite Hpos_i.
  assert (Hgen : forall (idx : list nat) (ls : list str) j,
             Forall2 (fun i label =>
                        exists entry, Classifier.entry_of members i = Some entry /\
                                      label = item_label entry) idx ls ->
             forall i0, nth_error idx j = Some i0 ->
             exists entry, Classifier.entry_of members i0 = Some entry
                           /\ nth_error ls j = Some (item_label entry)).
  { intros idx ls j HF2. revert j.
    induction HF2 as [|x l xs ls0 (entry & He & ->) _ IH]; intros [|j] i0 H0;
      try discriminate.
    - injection H0 as <-. now exists entry.
    - now apply IH. }
  apply (Hgen _ _ _ HF). rewrite nth_error_seq_lt by assumption. reflexivity.
Qed.

(** X3.  A call whose content is valid JSON but not an object (a list, a
    string, a number, [true], [false] or [null]), or whose decoding raises
    something else than [JSONDecodeError], contributes the fallback label
    exactly once per text of its batch: [.get] fails before anything is
    appended, and the outer handler fills the batch. *)
Theorem non_object_response_fills_batch
  (service : nat -> chat_request -> api_outcome) mt n (batch : list str) content :
  service n (request batch mt) = ApiContent content ->
  (forall members, json_loads (str_strip content) <> Loaded (JObject members)) ->
  chunk_labels service mt n batch = repeat UNKNOWN_EMOTION_LABEL (length batch).
Proof.
  intros Hs Hno.
  destruct (json_loads (str_strip content)) as [v| |] eqn:Hl.
  - unfold Classifier.chunk_labels, Classifier.process_batch, try_except, bind,
      Classifier.call_api, Classifier.loads.
    rewrite Hs. unfold ret at 1. rewrite Hl. unfold ret at 1 2.
    rewrite (extract_loop_not_object VALID_EMOTIONS UNKNOWN_EMOTION_LABEL v (length batch)).
    + destruct batch as [|x batch]; [reflexivity|].
      cbn [length is_Exception]. now rewrite fill_unknown_run.
    + intros members ->. now apply (Hno members).
  - apply chunk_labels_not_loaded with (content := content); [assumption|congruence].
  - apply chunk_labels_not_loaded with (content := content); [assumption|congruence].
Qed.

(** X5.  What a batch contributes depends on the decoded object only
    through its entries under the keys "1", ..., [str(len(batch))]: two
    responses whose objects agree on these keys give the same labels,
    whatever else the objects hold. *)
Theorem chunk_labels_read_item_keys_only
  (service1 service2 : nat -> chat_request -> api_outcome) mt n (batch : list str)
  content1 content2 members1 members2 :
  service1 n (request batch mt) = ApiContent content1 ->
  service2 n (request batch mt) = ApiContent content2 ->
  json_loads (str_strip content1) = Loaded (JObject members1) ->
  json_loads (str_strip content2) = Loaded (JObject members2) ->
  (forall i, i < length batch ->
             dict_get members1 (str_of_nat (i + 1)) = dict_get members2 (str_of_nat (i + 1))) ->
  chunk_labels service1 mt n batch = chunk_labels service2 mt n batch.
Proof.
  intros Hs1 Hs2 Hl1 Hl2 Hsame.
  unfold Classifier.chunk_labels, Classifier.process_batch, Classifier.call_api,
    Classifier.loads.
  rewrite Hs1, Hs2. unfold try_except, bind, ret. rewrite Hl1, Hl2.
  rewrite (for_each_ext (seq 0 (length batch))
             (Classifier.extract_item VALID_EMOTIONS UNKNOWN_EMOTION_LABEL (JObject members1))
             (Classifier.extract_item VALID_EMOTIONS UNKNOWN_EMOTION_LABEL (JObject members2)));
    [reflexivity|].
  intros i Hi. apply in_seq in Hi.
  unfold Classifier.extract_item, Classifier.get_lower.
  rewrite Hsame by lia. reflexivity.
Qed.

(** X4.  The degenerate calls.  With [max_per_chunk = 0] the call raises
    ([range] refuses a zero step); with a negative [max_per_chunk] the loop
    body never runs and the result is empty whatever the texts; with no text
    the result is empty and no answer of the service is read. *)
Theorem classify_degenerate_calls
  (service : nat -> chat_request -> api_outcome) (texts : list str) (max_per_chunk mt : Z) :
  (max_per_chunk = 0%Z -> classify_texts_in_bulk service texts max_per_chunk mt = None)
  /\ ((max_per_chunk < 0)%Z ->
      classify_texts_in_bulk service texts max_per_chunk mt = Some [])
  /\ ((0 < max_per_chunk)%Z ->
      classify_texts_in_bulk service [] max_per_chunk mt = Some [])
  /\ (classify_texts_in_bulk service texts max_per_chunk mt = None ->
      max_per_chunk = 0%Z).
Proof.
  unfold Classifier.classify_texts_in_bulk. repeat split.
  - now intros ->.
  - intro H. destruct (Z.eqb_spec max_per_chunk 0); [lia|].
    destruct (Z.ltb_spec max_per_chunk 0); [reflexivity|lia].
  - intro H. destruct (Z.eqb_spec max_per_chunk 0); [lia|].
    destruct (Z.ltb_spec max_per_chunk 0); [lia|].
    unfold Classifier.batches, py_range_step. cbn [length plus].
    rewrite Nat.div_small by lia. reflexivity.
  - pose proof (classify_labels_ok VALID_EMOTIONS UNKNOWN_EMOTION_LABEL json_loads
                  service texts max_per_chunk mt) as H.
    unfold Classifier.classify_texts_in_bulk in H. intro Hn. now rewrite Hn in H.
Qed.

End TextOrder.

Lemma entry_of_strings (members : list (str * json)) (i : nat) :
  Forall (fun kv => exists s, snd kv = JString s) members ->
  Classifier.entry_of members i <> None.
Proof.
  intro HF. unfold Classifier.entry_of.
  assert (H : forall key v, dict_get members key = Some v -> exists s, v = JString s).
  { induction HF as [|[k v] tl (s & Hs) _ IH]; intros key w Hw; [discriminate|].
    cbn [dict_get] in Hw. destruct (dict_get tl key) as [v'|] eqn:E.
    - injection Hw as <-. now apply (IH key).
    - destruct (str_eqb k key); [|discriminate]. injection Hw as <-. now exists s. }
  destruct (dict_get members (str_of_nat (i + 1))) as [v|] eqn:E; [|discriminate].
  destruct (H _ _ E) as (s & ->). discriminate.
Qed.

Lemma demo_service_well_typed (mt : Z) (n : nat) (batch : list str) :
  Classifier.response_well_typed demo_valid demo_unknown json_decode
    demo_service mt n batch.
Proof.
  unfold Classifier.response_well_typed.
  destruct n as [|[|n]]; cbn [demo_service];
    match goal with
    | |- match json_decode ?c with _ => _ end =>
      let v := eval vm_compute in (json_decode c) in
      change (json_decode c) with v
    end;
    intros i _; apply entry_of_strings; repeat constructor; eexists; reflexivity.
Qed.

Lemma classify_labels_in_text_order_witness :
  exists labels,
    Classifier.classify_texts_in_bulk (U := AsciiUnicode) demo_valid demo_unknown
      json_decode demo_service demo_texts 2 300 = Some labels
    /\ length labels = length demo_texts
    /\ nth_error labels 3 = Some (py "ira").
Proof.
  destruct (@classify_labels_in_text_order AsciiUnicode demo_valid demo_unknown json_decode
              demo_service demo_texts 2 300)
    as (labels & Hrun & Hlen & Hpos).
  - lia.
  - intros n batch. apply demo_service_well_typed.
  - exists labels. split; [exact Hrun|]. split; [exact Hlen|].
    assert (H3 : 3 < length demo_texts) by (simpl; lia).
    destruct (Hpos 3 H3) as [_ Hobj].
    destruct (Hobj (pyq "{'1': 'tristeza', '2': 'IRA'}")
                   [(py "1", JString (py "tristeza")); (py "2", JString (py "IRA"))]
                   eq_refl eq_refl) as (entry & He & Hn).
    vm_compute in He. injection He as <-. exact Hn.
Defined.

Lemma non_object_response_fills_batch_witness :
  Classifier.chunk_labels (U := AsciiUnicode) demo_valid demo_unknown json_decode
    (fun _ _ => ApiContent (pyq "['amor', 'ira']")) 300 0 [py "te quiero"; py "odio esto"]
  = [py "Neutro"; py "Neutro"].
Proof.
  apply (@non_object_response_fills_batch AsciiUnicode demo_valid demo_unknown json_decode
           (fun _ _ => ApiContent (pyq "['amor', 'ira']")) 300 0
           [py "te quiero"; py "odio esto"] (pyq "['amor', 'ira']") eq_refl).
  intros members H. vm_compute in H. discriminate H.
Defined.

Lemma chunk_labels_read_item_keys_only_witness :
  Classifier.chunk_labels (U := AsciiUnicode) demo_valid demo_unknown json_decode
    (fun _ _ => ApiContent (pyq "{'1': 'amor', '2': 'ira'}"))
    300 0 [py "te quiero"; py "odio esto"]
  = Classifier.chunk_labels (U := AsciiUnicode) demo_valid demo_unknown json_decode
      (fun _ _ => ApiContent (pyq "{'0': 'x', '2': 'ira', '3': 7, '1': 'amor'}"))
      300 0 [py "te quiero"; py "odio esto"].
Proof.
  apply (@chunk_labels_read_item_keys_only AsciiUnicode demo_valid demo_unknown json_decode
           (fun _ _ => ApiContent (pyq "{'1': 'amor', '2': 'ira'}"))
           (fun _ _ => ApiContent (pyq "{'0': 'x', '2': 'ira', '3': 7, '1': 'amor'}"))
           300 0 [py "te quiero"; py "odio esto"]
           (pyq "{'1': 'amor', '2': 'ira'}")
           (pyq "{'0': 'x', '2': 'ira', '3': 7, '1': 'amor'}")
           [(py "1", JString (py "amor")); (py "2", JString (py "ira"))]
           [(py "0", JString (py "x")); (py "2", JString (py "ira"));
            (py "3", JNumber (py "7")); (py "1", JString (py "amor"))]
           eq_refl eq_refl eq_refl eq_refl).
  intros [|[|i]] Hi; try reflexivity. simpl in Hi. lia.
Defined.

(** The two errors of [json.loads] that are not decode errors, for the
    decoder of the examples: an integer of 4301 digits, and 991 arrays
    inside one another.  One digit, or one array, less and the content is
    decoded. *)
Lemma json_decode_other_errors :
  json_decode (repeat 49%N 4301) = LoadsOtherError
  /\ json_decode (repeat 49%N 4300) = Loaded (JNumber (repeat 49%N 4300))
  /\ json_decode (repeat 49%N 4301 ++ py ".5") = Loaded (JNumber (repeat 49%N 4301 ++ py ".5"))
  /\ json_decode (repeat 91%N 991 ++ repeat 93%N 991) = LoadsOtherError
  /\ json_decode (repeat 91%N 990 ++ repeat 93%N 990) <> LoadsOtherError
  /\ json_decode (repeat 91%N 990 ++ repeat 93%N 990) <> LoadsDecodeError.
Proof. repeat split; vm_compute; first [reflexivity | discriminate]. Qed.

(* ------------------------------------------------------------------ *)
(** ** Lists of characters                                             *)
(* ------------------------------------------------------------------ *)

Lemma takewhile_dropwhile (p : codepoint -> bool) (s : str) :
  takewhile p s ++ dropwhile p s = s.
Proof.
  induction s as [|c s IH]; simpl; [reflexivity|].
  destruct (p c); simpl; [now rewrite IH|reflexivity].
Qed.

Lemma dropwhile_length (p : codepoint -> bool) (s : str) :
  length (dropwhile p s) = length s - length (takewhile p s).
Proof.
  rewrite <- (takewhile_dropwhile p s) at 2. rewrite length_app. lia.
Qed.

Lemma skipn_takewhile (p : codepoint -> bool) (s : str) :
  skipn (length (takewhile p s)) s = dropwhile p s.
Proof.
  induction s as [|c s IH]; simpl; [reflexivity|].
  destruct (p c); simpl; [exact IH|reflexivity].
Qed.

Lemma firstn_takewhile (p : codepoint -> bool) (s : str) :
  firstn (length (takewhile p s)) s = takewhile p s.
Proof.
  induction s as [|c s IH]; simpl; [reflexivity|].
  destruct (p c); simpl; [now rewrite IH|reflexivity].
Qed.

Lemma dropwhile_head (p : codepoint -> bool) (s : str) c tl :
  dropwhile p s = c :: tl -> p c = false.
Proof.
  induction s as [|x s IH]; simpl; [discriminate|].
  destruct (p x) eqn:E; [exact IH|]. intro H. injection H as -> _. exact E.
Qed.

Lemma Forall_skipn_str (P : codepoint -> Prop) (n : nat) (s : str) :
  Forall P s -> Forall P (skipn n s).
Proof.
  revert s; induction n as [|n IH]; intros [|c s] H; simpl; auto.
  inversion H; auto.
Qed.

Lemma lstrip_dropwhile (s : str) : lstrip s = dropwhile is_space s.
Proof. induction s as [|c s IH]; simpl; [reflexivity|]. now rewrite IH. Qed.

(* ------------------------------------------------------------------ *)
(** ** The matcher on the patterns of text_cleaning.py                 *)
(* ------------------------------------------------------------------ *)

Section RegexFacts.
Context {U : Unicode}.
Import Re.

(** A greedy repetition without upper bound, followed by nothing, reads
    the longest run of the class; it fails when the run is too short. *)
Lemma rep_greedy (body : matcher) p (I : mstate -> Prop) :
  reads_one body p I -> kept_by_advance I ->
  forall fuel lo st, I st -> length (rest st) < fuel ->
    (lo <= length (takewhile p (rest st)) ->
     exists st', rep body fuel lo None Some st = Some st' /\
                 rest st' = dropwhile p (rest st) /\ groups st' = groups st)
    /\ (length (takewhile p (rest st)) < lo -> rep body fuel lo None Some st = None).
Proof.
  intros Hbody Hkeep. induction fuel as [|fuel IH]; intros lo st HI Hfuel; [lia|].
  cbn [rep option_map]. rewrite (Hbody _ st HI).
  destruct (rest st) as [|c tl] eqn:Erest.
  - cbn [takewhile dropwhile length]. split.
    + intro Hlo. assert (lo = 0) as -> by lia. cbn. exists st. now rewrite Erest.
    + intro Hlo. destruct lo; [lia|reflexivity].
  - cbn [takewhile dropwhile]. destruct (p c) eqn:Epc.
    + assert (Hlt : (length (rest (advance st c tl)) <? length (c :: tl)) = true).
      { apply Nat.ltb_lt. cbn. lia. }
      rewrite Hlt.
      assert (HI' : I (advance st c tl)) by now apply Hkeep.
      assert (Hf' : length (rest (advance st c tl)) < fuel).
      { cbn in *. lia. }
      destruct (IH (pred lo) (advance st c tl) HI' Hf') as [Hyes Hno].
      cbn [rest advance] in Hyes, Hno. cbn [length]. split.
      * intro Hlo. destruct Hyes as (st' & -> & Hr & Hg); [lia|].
        exists st'. repeat split; assumption.
      * intro Hlo. rewrite Hno by lia. destruct lo; [lia|reflexivity].
    + cbn [length]. split.
      * intro Hlo. assert (lo = 0) as -> by lia. cbn. exists st.
        now rewrite Erest.
      * intro Hlo. destruct lo; [lia|reflexivity].
Qed.

Lemma reads_one_Chr p : reads_one (rmatch (Chr p)) p (fun _ => True).
Proof. intros k st _. reflexivity. Qed.

Lemma rmatch_Rep r lo hi k st :
  rmatch (Rep r lo hi) k st = rep (rmatch r) (S (length (rest st))) lo hi k st.
Proof. reflexivity. Qed.

Lemma rmatch_Seq r1 r2 k st : rmatch (Seq r1 r2) k st = rmatch r1 (rmatch r2 k) st.
Proof. reflexivity. Qed.

(** [p+] at the head of [s]. *)
Lemma match_here_plus p before (s : str) :
  match_here (plus (Chr p)) before s =
  match takewhile p s with
  | [] => None
  | _ :: run => Some (S (length run), [])
  end.
Proof.
  unfold match_here, plus. rewrite rmatch_Rep. cbn [rest].
  destruct (rep_greedy (rmatch (Chr p)) p (fun _ => True) (reads_one_Chr p)
              (fun _ _ _ _ => I) (S (length s)) 1
              {| rest := s; prev := before; groups := [] |} I (Nat.lt_succ_diag_r _))
    as [Hyes Hno].
  cbn [rest groups] in *.
  destruct (takewhile p s) as [|c run] eqn:E.
  - rewrite Hno by (cbn; lia). reflexivity.
  - destruct Hyes as (st' & -> & Hr & Hg); [cbn; lia|].
    rewrite Hr, Hg. f_equal. f_equal.
    pose proof (f_equal (@length _) (takewhile_dropwhile p s)) as Hlen.
    rewrite E, length_app in Hlen. cbn [length] in Hlen. lia.
Qed.

(** One character of a class at the head of [s]. *)
Lemma match_here_Chr p before (s : str) :
  match_here (Chr p) before s =
  match s with
  | c :: _ => if p c then Some (1, []) else None
  | [] => None
  end.
Proof.
  unfold match_here. cbn [rmatch rest].
  destruct s as [|c tl]; [reflexivity|].
  destruct (p c); [|reflexivity]. cbn [advance rest groups length].
  f_equal. f_equal. lia.
Qed.

(** Substitution by a fixed text only leaves characters of the subject and
    of that text. *)
Lemma sub_from_const_Forall (P : codepoint -> Prop) (r : regex) (x : str) :
  Forall P x ->
  forall fuel before s, Forall P s -> Forall P (sub_from r (fun _ => x) fuel before s).
Proof.
  intro Hx. induction fuel as [|fuel IH]; intros before s Hs; [exact Hs|].
  cbn [sub_from]. destruct s as [|c tl]; [constructor|].
  assert (Hskip : Forall P (c :: sub_from r (fun _ => x) fuel (Some c) tl)).
  { inversion Hs; subst. constructor; auto. }
  destruct (match_here r before (c :: tl)) as [[[|n] gs]|]; try exact Hskip.
  apply Forall_app. split; [exact Hx|]. apply IH. now apply Forall_skipn_str.
Qed.

Lemma re_sub_const_Forall (P : codepoint -> Prop) (r : regex) (x : str) (s : str) :
  Forall P x -> Forall P s -> Forall P (re_sub r (fun _ => x) s).
Proof. intros Hx Hs. now apply sub_from_const_Forall. Qed.

End RegexFacts.
Section SubstitutionFacts.
Context {U : Unicode}.
Import Re.

Lemma filter_dropwhile_neg (p : codepoint -> bool) (s : str) :
  filter (fun c => negb (p c)) (dropwhile p s) = filter (fun c => negb (p c)) s.
Proof.
  induction s as [|c s IH]; simpl; [reflexivity|].
  destruct (p c) eqn:E; simpl; [exact IH|]. now rewrite E.
Qed.

Lemma filter_takewhile_dropwhile (p : codepoint -> bool) (s : str) :
  takewhile p s ++ filter p (dropwhile p s) = filter p s.
Proof.
  induction s as [|c s IH]; simpl; [reflexivity|].
  destruct (p c) eqn:E; simpl; [now rewrite IH|]. now rewrite E.
Qed.

Lemma dropwhile_shorter (p : codepoint -> bool) (s : str) :
  length (dropwhile p s) <= length s.
Proof. rewrite dropwhile_length. lia. Qed.

(** [p+] replaced by nothing: the characters of the class are removed. *)
Lemma sub_from_plus_empty p fuel before (s : str) :
  length s <= fuel ->
  sub_from (plus (Chr p)) (fun _ => []) fuel before s = filter (fun c => negb (p c)) s.
Proof.
  revert before s. induction fuel as [|fuel IH]; intros before s Hlen.
  - destruct s; [reflexivity|cbn in Hlen; lia].
  - cbn [sub_from]. destruct s as [|c tl]; [reflexivity|].
    rewrite match_here_plus. cbn [takewhile filter].
    destruct (p c) eqn:E; cbn [negb].
    + cbn [skipn app]. rewrite skipn_takewhile.
      rewrite IH; [apply filter_dropwhile_neg|].
      pose proof (dropwhile_shorter p tl). cbn in Hlen. lia.
    + rewrite IH; [reflexivity|]. cbn in Hlen. lia.
Qed.

(** The matches of [p+], put together, are the characters of the class. *)
Lemma findall_from_plus_concat p fuel before (s : str) :
  length s <= fuel ->
  concat (findall_from (plus (Chr p)) fuel before s) = filter p s.
Proof.
  revert before s. induction fuel as [|fuel IH]; intros before s Hlen.
  - destruct s; [reflexivity|cbn in Hlen; lia].
  - cbn [findall_from]. destruct s as [|c tl]; [reflexivity|].
    rewrite match_here_plus. cbn [takewhile filter].
    destruct (p c) eqn:E.
    + cbn [skipn firstn concat]. rewrite skipn_takewhile, firstn_takewhile.
      rewrite IH.
      * cbn [app]. now rewrite filter_takewhile_dropwhile.
      * pose proof (dropwhile_shorter p tl). cbn in Hlen. lia.
    + rewrite IH; [reflexivity|]. cbn in Hlen. lia.
Qed.

(** One character of a class replaced by a fixed character. *)
Lemma sub_from_Chr p x fuel before (s : str) :
  length s <= fuel ->
  sub_from (Chr p) (fun _ => [x]) fuel before s = map (fun c => if p c then x else c) s.
Proof.
  revert before s. induction fuel as [|fuel IH]; intros before s Hlen.
  - destruct s; [reflexivity|cbn in Hlen; lia].
  - cbn [sub_from]. destruct s as [|c tl]; [reflexivity|].
    rewrite match_here_Chr. cbn [map]. cbn in Hlen.
    destruct (p c); cbn [skipn app]; rewrite IH by lia; reflexivity.
Qed.

(** [s.replace(a, b)] for single characters. *)
Lemma str_replace_fuel_char a b fuel (s : str) :
  length s <= fuel ->
  str_replace_fuel fuel [a] [b] s = map (fun c => if cp_eqb a c then b else c) s.
Proof.
  revert s. induction fuel as [|fuel IH]; intros s Hlen.
  - destruct s; [reflexivity|cbn in Hlen; lia].
  - cbn [str_replace_fuel]. destruct s as [|c tl]; [reflexivity|].
    cbn [is_prefix map length skipn]. cbn in Hlen.
    destruct (cp_eqb a c); cbn [andb app]; rewrite IH by lia; reflexivity.
Qed.

Lemma str_replace_char a b (s : str) :
  str_replace [a] [b] s = map (fun c => if cp_eqb a c then b else c) s.
Proof. apply str_replace_fuel_char. apply Nat.le_refl. Qed.

Lemma rmatch_Group n r k st :
  rmatch (Group n r) k st =
  rmatch r (fun st' =>
              k (group_set n (firstn (length (rest st) - length (rest st')) (rest st)) st'))
         st.
Proof. reflexivity. Qed.

Lemma rmatch_Chr p k st :
  rmatch (Chr p) k st = match rest st with
                        | c :: tl => if p c then k (advance st c tl) else None
                        | [] => None
                        end.
Proof. reflexivity. Qed.

(** [(.)\1{2,}] at the head of a text. *)
Lemma reads_one_Backref c :
  reads_one (rmatch (Backref 1)) (cp_eqb c)
            (fun st => group_get (groups st) 1 = Some [c]).
Proof.
  intros k st HI. cbn [rmatch]. rewrite HI.
  destruct (rest st) as [|x tl] eqn:E; [reflexivity|].
  cbn [is_prefix]. destruct (cp_eqb c x) eqn:Ex; [|reflexivity].
  cbn [andb]. apply N.eqb_eq in Ex. subst x.
  unfold advance_by, advance. rewrite E. reflexivity.
Qed.

Lemma match_here_repeated before c (tl : str) :
  match_here TextCleaning.REPEATED_CHARS before (c :: tl) =
  if TextCleaning.not_newline c && (2 <=? lead c tl)
  then Some (S (lead c tl), [(1, [c])])
  else None.
Proof.
  unfold match_here, TextCleaning.REPEATED_CHARS.
  rewrite rmatch_Seq, rmatch_Group, rmatch_Chr.
  cbn [rest]. destruct (TextCleaning.not_newline c); [|reflexivity].
  cbn [andb]. rewrite rmatch_Rep.
  replace (length (c :: tl) - length (rest (advance
             {| rest := c :: tl; prev := before; groups := [] |} c tl))) with 1
    by (cbn [advance rest length]; lia).
  cbn [firstn].
  set (st1 := group_set 1 [c] (advance {| rest := c :: tl; prev := before; groups := [] |} c tl)).
  destruct (rep_greedy (rmatch (Backref 1)) (cp_eqb c)
              (fun st => group_get (groups st) 1 = Some [c])
              (reads_one_Backref c) (fun _ _ _ H => H)
              (S (length (rest st1))) 2 st1 eq_refl (Nat.lt_succ_diag_r _))
    as [Hyes Hno].
  change (rest st1) with tl in *. change (groups st1) with [(1, [c])] in *.
  unfold lead. destruct (Nat.leb_spec 2 (length (takewhile (cp_eqb c) tl))) as [Hge|Hlt].
  - destruct (Hyes Hge) as (st' & -> & Hr & Hg).
    rewrite Hr, Hg. f_equal. f_equal.
    pose proof (f_equal (@length _) (takewhile_dropwhile (cp_eqb c) tl)) as Hlen.
    rewrite length_app in Hlen. cbn [length]. lia.
  - now rewrite (Hno Hlt).
Qed.

End SubstitutionFacts.
(* ------------------------------------------------------------------ *)
(** ** Runs of characters                                              *)
(* ------------------------------------------------------------------ *)

Lemma lead_cons (c x : codepoint) (s : str) :
  lead c (x :: s) = if cp_eqb c x then S (lead c s) else 0.
Proof. unfold lead. cbn [takewhile]. now destruct (cp_eqb c x). Qed.

Lemma lead_ge2 (c : codepoint) (s : str) :
  2 <= lead c s -> exists post, s = c :: c :: post.
Proof.
  destruct s as [|x s]; [unfold lead; cbn; lia|].
  rewrite lead_cons. destruct (cp_eqb c x) eqn:Ex; [|lia].
  apply N.eqb_eq in Ex. subst x.
  destruct s as [|y s]; [unfold lead; cbn; lia|].
  rewrite lead_cons. destruct (cp_eqb c y) eqn:Ey; [|lia].
  apply N.eqb_eq in Ey. subst y. eauto.
Qed.

Lemma no_run3_nil : no_run3 [].
Proof. intros [|x pre] c post H; discriminate H. Qed.

Lemma no_run3_tail (c : codepoint) (s : str) : no_run3 (c :: s) -> no_run3 s.
Proof. intros H pre x post E. apply (H (c :: pre) x post). now rewrite E. Qed.

Lemma no_run3_lead (c : codepoint) (s : str) : no_run3 (c :: s) -> lead c s <= 1.
Proof.
  intro H. destruct (Nat.le_gt_cases (lead c s) 1) as [|Hgt]; [assumption|].
  destruct (lead_ge2 c s Hgt) as (post & ->). now elim (H [] c post).
Qed.

Lemma no_run3_cons (c : codepoint) (s : str) :
  no_run3 s -> lead c s <= 1 -> no_run3 (c :: s).
Proof.
  intros Hs Hlead [|x pre] y post E.
  - cbn in E. injection E as -> ->.
    rewrite !lead_cons in Hlead. unfold cp_eqb in Hlead.
    rewrite !N.eqb_refl in Hlead. lia.
  - cbn in E. injection E as _ E. now apply (Hs pre y post).
Qed.

Lemma no_run3_factor (t s : str) : is_factor t s -> no_run3 s -> no_run3 t.
Proof.
  intros (a & b & ->) H pre c post E.
  apply (H (a ++ pre) c (post ++ b)). rewrite E.
  now rewrite <- !app_assoc.
Qed.

Lemma Forall_factor (P : codepoint -> Prop) (t s : str) :
  is_factor t s -> Forall P s -> Forall P t.
Proof.
  intros (a & b & ->) H. apply Forall_app in H as [_ H].
  now apply Forall_app in H as [H _].
Qed.

(** A run of [x] at the head of [a ++ y :: l] stays inside [a] when [y] is
    another character that does not occur in [a]... *)
Lemma lead_app_other (x y : codepoint) (a l : str) :
  x <> y -> lead x (a ++ y :: l) = lead x a.
Proof.
  intro Hxy. induction a as [|c a IH]; cbn [app].
  - rewrite lead_cons. unfold lead, cp_eqb. cbn.
    destruct (N.eqb_spec x y); [contradiction|reflexivity].
  - rewrite !lead_cons. destruct (cp_eqb x c); [now rewrite IH|reflexivity].
Qed.

(** [a] followed by a space and by a text that does not start with a
    space. *)
Lemma no_run3_app_space (a l : str) :
  no_run3 a -> ~ In 32%N a -> no_run3 (32%N :: l) -> no_run3 (a ++ 32%N :: l).
Proof.
  intros Ha Hno Hl. induction a as [|x a IH]; [exact Hl|].
  cbn [app]. apply no_run3_cons.
  - apply IH; [now apply no_run3_tail in Ha|]. intro H. apply Hno. now right.
  - rewrite lead_app_other; [now apply no_run3_lead|].
    intros ->. apply Hno. now left.
Qed.

(* ------------------------------------------------------------------ *)
(** ** strip                                                           *)
(* ------------------------------------------------------------------ *)

Lemma lstrip_suffix (s : str) : exists pre, s = pre ++ lstrip s.
Proof.
  exists (takewhile is_space s). rewrite lstrip_dropwhile.
  symmetry. apply takewhile_dropwhile.
Qed.

Lemma rstrip_prefix (s : str) : exists post, s = rstrip s ++ post.
Proof.
  unfold rstrip. destruct (lstrip_suffix (rev s)) as (pre & E).
  exists (rev pre). rewrite <- rev_app_distr, <- E. now rewrite rev_involutive.
Qed.

Lemma str_strip_factor (s : str) : is_factor (str_strip s) s.
Proof.
  unfold str_strip. destruct (lstrip_suffix s) as (pre & E).
  destruct (rstrip_prefix (lstrip s)) as (post & E').
  exists pre, post. rewrite <- E'. exact E.
Qed.

Lemma lstrip_nil_all_space (s : str) : lstrip s = [] -> Forall (fun c => is_space c = true) s.
Proof.
  induction s as [|c s IH]; cbn [lstrip]; [constructor|].
  destruct (is_space c) eqn:E; [|discriminate]. intro H. constructor; auto.
Qed.

Lemma str_strip_nil_all_space (s : str) :
  str_strip s = [] -> Forall (fun c => is_space c = true) s.
Proof.
  unfold str_strip, rstrip. intro H.
  assert (H1 : lstrip (rev (lstrip s)) = []).
  { apply (f_equal (@rev codepoint)) in H. now rewrite rev_involutive in H. }
  apply lstrip_nil_all_space in H1.
  assert (H2 : Forall (fun c => is_space c = true) (lstrip s)).
  { rewrite Forall_forall in *. intros c Hc. apply H1. now apply in_rev in Hc. }
  destruct (lstrip_suffix s) as (pre & E).
  rewrite lstrip_dropwhile in E, H2.
  assert (pre = takewhile is_space s).
  { rewrite <- (takewhile_dropwhile is_space s) in E at 1.
    now apply app_inv_tail in E. }
  subst pre. rewrite <- (takewhile_dropwhile is_space s).
  apply Forall_app. split; [|exact H2].
  clear. induction s as [|c s IH]; cbn; [constructor|].
  destruct (is_space c) eqn:E; constructor; auto.
Qed.
(* ------------------------------------------------------------------ *)
(** ** Steps 8 and 9 of the cleaning cascade                           *)
(* ------------------------------------------------------------------ *)

Section CollapseFacts.
Context {U : Unicode}.
Import Re.

Lemma sub_from_nil r repl fuel before : sub_from r repl fuel before [] = [].
Proof. now destruct fuel. Qed.

Lemma lead_le_cons (d c : codepoint) (out s : str) :
  lead d out <= lead d s -> lead d (c :: out) <= lead d (c :: s).
Proof. rewrite !lead_cons. destruct (cp_eqb d c); lia. Qed.

Lemma lead_dropwhile (c : codepoint) (s : str) : lead c (dropwhile (cp_eqb c) s) = 0.
Proof.
  destruct (dropwhile (cp_eqb c) s) as [|x tl] eqn:E; [reflexivity|].
  apply dropwhile_head in E. rewrite lead_cons. now rewrite E.
Qed.

Lemma skipn_lead (c : codepoint) (s : str) :
  skipn (lead c s) s = dropwhile (cp_eqb c) s.
Proof. apply skipn_takewhile. Qed.

(** Step 8.  On a text without newline, replacing every match of
    [(.)\1{2,}] by its first character leaves no character three times in
    a row, and only characters of the text. *)
Lemma sub_repeated_no_run3 fuel before (s : str) :
  length s <= fuel ->
  Forall (fun c => c <> 10%N) s ->
  no_run3 (sub_from TextCleaning.REPEATED_CHARS TextCleaning.group1 fuel before s)
  /\ forall d, lead d (sub_from TextCleaning.REPEATED_CHARS TextCleaning.group1
                                fuel before s) <= lead d s.
Proof.
  revert before s. induction fuel as [|fuel IH]; intros before s Hlen Hnl.
  - destruct s; [|cbn in Hlen; lia]. split; [apply no_run3_nil|intro; apply Nat.le_refl].
  - cbn [sub_from]. destruct s as [|c tl].
    { split; [apply no_run3_nil|intro; apply Nat.le_refl]. }
    cbn in Hlen. inversion Hnl as [|? ? Hc Htl]; subst.
    rewrite match_here_repeated.
    assert (Enl : TextCleaning.not_newline c = true).
    { unfold TextCleaning.not_newline. now destruct (N.eqb_spec c 10). }
    rewrite Enl. cbn [andb].
    destruct (Nat.leb_spec 2 (lead c tl)) as [Hge|Hlt].
    + cbn [skipn TextCleaning.group1 group_get Nat.eqb app].
      rewrite skipn_lead.
      destruct (IH (nth_error (c :: tl) (lead c tl))
                   (dropwhile (cp_eqb c) tl)) as [Hno Hlead].
      { pose proof (dropwhile_shorter (cp_eqb c) tl). lia. }
      { rewrite <- skipn_lead. now apply Forall_skipn_str. }
      split.
      * apply no_run3_cons; [exact Hno|].
        specialize (Hlead c). rewrite lead_dropwhile in Hlead. lia.
      * intro d. rewrite !lead_cons. destruct (cp_eqb d c) eqn:E; [|lia].
        apply N.eqb_eq in E. subst d.
        specialize (Hlead c). rewrite lead_dropwhile in Hlead. lia.
    + destruct (IH (Some c) tl) as [Hno Hlead]; [lia|assumption|].
      split.
      * apply no_run3_cons; [exact Hno|]. specialize (Hlead c). lia.
      * intro d. apply lead_le_cons, Hlead.
Qed.

Lemma sub_repeated_Forall (P : codepoint -> Prop) fuel before (s : str) :
  Forall P s ->
  Forall P (sub_from TextCleaning.REPEATED_CHARS TextCleaning.group1 fuel before s).
Proof.
  revert before s. induction fuel as [|fuel IH]; intros before s Hs; [exact Hs|].
  cbn [sub_from]. destruct s as [|c tl]; [constructor|].
  rewrite match_here_repeated. inversion Hs; subst.
  destruct (TextCleaning.not_newline c && (2 <=? lead c tl)).
  - cbn [TextCleaning.group1 group_get Nat.eqb app]. constructor; [assumption|].
    apply IH. now apply (Forall_skipn_str P (S (lead c tl)) (c :: tl)).
  - constructor; auto.
Qed.

Lemma spaced_true_lead (s : str) : spaced true s -> lead 32%N s = 0.
Proof.
  intro H. inversion H as [|? c s' Hc _|]; subst; [reflexivity|].
  rewrite lead_cons. unfold cp_eqb.
  destruct (N.eqb_spec 32 c) as [<-|]; [discriminate Hc|reflexivity].
Qed.

Lemma spaced_weaken (b : bool) (s : str) : spaced true s -> spaced b s.
Proof.
  intro H. inversion H; subst; constructor; assumption.
Qed.

Lemma spaced_prefix (b : bool) (a post : str) : spaced b (a ++ post) -> spaced b a.
Proof.
  revert b. induction a as [|c a IH]; intros b H; [constructor|].
  cbn [app] in H. inversion H; subst.
  - apply spaced_char; auto.
  - apply spaced_space; auto.
Qed.

Lemma spaced_lstrip (s : str) : spaced false s -> spaced true (lstrip s).
Proof.
  intro H. inversion H as [|? c s' Hc Hs'|s' Hs']; subst.
  - constructor.
  - cbn [lstrip]. rewrite Hc. now apply spaced_char.
  - cbn [lstrip]. change (is_space 32%N) with true. cbn iota.
    inversion Hs' as [|? c s'' Hc Hs''|]; subst; [constructor|].
    cbn [lstrip]. rewrite Hc. now apply spaced_char.
Qed.

Lemma single_spaced_strip (s : str) : spaced false s -> single_spaced (str_strip s).
Proof.
  intro H. unfold single_spaced, str_strip.
  destruct (rstrip_prefix (lstrip s)) as (post & E).
  apply spaced_prefix with (post := post). rewrite <- E. now apply spaced_lstrip.
Qed.

(** Step 9, before [strip]: runs of blanks become single spaces. *)
Lemma sub_spaces_props fuel before (s : str) :
  length s <= fuel ->
  no_run3 s ->
  no_run3 (sub_from TextCleaning.SPACES TextCleaning.space fuel before s)
  /\ (forall d, is_space d = false ->
                lead d (sub_from TextCleaning.SPACES TextCleaning.space fuel before s)
                <= lead d s)
  /\ spaced false (sub_from TextCleaning.SPACES TextCleaning.space fuel before s)
  /\ (forall c tl, s = c :: tl -> is_space c = false ->
                   spaced true (sub_from TextCleaning.SPACES TextCleaning.space
                                         fuel before s)).
Proof.
  revert before s. induction fuel as [|fuel IH]; intros before s Hlen Hno.
  - destruct s; [|cbn in Hlen; lia].
    repeat split; try constructor; try apply no_run3_nil; intros; discriminate.
  - cbn [sub_from]. destruct s as [|c tl].
    { repeat split; try constructor; try apply no_run3_nil; intros; discriminate. }
    cbn in Hlen. unfold TextCleaning.SPACES. rewrite match_here_plus.
    cbn [takewhile]. destruct (is_space c) eqn:Ec.
    + cbn [skipn TextCleaning.space app]. rewrite skipn_takewhile.
      fold TextCleaning.SPACES.
      set (before' := nth_error (c :: tl) (length (takewhile is_space tl))).
      destruct (IH before' (dropwhile is_space tl)) as (Hn & Hl & Hs & Hst).
      { pose proof (dropwhile_shorter is_space tl). lia. }
      { apply no_run3_factor with (s := c :: tl); [|assumption].
        exists (c :: takewhile is_space tl), [].
        rewrite app_nil_r. cbn [app]. now rewrite takewhile_dropwhile. }
      assert (Htrue : spaced true (sub_from TextCleaning.SPACES TextCleaning.space fuel
                                            before' (dropwhile is_space tl))).
      { destruct (dropwhile is_space tl) as [|x tl'] eqn:E.
        - rewrite sub_from_nil. constructor.
        - apply (Hst x tl' eq_refl). now apply dropwhile_head in E. }
      repeat split.
      * apply no_run3_cons; [exact Hn|]. rewrite (spaced_true_lead _ Htrue). lia.
      * intros d Hd. rewrite lead_cons. unfold cp_eqb.
        destruct (N.eqb_spec d 32) as [->|]; [discriminate Hd|lia].
      * now apply spaced_space.
      * intros x tl' E Hx. injection E as <- _. congruence.
    + fold TextCleaning.SPACES.
      destruct (IH (Some c) tl) as (Hn & Hl & Hs & Hst);
        [lia|now apply no_run3_tail in Hno|].
      repeat split.
      * apply no_run3_cons; [exact Hn|].
        specialize (Hl c Ec). apply no_run3_lead in Hno. lia.
      * intros d Hd. apply lead_le_cons. now apply Hl.
      * now apply spaced_char.
      * intros x tl' _ _. now apply spaced_char.
Qed.

(** The words of a text, joined by single spaces. *)
Lemma str_join_cons (sep : str) (p : str) (rest : list str) :
  rest <> [] -> str_join sep (p :: rest) = p ++ sep ++ str_join sep rest.
Proof. destruct rest; [congruence|reflexivity]. Qed.

Lemma str_join_Forall (P : codepoint -> Prop) (sep : str) (parts : list str) :
  Forall P sep -> Forall (Forall P) parts -> Forall P (str_join sep parts).
Proof.
  intros Hsep. induction parts as [|p rest IH]; intro H; [constructor|].
  inversion H; subst. destruct rest as [|q rest]; [assumption|].
  rewrite str_join_cons by discriminate.
  apply Forall_app. split; [assumption|]. apply Forall_app. split; auto.
Qed.

Lemma str_join_head_not_space (parts : list str) :
  Forall (fun p => p <> [] /\ ~ In 32%N p) parts ->
  lead 32%N (str_join [32%N] parts) = 0.
Proof.
  intro H. destruct parts as [|p rest]; [reflexivity|].
  apply Forall_inv in H. destruct H as [Hne Hno].
  destruct p as [|c p]; [now elim Hne|].
  assert (Hc : lead 32 (c :: p ++ [32%N] ++ str_join [32%N] rest) = 0).
  { rewrite lead_cons. unfold cp_eqb.
    destruct (N.eqb_spec 32 c) as [<-|]; [|reflexivity]. elim Hno. now left. }
  destruct rest as [|q rest]; [|exact Hc].
  cbn [str_join]. rewrite lead_cons. unfold cp_eqb.
  destruct (N.eqb_spec 32 c) as [<-|]; [|reflexivity]. elim Hno. now left.
Qed.

Lemma str_join_no_run3 (parts : list str) :
  Forall (fun p => p <> [] /\ ~ In 32%N p) parts ->
  Forall no_run3 parts ->
  no_run3 (str_join [32%N] parts).
Proof.
  induction parts as [|p rest IH]; intros H1 H2; [apply no_run3_nil|].
  pose proof (Forall_inv H1) as [Hne Hno]. pose proof (Forall_inv_tail H1) as H1'.
  pose proof (Forall_inv H2) as Hp. pose proof (Forall_inv_tail H2) as H2'.
  destruct rest as [|q rest]; [assumption|].
  rewrite str_join_cons by discriminate. cbn [app].
  apply no_run3_app_space; [assumption|assumption|].
  apply no_run3_cons; [now apply IH|].
  rewrite (str_join_head_not_space _ H1'). lia.
Qed.

End CollapseFacts.

(* ------------------------------------------------------------------ *)
(** ** Regular expressions: the first match of a repetition            *)
(* ------------------------------------------------------------------ *)

Section FirstMatch.
Context {U : Unicode}.
Import Re.

Lemma last_map_Some_cons (c : codepoint) (w : str) (pv : option codepoint) :
  last (map Some (c :: w)) pv = last (map Some w) (Some c).
Proof.
  revert c pv. induction w as [|x w IH]; intros c pv; [reflexivity|].
  change (last (map Some (c :: x :: w)) pv) with (last (map Some (x :: w)) pv).
  now rewrite !IH.
Qed.

(** A greedy repetition of a character class reads the whole run [w] of
    characters of the class, provided the continuation [K], when it fails
    after the whole run, fails after each shorter one too. *)
Lemma rep_chr_first (p : codepoint -> bool) (K : mstate -> option mstate)
      (tl : str) (g : list (nat * str)) :
  forall (w : str) (fuel lo : nat) (hi : option nat) (pv : option codepoint),
    Forall (fun c => p c = true) w ->
    lo <= length w -> within hi (length w) -> run_ends p hi (length w) tl ->
    length (w ++ tl) < fuel ->
    (forall w1 c w2,
        w = w1 ++ c :: w2 -> lo <= length w1 ->
        K {| rest := tl; prev := last (map Some w) pv; groups := g |} = None ->
        K {| rest := c :: w2 ++ tl; prev := last (map Some w1) pv; groups := g |} = None) ->
    rep (rmatch (Chr p)) fuel lo hi K {| rest := w ++ tl; prev := pv; groups := g |}
    = K {| rest := tl; prev := last (map Some w) pv; groups := g |}.
Proof.
  induction w as [|c w IH]; intros fuel lo hi pv Hw Hlo Hhi Hend Hfuel HK;
    (destruct fuel as [|fuel]; [simpl in Hfuel; lia|]).
  - cbn [rep app length map last] in *.
    assert (lo = 0) as -> by lia. cbn [Nat.eqb].
    assert (Hmore : match hi with
                    | Some 0 => None
                    | _ => rmatch (Chr p)
                             (fun st' =>
                                if length (rest st')
                                   <? length (rest {| rest := tl; prev := pv; groups := g |})
                                then rep (rmatch (Chr p)) fuel (pred 0) (option_map pred hi) K st'
                                else None)
                             {| rest := tl; prev := pv; groups := g |}
                    end = None).
    { destruct hi as [[|h]|]; [reflexivity| |];
        (destruct Hend as [Hend|Hend]; [discriminate Hend + (injection Hend; lia)|]);
        cbn [rmatch rest]; destruct tl as [|x tl]; try reflexivity; now rewrite Hend. }
    rewrite Hmore. reflexivity.
  - inversion Hw as [|? ? Hc Hw']; subst.
    cbn [rep app]. 
    assert (Hhi0 : match hi with Some 0 => False | _ => True end).
    { destruct hi as [[|h]|]; try exact I. simpl in Hhi. lia. }
    set (st := {| rest := c :: w ++ tl; prev := pv; groups := g |}).
    assert (Hmore : match hi with
                    | Some 0 => None
                    | _ => rmatch (Chr p)
                             (fun st' =>
                                if length (rest st') <? length (rest st)
                                then rep (rmatch (Chr p)) fuel (pred lo) (option_map pred hi) K st'
                                else None) st
                    end
                    = K {| rest := tl; prev := last (map Some (c :: w)) pv; groups := g |}).
    { assert (Hgo : rmatch (Chr p)
                      (fun st' =>
                         if length (rest st') <? length (rest st)
                         then rep (rmatch (Chr p)) fuel (pred lo) (option_map pred hi) K st'
                         else None) st
                    = K {| rest := tl; prev := last (map Some (c :: w)) pv; groups := g |}).
      { cbn [rmatch rest st]. rewrite Hc. cbn [advance rest groups].
        assert (Hlt : (length (w ++ tl) <? length (c :: w ++ tl)) = true)
          by (apply Nat.ltb_lt; simpl; lia).
        rewrite Hlt. rewrite last_map_Some_cons.
        apply IH.
        - exact Hw'.
        - simpl in Hlo. lia.
        - destruct hi as [h|]; [|exact I]. simpl in *. lia.
        - destruct Hend as [->|Hend]; [left; reflexivity|right; exact Hend].
        - simpl in Hfuel. lia.
        - intros w1 x w2 E Hlo1 Hnone.
          rewrite <- last_map_Some_cons with (pv := pv).
          apply (HK (c :: w1) x w2).
          + now rewrite E.
          + simpl. lia.
          + now rewrite last_map_Some_cons. }
      destruct hi as [[|h]|]; [now elim Hhi0|exact Hgo|exact Hgo]. }
    rewrite Hmore.
    destruct (K {| rest := tl; prev := last (map Some (c :: w)) pv; groups := g |}) eqn:E;
      [reflexivity|].
    destruct (Nat.eqb_spec lo 0) as [->|]; [|reflexivity].
    apply (HK [] c w eq_refl (Nat.le_0_l _) eq_refl).
Qed.

Lemma rmatch_rep_chr_first (p : codepoint -> bool) (K : mstate -> option mstate)
      (w tl : str) (lo : nat) (hi : option nat) (pv : option codepoint)
      (g : list (nat * str)) :
  Forall (fun c => p c = true) w ->
  lo <= length w -> within hi (length w) -> run_ends p hi (length w) tl ->
  (forall w1 c w2,
      w = w1 ++ c :: w2 -> lo <= length w1 ->
      K {| rest := tl; prev := last (map Some w) pv; groups := g |} = None ->
      K {| rest := c :: w2 ++ tl; prev := last (map Some w1) pv; groups := g |} = None) ->
  rmatch (Rep (Chr p) lo hi) K {| rest := w ++ tl; prev := pv; groups := g |}
  = K {| rest := tl; prev := last (map Some w) pv; groups := g |}.
Proof.
  intros. rewrite rmatch_Rep. apply rep_chr_first; try assumption.
  cbn [rest]. lia.
Qed.

Lemma leads_Eps st : leads Eps st st.
Proof. intros k res H. exact H. Qed.

Lemma leads_Seq r1 r2 st st1 st2 :
  leads r1 st st1 -> leads r2 st1 st2 -> leads (Seq r1 r2) st st2.
Proof. intros H1 H2 k res H. rewrite rmatch_Seq. now apply H1, H2. Qed.

Lemma leads_Chr (p : codepoint -> bool) c tl pv g :
  p c = true ->
  leads (Chr p) {| rest := c :: tl; prev := pv; groups := g |}
        {| rest := tl; prev := Some c; groups := g |}.
Proof. intros Hc k res H. rewrite rmatch_Chr. cbn [rest]. now rewrite Hc. Qed.

Lemma leads_Alt_l r1 r2 st st' : leads r1 st st' -> leads (Alt r1 r2) st st'.
Proof. intros H1 k res H. cbn [rmatch]. now rewrite (H1 k res H). Qed.

Lemma leads_Bol s g :
  leads Bol {| rest := s; prev := None; groups := g |}
        {| rest := s; prev := None; groups := g |}.
Proof. intros k res H. exact H. Qed.

Lemma leads_Eol pv g :
  leads Eol {| rest := []; prev := pv; groups := g |}
        {| rest := []; prev := pv; groups := g |}.
Proof. intros k res H. exact H. Qed.

Lemma firstn_length_sub (w tl : str) :
  firstn (length (w ++ tl) - length tl) (w ++ tl) = w.
Proof.
  rewrite length_app, Nat.add_sub. rewrite firstn_app, Nat.sub_diag, firstn_all.
  cbn [firstn]. apply app_nil_r.
Qed.

Lemma leads_Group n r (s w tl : str) pv pv' g g' :
  s = w ++ tl ->
  leads r {| rest := s; prev := pv; groups := g |}
        {| rest := tl; prev := pv'; groups := g' |} ->
  leads (Group n r) {| rest := s; prev := pv; groups := g |}
        {| rest := tl; prev := pv'; groups := (n, w) :: g' |}.
Proof.
  intros -> H k res Hk. rewrite rmatch_Group. apply H.
  cbn [rest]. rewrite firstn_length_sub. exact Hk.
Qed.

(** A greedy repetition of a character class hands over the text after the
    whole run of characters of the class. *)
Lemma leads_rep (p : codepoint -> bool) (w tl : str) lo hi pv g :
  Forall (fun c => p c = true) w ->
  lo <= length w -> within hi (length w) -> run_ends p hi (length w) tl ->
  leads (Rep (Chr p) lo hi) {| rest := w ++ tl; prev := pv; groups := g |}
        {| rest := tl; prev := last (map Some w) pv; groups := g |}.
Proof.
  intros Hw Hlo Hhi Hend k res Hk.
  rewrite rmatch_rep_chr_first; try assumption.
  intros w1 c w2 _ _ Hnone. congruence.
Qed.

End FirstMatch.

(* ------------------------------------------------------------------ *)
(** ** data_parsers.py: the WhatsApp extractor                         *)
(* ------------------------------------------------------------------ *)

(** C2 (divergence).  The line of the docstring and of the specification,
    whose meridiem is written "a. m." with a space inside, does not match
    the pattern of line 40 (after [a] and an optional dot the pattern wants
    [m]) and gives no row; the same holds for "p. m.".  Written "a.m." the
    line gives the expected row. *)
Theorem whatsapp_spaced_meridiem_gives_no_row (U : Unicode) :
  WhatsApp.parse_whatsapp_lines
    (Some [py "3/1/2022, 8:30 a. m. - Ana: Hola" ++ [10%N]]) = []
  /\ WhatsApp.parse_whatsapp_lines
       (Some [py "3/1/2022, 10:57 p. m. - Ana: Hola" ++ [10%N]]) = []
  /\ WhatsApp.parse_whatsapp_lines
       (Some [py "3/1/2022, 8:30 a.m. - Ana: Hola" ++ [10%N]])
     = [{| msg_datetime := {| year := 2022; month := 1; day := 3;
                              hour := 8; minute := 30; second := 0 |};
           msg_sender := py "Ana";
           msg_text := py "Hola" |}].
Proof. repeat split; vm_compute; reflexivity. Qed.

(* ------------------------------------------------------------------ *)
(** ** data_parsers.py: the Telegram extractor                         *)
(* ------------------------------------------------------------------ *)

Section TelegramFacts.
Context {U : Unicode}.
Import Telegram.

Lemma scan_app (last_sender : option str) (before after : list msg_div) :
  scan last_sender (before ++ after)
  = scan last_sender before ++ scan (last_sender_after last_sender before) after.
Proof.
  revert last_sender. induction before as [|m before IH]; intro last_sender;
    [reflexivity|].
  cbn [app scan last_sender_after].
  destruct (step last_sender m) as [last' [row|]]; cbn [fst]; rewrite IH; reflexivity.
Qed.

Lemma last_sender_after_app (last_sender : option str) (before after : list msg_div) :
  last_sender_after last_sender (before ++ after)
  = last_sender_after (last_sender_after last_sender before) after.
Proof.
  revert last_sender. induction before as [|m before IH]; intro last_sender;
    [reflexivity|]. cbn [app last_sender_after]. apply IH.
Qed.

(** What one round does to [last_sender]. *)
Lemma step_last_sender (last_sender : option str) (m : msg_div) :
  fst (step last_sender m)
  = match sender_read m with
    | Some name => Some name
    | None => last_sender
    end.
Proof.
  unfold step, sender_read.
  destruct (is_service m); [reflexivity|].
  destruct (date_title m) as [date_str|]; [|reflexivity].
  destruct (parse_date date_str) as [dt|]; [|reflexivity].
  destruct (from_name m) as [name|];
    destruct (text_div m) as [[|c t]|]; reflexivity.
Qed.

Lemma last_sender_after_spec (last_sender : option str) (nodes : list msg_div) :
  last_sender_after last_sender nodes
  = match hd_error (rev (WhatsApp.filter_map sender_read nodes)) with
    | Some name => Some name
    | None => last_sender
    end.
Proof.
  revert last_sender. induction nodes as [|m nodes IH]; intro last_sender;
    [reflexivity|].
  cbn [last_sender_after WhatsApp.filter_map]. rewrite IH, step_last_sender.
  destruct (sender_read m) as [name|]; [|reflexivity].
  cbn [rev]. destruct (rev (WhatsApp.filter_map sender_read nodes)); reflexivity.
Qed.

Lemma last_sender_after_most_recent (nodes : list msg_div) :
  last_sender_after None nodes = most_recent_sender nodes.
Proof.
  rewrite last_sender_after_spec. unfold most_recent_sender.
  now destruct (hd_error _).
Qed.

(** The row of a node without sender field, not a service message, with a
    timestamp that parses and a non-empty text. *)
Lemma step_senderless (last_sender : option str) (m : msg_div) date_str dt c t :
  is_service m = false ->
  date_title m = Some date_str ->
  parse_date date_str = Some dt ->
  from_name m = None ->
  text_div m = Some (c :: t) ->
  step last_sender m =
  (last_sender,
   Some {| msg_datetime := dt;
           msg_sender := match last_sender with
                         | Some (x :: name) => x :: name
                         | _ => py "Unknown"
                         end;
           msg_text := c :: t |}).
Proof.
  intros Hs Hd Hp Hf Ht. unfold step. rewrite Hs, Hd, Hp, Hf, Ht.
  destruct last_sender as [[|x name]|]; reflexivity.
Qed.

(** C4 (as amended).  A node without sender field (not a service message,
    with a timestamp that parses and a non-empty text) is attributed to the
    sender most recently read by the scan of the same document, when there
    is one and it is not the empty string, and to "Unknown" otherwise; the
    senders read are those of the earlier nodes that are not service
    messages and whose timestamp parses, whether or not they gave a row.
    [last_sender] starts as [None] in every call: such a node at the head of
    a file gives "Unknown" whatever files were parsed before. *)
Theorem telegram_senderless_node_sender
  (before after : list msg_div) (m : msg_div) date_str dt c t :
  is_service m = false ->
  date_title m = Some date_str ->
  parse_date date_str = Some dt ->
  from_name m = None ->
  text_div m = Some (c :: t) ->
  row_of before m after
  = Some {| msg_datetime := dt;
            msg_sender := match most_recent_sender before with
                          | Some (x :: name) => x :: name
                          | _ => py "Unknown"
                          end;
            msg_text := c :: t |}
  /\ (forall previous,
        hd_error (last (parse_telegram_files (previous ++ [Some (m :: after)])) [])
        = Some {| msg_datetime := dt; msg_sender := py "Unknown"; msg_text := c :: t |}).
Proof.
  intros Hs Hd Hp Hf Ht. split.
  - unfold row_of, parse_telegram_html. rewrite scan_app.
    rewrite nth_error_app2 by lia. rewrite Nat.sub_diag.
    cbn [scan]. rewrite (step_senderless _ m date_str dt c t Hs Hd Hp Hf Ht).
    rewrite last_sender_after_most_recent. reflexivity.
  - intro previous. unfold parse_telegram_files.
    rewrite map_app. cbn [map]. rewrite last_last.
    unfold parse_telegram_html. cbn [scan].
    rewrite (step_senderless _ m date_str dt c t Hs Hd Hp Hf Ht). reflexivity.
Qed.

(** C10 (as amended).  A node that is not a service message, has a sender
    field and a timestamp that parses sets [last_sender] to its sender,
    also when it gives no row because its text container is missing or
    empty; a node without sender field that follows it is then attributed
    to that sender (to "Unknown" when that sender is the empty string). *)
Theorem telegram_sender_kept_without_row
  (last_sender : option str) (m : msg_div) date_str dt name :
  is_service m = false ->
  date_title m = Some date_str ->
  parse_date date_str = Some dt ->
  from_name m = Some name ->
  fst (step last_sender m) = Some name
  /\ (text_div m = None \/ text_div m = Some [] ->
      snd (step last_sender m) = None
      /\ forall m2 date_str2 dt2 c t,
          is_service m2 = false ->
          date_title m2 = Some date_str2 ->
          parse_date date_str2 = Some dt2 ->
          from_name m2 = None ->
          text_div m2 = Some (c :: t) ->
          scan last_sender [m; m2]
          = [{| msg_datetime := dt2;
                msg_sender := match name with
                              | _ :: _ => name
                              | [] => py "Unknown"
                              end;
                msg_text := c :: t |}]).
Proof.
  intros Hs Hd Hp Hf.
  assert (Hfst : fst (step last_sender m) = Some name).
  { rewrite step_last_sender. unfold sender_read. now rewrite Hs, Hd, Hp, Hf. }
  split; [exact Hfst|].
  intro Ht.
  assert (Hsnd : snd (step last_sender m) = None).
  { unfold step. rewrite Hs, Hd, Hp, Hf. now destruct Ht as [-> | ->]. }
  split; [exact Hsnd|].
  intros m2 date_str2 dt2 c t Hs2 Hd2 Hp2 Hf2 Ht2.
  cbn [scan]. destruct (step last_sender m) as [last' row]. cbn [fst snd] in *.
  subst last' row.
  rewrite (step_senderless _ m2 date_str2 dt2 c t Hs2 Hd2 Hp2 Hf2 Ht2).
  now destruct name.
Qed.

End TelegramFacts.

Lemma telegram_senderless_node_sender_witness :
  Telegram.row_of (U := AsciiUnicode) [tg_ana; tg_photo] tg_senderless []
  = Some {| msg_datetime := tg_time 18 33 10;
            msg_sender := py "Luis";
            msg_text := py "todo bien" |}.
Proof.
  apply (proj1 (@telegram_senderless_node_sender AsciiUnicode
                  [tg_ana; tg_photo] [] tg_senderless
                  (py "03.01.2022 18:33:10 UTC-05:00") (tg_time 18 33 10)
                  116%N (py "odo bien")
                  eq_refl eq_refl eq_refl eq_refl eq_refl)).
Defined.

(** The claim as first stated fails when the sender most recently read is
    the empty string: the node after it is attributed to "Unknown". *)
Lemma telegram_empty_sender_not_inherited :
  ~ (forall before m after date_str dt c t name,
        Telegram.is_service m = false ->
        Telegram.date_title m = Some date_str ->
        Telegram.parse_date (U := AsciiUnicode) date_str = Some dt ->
        Telegram.from_name m = None ->
        Telegram.text_div m = Some (c :: t) ->
        Telegram.most_recent_sender (U := AsciiUnicode) before = Some name ->
        Telegram.row_of (U := AsciiUnicode) before m after
        = Some {| msg_datetime := dt; msg_sender := name; msg_text := c :: t |}).
Proof.
  intro H.
  specialize (H [tg_ana; tg_empty_name] tg_senderless []
                (py "03.01.2022 18:33:10 UTC-05:00") (tg_time 18 33 10)
                116%N (py "odo bien") []
                eq_refl eq_refl eq_refl eq_refl eq_refl eq_refl).
  discriminate H.
Qed.

Lemma telegram_sender_kept_without_row_witness :
  Telegram.scan (U := AsciiUnicode) None [tg_photo; tg_senderless]
  = [{| msg_datetime := tg_time 18 33 10;
        msg_sender := py "Luis";
        msg_text := py "todo bien" |}].
Proof.
  apply (proj2 (proj2 (@telegram_sender_kept_without_row AsciiUnicode None tg_photo
                         (py "03.01.2022 18:32:00 UTC-05:00") (tg_time 18 32 0)
                         (py "Luis") eq_refl eq_refl eq_refl eq_refl)
                      (or_introl eq_refl))
           tg_senderless (py "03.01.2022 18:33:10 UTC-05:00") (tg_time 18 33 10)
           116%N (py "odo bien") eq_refl eq_refl eq_refl eq_refl eq_refl).
Defined.

(** The claim as first stated fails for a node marked as a service message:
    it has a sender field and a timestamp that parses, and [last_sender] is
    left as it was. *)
Lemma telegram_service_node_sender_not_kept :
  ~ (forall last_sender m date_str dt name,
        Telegram.date_title m = Some date_str ->
        Telegram.parse_date (U := AsciiUnicode) date_str = Some dt ->
        Telegram.from_name m = Some name ->
        fst (Telegram.step (U := AsciiUnicode) last_sender m) = Some name).
Proof.
  intro H.
  specialize (H None tg_service_with_name (py "03.01.2022 18:32:00 UTC-05:00")
                (tg_time 18 32 0) (py "Luis") eq_refl eq_refl eq_refl).
  discriminate H.
Qed.

(* ------------------------------------------------------------------ *)
(** ** Facts about [replace], [split] and [in]                         *)
(* ------------------------------------------------------------------ *)

Lemma is_prefix_In (p s : str) (c : codepoint) :
  is_prefix p s = true -> In c p -> In c s.
Proof.
  revert s. induction p as [|x p IH]; intros [|y s] H Hc; try contradiction;
    try discriminate.
  cbn in H. apply andb_prop in H as [Hxy Hp].
  apply N.eqb_eq in Hxy. subst y.
  destruct Hc as [->|Hc]; [now left|right; now apply IH].
Qed.

(** An occurrence of [old] brings all the characters of [old]. *)
Lemma str_contains_In (old s : str) (c : codepoint) :
  str_contains old s = true -> In c old -> In c s.
Proof.
  induction s as [|y s IH]; intros H Hc.
  - cbn in H. rewrite orb_false_r in H. now apply (is_prefix_In old []).
  - cbn [str_contains] in H. apply orb_prop in H as [H|H].
    + now apply (is_prefix_In old).
    + right. now apply IH.
Qed.

Lemma str_contains_prefix_false (old s : str) :
  str_contains old s = false -> is_prefix old s = false.
Proof. destruct s; cbn [str_contains]; intro H; now apply orb_false_elim in H. Qed.

Lemma str_contains_tail_false (old : str) (c : codepoint) (s : str) :
  str_contains old (c :: s) = false -> str_contains old s = false.
Proof. cbn [str_contains]. intro H. now apply orb_false_elim in H. Qed.

(** Without an occurrence of [old] nothing is replaced. *)
Lemma str_replace_fuel_absent (fuel : nat) (old new s : str) :
  str_contains old s = false -> str_replace_fuel fuel old new s = s.
Proof.
  revert s. induction fuel as [|fuel IH]; intros s H; [reflexivity|].
  destruct s as [|c s]; [reflexivity|]. cbn [str_replace_fuel].
  rewrite (str_contains_prefix_false _ _ H).
  f_equal. apply IH. now apply str_contains_tail_false in H.
Qed.

Lemma str_replace_absent (old new s : str) :
  str_contains old s = false -> str_replace old new s = s.
Proof. apply str_replace_fuel_absent. Qed.

Lemma str_contains_absent (old s : str) (c : codepoint) :
  In c old -> ~ In c s -> str_contains old s = false.
Proof.
  intros Hc Hs. destruct (str_contains old s) eqn:E; [|reflexivity].
  elim Hs. now apply (str_contains_In old).
Qed.

(* ------------------------------------------------------------------ *)
(** ** data_parsers.py: the match of a well-formed WhatsApp line       *)
(* ------------------------------------------------------------------ *)

Lemma ascii_digit_cases (c : codepoint) :
  ascii_digit c = true ->
  (c = 48 \/ c = 49 \/ c = 50 \/ c = 51 \/ c = 52
   \/ c = 53 \/ c = 54 \/ c = 55 \/ c = 56 \/ c = 57)%N.
Proof.
  unfold ascii_digit. intro H. apply andb_prop in H as [H1 H2].
  apply N.leb_le in H1, H2. lia.
Qed.

Lemma ascii_digit_not_space (c : codepoint) : ascii_digit c = true -> is_space c = false.
Proof.
  intro H. apply ascii_digit_cases in H.
  repeat (destruct H as [->|H]; [reflexivity|]). now subst.
Qed.

Section DigitFacts.
Context {U : Unicode}.

Lemma ascii_digit_is_digit (c : codepoint) : ascii_digit c = true -> is_digit c = true.
Proof.
  intro H. unfold is_digit. rewrite H.
  apply ascii_digit_cases in H.
  repeat (destruct H as [->|H]; [reflexivity|]). now subst.
Qed.

Lemma digits_in_spec lo hi vmin vmax (s : str) :
  Strptime.digits_in lo hi vmin vmax s = true ->
  lo <= length s <= hi
  /\ Forall (fun c => ascii_digit c = true) s
  /\ (vmin <= Strptime.int_of s <= vmax)%N.
Proof.
  unfold Strptime.digits_in. intro H.
  repeat (apply andb_prop in H as [H ?]).
  repeat split.
  - now apply Nat.leb_le.
  - now apply Nat.leb_le.
  - apply Forall_forall. now apply forallb_forall.
  - now apply N.leb_le.
  - now apply N.leb_le.
Qed.

Lemma digits_Forall_is_digit (s : str) :
  Forall (fun c => ascii_digit c = true) s -> Forall (fun c => is_digit c = true) s.
Proof.
  intro H. apply Forall_forall. intros c Hc. rewrite Forall_forall in H.
  now apply ascii_digit_is_digit, H.
Qed.

End DigitFacts.

Section WhatsAppMatch.
Context {U : Unicode}.
Import Re WhatsApp.

Ltac rep_side :=
  match goal with
  | |- Forall _ _ => first [assumption | repeat constructor; reflexivity]
  | |- _ <= _ => cbn [length] in *; lia
  | |- within _ _ => cbn [within length] in *; lia
  | |- run_ends _ _ _ _ =>
    first [ right; cbn; first [reflexivity | assumption | exact I]
          | left; cbn [length] in *; f_equal; lia ]
  end.

Ltac rep_step w :=
  eapply leads_Seq; [apply (leads_rep _ w); rep_side|].

Ltac chr_step :=
  eapply leads_Seq; [apply leads_Chr; reflexivity|].

(** Either no character or the next one, for an optional character. *)
Ltac opt_step :=
  first [ eapply leads_Seq; [apply (leads_rep _ []); rep_side|]
        | match goal with
          | |- leads _ {| rest := ?c :: _; prev := _; groups := _ |} _ =>
            eapply leads_Seq; [apply (leads_rep _ [c]); rep_side|]
          end ].

(** The part of the pattern that reads the meridiem mark. *)
Local Abbreviation MARK :=
  (Seq (Rep (Chr is_space) 0 (Some 1))
     (Seq (Chr (fun c => cp_eqb c 97 || cp_eqb c 65 || cp_eqb c 112 || cp_eqb c 80))
        (Seq (Rep (Chr (cp_eqb 46)) 0 (Some 1))
           (Seq (Chr (fun c => cp_eqb c 109 || cp_eqb c 77))
              (Seq (Rep (Chr (cp_eqb 46)) 0 (Some 1)) Eps))))).

Lemma meridiem_leads (mer tl : str) pv g :
  In mer meridiem_marks ->
  leads MARK {| rest := mer ++ 32%N :: tl; prev := pv; groups := g |}
        {| rest := 32%N :: tl; prev := last (map Some mer) pv; groups := g |}.
Proof.
  intro Hmer. cbv [meridiem_marks flat_map map app] in Hmer.
  repeat (destruct Hmer as [<-|Hmer]; [|]); [..|contradiction]; cbn [app];
    opt_step; chr_step; opt_step; chr_step; opt_step; apply leads_Eps.
Qed.

(** The same for a mark that stands after any one blank. *)
Lemma blank_mark_leads (b : codepoint) (bare tl : str) pv g :
  is_space b = true -> In bare bare_marks ->
  leads MARK {| rest := (b :: bare) ++ 32%N :: tl; prev := pv; groups := g |}
        {| rest := 32%N :: tl; prev := last (map Some (b :: bare)) pv; groups := g |}.
Proof.
  intros Hb Hbare. cbv [bare_marks flat_map map app] in Hbare.
  repeat (destruct Hbare as [<-|Hbare]; [|]); [..|contradiction]; cbn [app];
    (eapply leads_Seq;
     [apply (leads_rep _ [b]);
      [repeat constructor; exact Hb|cbn; lia|cbn; lia|now left]|]);
    chr_step; opt_step; chr_step; opt_step; apply leads_Eps.
Qed.

(** The match of the pattern on a line whose fields have the right numbers
    of digits and whose meridiem mark is read by the part above. *)
Lemma pattern_leads_shape (dd mm yyyy hh mi mer content : str) :
  1 <= length dd <= 2 -> Forall (fun c => ascii_digit c = true) dd ->
  1 <= length mm <= 2 -> Forall (fun c => ascii_digit c = true) mm ->
  length yyyy = 4 -> Forall (fun c => ascii_digit c = true) yyyy ->
  1 <= length hh <= 2 -> Forall (fun c => ascii_digit c = true) hh ->
  length mi = 2 -> Forall (fun c => ascii_digit c = true) mi ->
  (forall tl pv g,
      leads MARK {| rest := mer ++ 32%N :: tl; prev := pv; groups := g |}
            {| rest := 32%N :: tl; prev := last (map Some mer) pv; groups := g |}) ->
  match content with [] => True | c :: _ => is_space c = false end ->
  Forall (fun c => not_newline c = true) content ->
  exists pv,
    leads pattern
          {| rest := export_line dd mm yyyy hh mi mer content; prev := None; groups := [] |}
          {| rest := []; prev := pv;
             groups := [(3, content); (2, hh ++ py ":" ++ mi ++ mer);
                        (1, dd ++ py "/" ++ mm ++ py "/" ++ yyyy)] |}.
Proof.
  intros Hdd1 Hdd2 Hmm1 Hmm2 Hyy1 Hyy2 Hhh1 Hhh2 Hmi1 Hmi2 Hmer Hc Hnl.
  apply digits_Forall_is_digit in Hdd2, Hmm2, Hyy2, Hmi2.
  destruct hh as [|h1 hh']; [simpl in Hhh1; lia|].
  assert (Hh1 : is_space h1 = false)
    by (inversion Hhh2; now apply ascii_digit_not_space).
  apply digits_Forall_is_digit in Hhh2.
  eexists.
  cbv [export_line pattern seqs fold_right times d s_star s_opt star opt chr chr_ci].
  change (py "/") with [47%N]. change (py ", ") with [44%N; 32%N].
  change (py ":") with [58%N]. change (py " - ") with [32%N; 45%N; 32%N].
  cbn [app].
  eapply leads_Seq; [apply leads_Bol|].
  eapply leads_Seq;
    [eapply leads_Group with (w := dd ++ 47%N :: mm ++ 47%N :: yyyy);
     [|rep_step dd; chr_step; rep_step mm; chr_step; rep_step yyyy; apply leads_Eps];
     repeat (rewrite <- app_assoc; cbn [app]); reflexivity|].
  chr_step.
  rep_step [32%N].
  eapply leads_Seq;
    [eapply leads_Group with (w := (h1 :: hh') ++ 58%N :: mi ++ mer);
     [|rep_step (h1 :: hh'); chr_step;
       eapply leads_Seq; [apply (leads_rep _ mi); rep_side|];
       apply Hmer];
     repeat (rewrite <- app_assoc; cbn [app]); reflexivity|].
  rep_step [32%N].
  chr_step.
  rep_step [32%N].
  eapply leads_Seq;
    [eapply leads_Group with (w := content);
     [|rewrite <- (app_nil_r content) at 1; apply (leads_rep _ content); rep_side];
     now rewrite app_nil_r|].
  eapply leads_Seq; [apply leads_Eol|apply leads_Eps].
Qed.

Lemma pattern_leads (dd mm yyyy hh mi mer content : str) :
  fields_ok dd mm yyyy hh mi mer ->
  match content with [] => True | c :: _ => is_space c = false end ->
  Forall (fun c => not_newline c = true) content ->
  exists pv,
    leads pattern
          {| rest := export_line dd mm yyyy hh mi mer content; prev := None; groups := [] |}
          {| rest := []; prev := pv;
             groups := [(3, content); (2, hh ++ py ":" ++ mi ++ mer);
                        (1, dd ++ py "/" ++ mm ++ py "/" ++ yyyy)] |}.
Proof.
  intros (Hdd & Hmm & Hyy & Hhh & Hmi & Hmer) Hc Hnl.
  apply digits_in_spec in Hdd as (Hdd1 & Hdd2 & _).
  apply digits_in_spec in Hmm as (Hmm1 & Hmm2 & _).
  apply digits_in_spec in Hyy as (Hyy1 & Hyy2 & _).
  apply digits_in_spec in Hhh as (Hhh1 & Hhh2 & _).
  apply digits_in_spec in Hmi as (Hmi1 & Hmi2 & _).
  apply pattern_leads_shape; try assumption; try lia.
  intros tl pv g. now apply meridiem_leads.
Qed.

End WhatsAppMatch.

(* ------------------------------------------------------------------ *)
(** ** strptime: the directives on well-formed fields                  *)
(* ------------------------------------------------------------------ *)

Section Directives.
Context {U : Unicode}.
Import Re Strptime.

Ltac digit_cases H :=
  apply ascii_digit_cases in H;
  destruct H as [->|[->|[->|[->|[->|[->|[->|[->|[->| ->]]]]]]]]].

(** A field of one or two digits, made explicit. *)
Ltac field_cases s H :=
  let Hs := fresh "Hs" in
  pose proof (digits_in_spec _ _ _ _ _ H) as (Hs & _ & _);
  destruct s as [|?c1 [|?c2 [|?c3 ?s']]]; cbn [length] in Hs; try lia; clear Hs;
  let Hd := fresh "Hd" in
  pose proof (digits_in_spec _ _ _ _ _ H) as (_ & Hd & _);
  repeat match goal with
         | Hd : Forall _ (_ :: _) |- _ =>
           let H1 := fresh "H1" in
           let Ht := fresh "Ht" in
           inversion Hd as [|? ? H1 Ht]; subst; clear Hd; digit_cases H1;
           try (vm_compute in H; discriminate H)
         | Hd : Forall _ [] |- _ => clear Hd
         end.

Ltac directive :=
  let k := fresh "k" in let res := fresh "res" in let Hk := fresh "Hk" in
  intros k res Hk; cbn in Hk; cbn; unfold advance; cbn [rest prev groups]; rewrite Hk; reflexivity.

Lemma leads_dir_d (dd : str) (sep : codepoint) (tl : str) pv g :
  digits_in 1 2 1 31 dd = true -> sep = 47%N \/ sep = 46%N ->
  leads dir_d {| rest := dd ++ sep :: tl; prev := pv; groups := g |}
        {| rest := sep :: tl; prev := last (map Some dd) pv; groups := g |}.
Proof.
  intros H Hsep. field_cases dd H; destruct Hsep as [-> | ->]; directive.
Qed.

Lemma leads_dir_m (mm : str) (sep : codepoint) (tl : str) pv g :
  digits_in 1 2 1 12 mm = true -> sep = 47%N \/ sep = 46%N \/ sep = 58%N ->
  leads dir_m {| rest := mm ++ sep :: tl; prev := pv; groups := g |}
        {| rest := sep :: tl; prev := last (map Some mm) pv; groups := g |}.
Proof.
  intros H Hsep. field_cases mm H; destruct Hsep as [-> | [-> | ->]]; directive.
Qed.

Lemma leads_dir_H (hh : str) (tl : str) pv g :
  digits_in 1 2 0 23 hh = true ->
  leads dir_H {| rest := hh ++ 58%N :: tl; prev := pv; groups := g |}
        {| rest := 58%N :: tl; prev := last (map Some hh) pv; groups := g |}.
Proof. intros H. field_cases hh H; directive. Qed.

Lemma leads_dir_M (mi : str) (tl : str) pv g :
  digits_in 2 2 0 59 mi = true ->
  leads dir_M {| rest := mi ++ tl; prev := pv; groups := g |}
        {| rest := tl; prev := last (map Some mi) pv; groups := g |}.
Proof. intros H. field_cases mi H; directive. Qed.

Lemma leads_dir_S (ss : str) (tl : str) pv g :
  digits_in 2 2 0 59 ss = true ->
  leads dir_S {| rest := ss ++ tl; prev := pv; groups := g |}
        {| rest := tl; prev := last (map Some ss) pv; groups := g |}.
Proof. intros H. field_cases ss H; directive. Qed.

Lemma leads_dir_p (a m : codepoint) (tl : str) pv g :
  In a [97; 65; 112; 80]%N -> In m [109; 77]%N ->
  leads dir_p {| rest := a :: m :: tl; prev := pv; groups := g |}
        {| rest := tl; prev := Some m; groups := g |}.
Proof.
  intros Ha Hm. cbn [In] in Ha, Hm.
  destruct Ha as [<-|[<-|[<-|[<-|[]]]]]; destruct Hm as [<-|[<-|[]]]; directive.
Qed.

Lemma leads_dir_Y (yyyy : str) (tl : str) pv g :
  digits_in 4 4 0 9999 yyyy = true ->
  leads dir_Y {| rest := yyyy ++ tl; prev := pv; groups := g |}
        {| rest := tl; prev := last (map Some yyyy) pv; groups := g |}.
Proof.
  intro H. apply digits_in_spec in H as (Hlen & Hd & _).
  destruct yyyy as [|y1 [|y2 [|y3 [|y4 [|]]]]]; cbn [length] in Hlen; try lia.
  apply digits_Forall_is_digit in Hd.
  pose proof (Forall_inv Hd) as Hy1.
  pose proof (Forall_inv (Forall_inv_tail Hd)) as Hy2.
  pose proof (Forall_inv (Forall_inv_tail (Forall_inv_tail Hd))) as Hy3.
  pose proof (Forall_inv (Forall_inv_tail (Forall_inv_tail (Forall_inv_tail Hd)))) as Hy4.
  cbv beta in Hy1, Hy2, Hy3, Hy4.
  cbv [dir_Y seqs fold_right d]. cbn [app map last].
  eapply leads_Seq; [now apply leads_Chr|].
  eapply leads_Seq; [now apply leads_Chr|].
  eapply leads_Seq; [now apply leads_Chr|].
  eapply leads_Seq; [now apply leads_Chr|]. apply leads_Eps.
Qed.

Lemma str_strip_no_space (w : str) :
  Forall (fun c => is_space c = false) w -> str_strip w = w.
Proof.
  intro H. unfold str_strip, rstrip.
  assert (Hl : forall s, Forall (fun c => is_space c = false) s -> lstrip s = s).
  { intros s Hs. destruct Hs as [|c s Hc _]; [reflexivity|]. cbn. now rewrite Hc. }
  rewrite (Hl w H). rewrite Hl; [apply rev_involutive|].
  apply Forall_forall. intros c Hc. apply in_rev in Hc.
  rewrite Forall_forall in H. now apply H.
Qed.

Lemma group_int_digits (gs : list (nat * str)) (n : nat) (w : str) :
  group_get gs n = Some w -> Forall (fun c => ascii_digit c = true) w ->
  group_int gs n = int_of w.
Proof.
  intros Hg Hw. unfold group_int. rewrite Hg. f_equal. apply str_strip_no_space.
  apply Forall_forall. intros c Hc. rewrite Forall_forall in Hw.
  now apply ascii_digit_not_space, Hw.
Qed.

(** The first match of a format is the match of the whole text. *)
Lemma match_format_leads (format : regex) (data : str) pv gs :
  leads format {| rest := data; prev := None; groups := [] |}
        {| rest := []; prev := pv; groups := gs |} ->
  match_format format data = Some gs.
Proof.
  intro H. unfold match_format, re_match, match_here.
  rewrite (H Some _ eq_refl). cbn [rest groups length].
  now rewrite Nat.sub_0_r, Nat.eqb_refl.
Qed.

Ltac group_step n lemma :=
  eapply leads_Seq;
  [eapply (leads_Group n); [|apply lemma; first [assumption | tauto]];
   repeat (rewrite <- app_assoc; cbn [app]); reflexivity|].

(** ["%d/%m/%Y %I:%M%p"] on well-formed fields. *)
Lemma strptime_whatsapp_fields (dd mm yyyy hh mi : str) (a m : codepoint) :
  digits_in 1 2 1 31 dd = true -> digits_in 1 2 1 12 mm = true ->
  digits_in 4 4 0 9999 yyyy = true ->
  digits_in 1 2 1 12 hh = true -> digits_in 2 2 0 59 mi = true ->
  In a [97; 65; 112; 80]%N -> In m [109; 77]%N ->
  strptime_whatsapp (dd ++ 47%N :: mm ++ 47%N :: yyyy ++ 32%N :: hh
                        ++ 58%N :: mi ++ [a; m])
  = make_datetime (int_of yyyy) (int_of mm) (int_of dd)
      (WhatsApp.hour24 (int_of hh) (cp_eqb a 112 || cp_eqb a 80)) (int_of mi) 0.
Proof.
  intros Hdd Hmm Hyy Hhh Hmi Ha Hm.
  assert (Hlead : leads format_whatsapp
            {| rest := dd ++ 47%N :: mm ++ 47%N :: yyyy ++ 32%N :: hh
                          ++ 58%N :: mi ++ [a; m];
               prev := None; groups := [] |}
            {| rest := []; prev := Some m;
               groups := [(6, [a; m]); (5, mi); (4, hh); (3, yyyy); (2, mm); (1, dd)] |}).
  { pose proof (digits_in_spec _ _ _ _ _ Hhh) as (Hlen & Hd & _).
    destruct hh as [|h1 hh']; [simpl in Hlen; lia|].
    assert (Hh1 : is_space h1 = false)
      by (inversion Hd; now apply ascii_digit_not_space).
    cbv [format_whatsapp seqs fold_right blanks plus chr dir_I].
    eapply leads_Seq;
      [eapply (leads_Group 1) with (w := dd); [|apply leads_dir_d; [exact Hdd|now left]];
       reflexivity|].
    eapply leads_Seq; [apply leads_Chr; reflexivity|].
    eapply leads_Seq;
      [eapply (leads_Group 2) with (w := mm); [|apply leads_dir_m; [exact Hmm|now left]];
       reflexivity|].
    eapply leads_Seq; [apply leads_Chr; reflexivity|].
    eapply leads_Seq;
      [eapply (leads_Group 3) with (w := yyyy); [|apply leads_dir_Y; exact Hyy];
       reflexivity|].
    eapply leads_Seq;
      [apply (leads_rep _ [32%N]); [repeat constructor|cbn; lia|exact I|right; exact Hh1]|].
    eapply leads_Seq;
      [eapply (leads_Group 4) with (w := h1 :: hh');
       [|apply leads_dir_m; [exact Hhh|now right; right]]; reflexivity|].
    eapply leads_Seq; [apply leads_Chr; reflexivity|].
    eapply leads_Seq;
      [eapply (leads_Group 5) with (w := mi); [|apply leads_dir_M; exact Hmi];
       reflexivity|].
    eapply leads_Seq;
      [eapply (leads_Group 6) with (w := [a; m]); [|apply leads_dir_p; assumption];
       reflexivity|].
    apply leads_Eps. }
  unfold strptime_whatsapp. rewrite (match_format_leads _ _ _ _ Hlead).
  pose proof (digits_in_spec _ _ _ _ _ Hdd) as (_ & Hd1 & _).
  pose proof (digits_in_spec _ _ _ _ _ Hmm) as (_ & Hd2 & _).
  pose proof (digits_in_spec _ _ _ _ _ Hyy) as (_ & Hd3 & _).
  pose proof (digits_in_spec _ _ _ _ _ Hhh) as (_ & Hd4 & _).
  pose proof (digits_in_spec _ _ _ _ _ Hmi) as (_ & Hd5 & _).
  set (gs := [(6, [a; m]); (5, mi); (4, hh); (3, yyyy); (2, mm); (1, dd)]).
  rewrite (group_int_digits gs 1 dd eq_refl Hd1), (group_int_digits gs 2 mm eq_refl Hd2),
    (group_int_digits gs 3 yyyy eq_refl Hd3), (group_int_digits gs 4 hh eq_refl Hd4),
    (group_int_digits gs 5 mi eq_refl Hd5).
  subst gs.
  cbn [group_get Nat.eqb]. f_equal.
  cbn [In] in Ha, Hm.
  unfold WhatsApp.hour24.
  destruct Ha as [<-|[<-|[<-|[<-|[]]]]]; destruct Hm as [<-|[<-|[]]];
    match goal with
    | |- context [str_eqb ?x ?y] =>
      let b := eval vm_compute in (str_eqb x y) in change (str_eqb x y) with b
    end;
    match goal with
    | |- context [orb ?x ?y] =>
      let b := eval vm_compute in (orb x y) in change (orb x y) with b
    end;
    cbv iota; destruct (N.eqb_spec (int_of hh) 12) as [E|E]; rewrite ?E; reflexivity.
Qed.

End Directives.

(* ------------------------------------------------------------------ *)
(** ** data_parsers.py: which Telegram nodes give rows                 *)
(* ------------------------------------------------------------------ *)

Section TelegramRows.
Context {U : Unicode}.
Import Telegram.

Lemma step_not_read (last_sender : option str) (m : msg_div) :
  is_read m = false -> step last_sender m = (last_sender, None).
Proof.
  unfold is_read, node_datetime, step.
  destruct (is_service m); [reflexivity|].
  destruct (date_title m) as [date_str|]; [|reflexivity].
  destruct (parse_date date_str); [discriminate|reflexivity].
Qed.

Lemma step_row_content (last_sender : option str) (m : msg_div) :
  option_map (fun r => (msg_datetime r, msg_text r)) (snd (step last_sender m))
  = row_content m.
Proof.
  unfold row_content, node_datetime, step.
  destruct (is_service m); [reflexivity|].
  destruct (date_title m) as [date_str|]; [|reflexivity].
  destruct (parse_date date_str) as [dt|]; [|reflexivity].
  destruct (from_name m) as [name|]; destruct (text_div m) as [[|c t]|]; reflexivity.
Qed.

(** X6.  Service messages and nodes without a timestamp that parses are
    invisible to the scan: they give no row and leave [last_sender] as it
    is, so that the result is the one of the document without them. *)
Theorem telegram_skipped_nodes_leave_no_trace (msg_divs : list msg_div) :
  parse_telegram_html (Some (filter is_read msg_divs))
  = parse_telegram_html (Some msg_divs).
Proof.
  unfold parse_telegram_html. generalize (@None str).
  induction msg_divs as [|m rest IH]; intro last_sender; [reflexivity|].
  cbn [filter]. destruct (is_read m) eqn:E.
  - cbn [scan]. destruct (step last_sender m) as [last' [row|]]; now rewrite IH.
  - cbn [scan]. rewrite (step_not_read _ _ E). apply IH.
Qed.

(** X7.  The rows follow the document: there is one row for each node that
    is not a service message, has a timestamp that parses and a text that is
    not empty, in document order, with the timestamp and the text of that
    node.  Which rows there are does not depend on any sender; no row has an
    empty message, and there are at most as many rows as nodes. *)
Theorem telegram_rows_follow_document (msg_divs : list msg_div) :
  map (fun r => (msg_datetime r, msg_text r)) (parse_telegram_html (Some msg_divs))
  = WhatsApp.filter_map row_content msg_divs
  /\ Forall (fun r => msg_text r <> []) (parse_telegram_html (Some msg_divs))
  /\ length (parse_telegram_html (Some msg_divs)) <= length msg_divs.
Proof.
  unfold parse_telegram_html. generalize (@None str).
  induction msg_divs as [|m rest IH]; intro last_sender.
  - repeat split; [constructor|apply Nat.le_refl].
  - cbn [scan WhatsApp.filter_map length].
    pose proof (step_row_content last_sender m) as Hrow.
    destruct (step last_sender m) as [last' [row|]]; cbn [snd option_map] in Hrow;
      destruct (IH last') as (IH1 & IH2 & IH3); rewrite <- Hrow.
    + cbn [map length]. rewrite IH1. repeat split; [|lia].
      constructor; [|exact IH2].
      unfold row_content in Hrow. destruct (node_datetime m); [|discriminate].
      destruct (text_div m) as [[|c t]|]; try discriminate.
      injection Hrow as _ Ht. rewrite Ht. discriminate.
    + repeat split; [exact IH1|exact IH2|lia].
Qed.

(** X8.  A node with a sender field is attributed to the text of that
    field as it is, be it empty, whatever nodes stand before it. *)
Theorem telegram_explicit_sender_wins
  (before after : list msg_div) (m : msg_div) dt name c t :
  node_datetime m = Some dt ->
  from_name m = Some name ->
  text_div m = Some (c :: t) ->
  row_of before m after
  = Some {| msg_datetime := dt; msg_sender := name; msg_text := c :: t |}.
Proof.
  intros Hd Hf Ht. unfold row_of, parse_telegram_html. rewrite scan_app.
  rewrite nth_error_app2 by lia. rewrite Nat.sub_diag. cbn [scan].
  unfold node_datetime in Hd. unfold step.
  destruct (is_service m); [discriminate|].
  destruct (date_title m) as [date_str|]; [|discriminate].
  rewrite Hd, Hf, Ht. reflexivity.
Qed.

End TelegramRows.

Lemma telegram_explicit_sender_wins_witness :
  Telegram.row_of (U := AsciiUnicode) [tg_ana] tg_empty_name [tg_senderless]
  = Some {| msg_datetime := tg_time 18 31 0; msg_sender := []; msg_text := py "que tal" |}.
Proof.
  apply (@telegram_explicit_sender_wins AsciiUnicode [tg_ana] [tg_senderless] tg_empty_name
           (tg_time 18 31 0) [] 113%N (py "ue tal") eq_refl eq_refl eq_refl).
Defined.

(* ------------------------------------------------------------------ *)
(** ** data_parsers.py: the row of a well-formed WhatsApp line         *)
(* ------------------------------------------------------------------ *)

Lemma str_replace_fuel_skip (o : codepoint) (old' new x s : str) (fuel : nat) :
  Forall (fun c => c <> o) x ->
  str_replace_fuel (length x + fuel) (o :: old') new (x ++ s)
  = x ++ str_replace_fuel fuel (o :: old') new s.
Proof.
  induction 1 as [|c x Hc _ IH]; [reflexivity|].
  cbn [length plus app str_replace_fuel is_prefix]. unfold cp_eqb at 1.
  destruct (N.eqb_spec o c) as [E|_]; [now elim Hc|].
  cbn [andb]. now rewrite IH.
Qed.

(** The characters before the first one that could start an occurrence of
    [old] are left as they are. *)
Lemma str_replace_skip (old : str) (o : codepoint) (new x s : str) :
  hd_error old = Some o ->
  Forall (fun c => c <> o) x ->
  str_replace old new (x ++ s) = x ++ str_replace old new s.
Proof.
  intros Ho H. destruct old as [|o' old']; [discriminate Ho|]. injection Ho as ->.
  unfold str_replace. rewrite length_app. now apply str_replace_fuel_skip.
Qed.

Lemma lstrip_spaces_app (sp s : str) :
  Forall (fun c => is_space c = true) sp -> lstrip (sp ++ s) = lstrip s.
Proof. induction 1 as [|c sp Hc _ IH]; [reflexivity|]. cbn. now rewrite Hc. Qed.

Lemma last_rev_hd (d : codepoint) (s : str) : hd d (rev s) = last s d.
Proof.
  induction s as [|c s IH]; [reflexivity|].
  cbn [rev]. destruct s as [|c' s'] eqn:E; [reflexivity|].
  rewrite <- E in *. 
  assert (Hne : rev s <> []).
  { rewrite E. cbn [rev]. now destruct (rev s'). }
  destruct (rev s) as [|x r] eqn:Er; [now elim Hne|].
  cbn [app hd]. cbn [hd] in IH. rewrite IH. rewrite E. reflexivity.
Qed.

(** Stripping a text that neither starts nor ends with a blank, followed by
    blanks only. *)
Lemma str_strip_core (s nl : str) :
  is_space (hd 32%N s) = false -> is_space (last s 32%N) = false ->
  Forall (fun c => is_space c = true) nl ->
  str_strip (s ++ nl) = s.
Proof.
  intros Hhd Hlast Hnl. unfold str_strip, rstrip.
  destruct s as [|c s']; [discriminate Hhd|].
  cbn [hd] in Hhd. cbn [app lstrip]. rewrite Hhd.
  change (c :: s' ++ nl) with ((c :: s') ++ nl). rewrite rev_app_distr.
  rewrite lstrip_spaces_app
    by (apply Forall_forall; intros x Hx; apply in_rev in Hx;
        rewrite Forall_forall in Hnl; now apply Hnl).
  rewrite <- last_rev_hd in Hlast.
  destruct (rev (c :: s')) as [|x r] eqn:E; [discriminate Hlast|].
  cbn [hd] in Hlast. cbn [lstrip]. rewrite Hlast, <- E. apply rev_involutive.
Qed.

Lemma last_app_cons (a : str) (c : codepoint) (b : str) (d : codepoint) :
  last (a ++ c :: b) d = last (c :: b) d.
Proof.
  induction a as [|x a IH]; [reflexivity|].
  cbn [app]. remember (a ++ c :: b) as r eqn:E.
  destruct r as [|c0 l]; [destruct a; discriminate E|]. exact IH.
Qed.

Section WhatsAppRows.
Context {U : Unicode}.
Import Re WhatsApp.

Lemma normalize_time_skip (x s : str) :
  Forall (fun c => c <> 8239 /\ c <> 32 /\ c <> 97 /\ c <> 112 /\ c <> 46)%N x ->
  normalize_time (x ++ s) = x ++ normalize_time s.
Proof.
  intro H. unfold normalize_time. cbv zeta.
  assert (H8239 : Forall (fun c => c <> 8239%N) x)
    by (apply Forall_forall; intros c Hc; rewrite Forall_forall in H; now apply H).
  assert (H32 : Forall (fun c => c <> 32%N) x)
    by (apply Forall_forall; intros c Hc; rewrite Forall_forall in H; now apply H).
  assert (H97 : Forall (fun c => c <> 97%N) x)
    by (apply Forall_forall; intros c Hc; rewrite Forall_forall in H; now apply H).
  assert (H112 : Forall (fun c => c <> 112%N) x)
    by (apply Forall_forall; intros c Hc; rewrite Forall_forall in H; now apply H).
  assert (H46 : Forall (fun c => c <> 46%N) x)
    by (apply Forall_forall; intros c Hc; rewrite Forall_forall in H; now apply H).
  rewrite (str_replace_skip [8239%N] 8239%N [] x s eq_refl H8239).
  rewrite (str_replace_skip (py "a. m.") 97%N _ x _ eq_refl H97).
  rewrite (str_replace_skip (py "p. m.") 112%N _ x _ eq_refl H112).
  rewrite (str_replace_skip (py "a.m.") 97%N _ x _ eq_refl H97).
  rewrite (str_replace_skip (py "p.m.") 112%N _ x _ eq_refl H112).
  rewrite (str_replace_skip (py ".") 46%N [] x _ eq_refl H46).
  now rewrite (str_replace_skip (py " ") 32%N [] x _ eq_refl H32).
Qed.

(** What the chain of replacements makes of a meridiem mark. *)
Lemma normalize_time_mark (mer : str) :
  In mer meridiem_marks ->
  exists a m, normalize_time mer = [a; m]
              /\ In a [97; 65; 112; 80]%N /\ In m [109; 77]%N
              /\ cp_eqb a 112 || cp_eqb a 80 = is_pm mer.
Proof.
  intro Hmer. cbv [meridiem_marks flat_map map app] in Hmer.
  repeat (destruct Hmer as [<-|Hmer]; [|]); [..|contradiction];
    match goal with
    | |- exists a m, normalize_time ?mer = _ /\ _ =>
      let r := eval vm_compute in (normalize_time mer) in
      match r with
      | [?a; ?m] => exists a, m; split; [vm_compute; reflexivity|]
      end
    end; cbn [In]; repeat split; tauto.
Qed.

Lemma digit_not_mark (c : codepoint) :
  ascii_digit c = true -> (c <> 8239 /\ c <> 32 /\ c <> 97 /\ c <> 112 /\ c <> 46)%N.
Proof.
  intro H. apply ascii_digit_cases in H.
  repeat (destruct H as [->|H]; [repeat split; discriminate|]).
  subst. repeat split; discriminate.
Qed.

(** The row that [parse_line] gives for a line that the pattern reads with
    the groups of its fields, when the chain of replacements leaves the two
    letters [a] and [m] of the meridiem mark. *)
Lemma parse_line_matched (dd mm yyyy hh mi mer content nl : str) (a m : codepoint) pv :
  Strptime.digits_in 1 2 1 31 dd = true ->
  Strptime.digits_in 1 2 1 12 mm = true ->
  Strptime.digits_in 4 4 0 9999 yyyy = true ->
  Strptime.digits_in 1 2 1 12 hh = true ->
  Strptime.digits_in 2 2 0 59 mi = true ->
  leads pattern
        {| rest := export_line dd mm yyyy hh mi mer content; prev := None; groups := [] |}
        {| rest := []; prev := pv;
           groups := [(3, content); (2, hh ++ py ":" ++ mi ++ mer);
                      (1, dd ++ py "/" ++ mm ++ py "/" ++ yyyy)] |} ->
  normalize_time mer = [a; m] ->
  In a [97; 65; 112; 80]%N -> In m [109; 77]%N ->
  is_space (hd 32%N content) = false -> is_space (last content 32%N) = false ->
  Forall (fun c => is_space c = true) nl ->
  parse_line (export_line dd mm yyyy hh mi mer content ++ nl)
  = match make_datetime (Strptime.int_of yyyy) (Strptime.int_of mm) (Strptime.int_of dd)
                        (hour24 (Strptime.int_of hh) (cp_eqb a 112 || cp_eqb a 80))
                        (Strptime.int_of mi) 0 with
    | None => None
    | Some dt =>
      let (sender, message) :=
        if str_contains (py ": ") content
        then match split_first (py ": ") content with
             | (a, Some b) => (a, b)
             | (a, None) => (a, [])
             end
        else (py "SYSTEM", content) in
      Some {| msg_datetime := dt; msg_sender := sender; msg_text := message |}
    end.
Proof.
  intros Hdd Hmm Hyy Hhh Hmi Hlead Hnorm Ha Hm Hhd Hlast Hsp.
  pose proof (digits_in_spec _ _ _ _ _ Hdd) as (Hdd1 & Hdd2 & _).
  pose proof (digits_in_spec _ _ _ _ _ Hhh) as (_ & Hhh2 & _).
  pose proof (digits_in_spec _ _ _ _ _ Hmi) as (_ & Hmi2 & _).
  unfold parse_line.
  assert (Hstrip : str_strip (export_line dd mm yyyy hh mi mer content ++ nl)
                   = export_line dd mm yyyy hh mi mer content).
  { apply str_strip_core; [| |exact Hsp].
    - destruct dd as [|d1 dd']; [simpl in Hdd1; lia|].
      cbn [export_line app hd]. apply ascii_digit_not_space. now inversion Hdd2.
    - destruct content as [|c content']; [discriminate Hhd|].
      unfold export_line. change (py " - ") with [32%N; 45%N; 32%N].
      rewrite !app_assoc. rewrite last_app_cons. exact Hlast. }
  rewrite Hstrip.
  unfold re_match, match_here. rewrite (Hlead Some _ eq_refl).
  cbn [groups group_text group_get Nat.eqb].
  assert (Htime : normalize_time (hh ++ py ":" ++ mi ++ mer) = hh ++ 58%N :: mi ++ [a; m]).
  { change (py ":") with [58%N]. cbn [app].
    rewrite normalize_time_skip
      by (apply Forall_forall; intros c Hc; rewrite Forall_forall in Hhh2;
          now apply digit_not_mark, Hhh2).
    f_equal. change (58%N :: mi ++ mer) with ([58%N] ++ mi ++ mer).
    rewrite (normalize_time_skip [58%N]) by (repeat constructor; discriminate).
    cbn [app]. f_equal.
    rewrite normalize_time_skip
      by (apply Forall_forall; intros c Hc; rewrite Forall_forall in Hmi2;
          now apply digit_not_mark, Hmi2).
    now rewrite Hnorm. }
  rewrite Htime.
  assert (Hdata : (dd ++ py "/" ++ mm ++ py "/" ++ yyyy) ++ py " " ++ hh ++ 58%N :: mi ++ [a; m]
                  = dd ++ 47%N :: mm ++ 47%N :: yyyy ++ 32%N :: hh ++ 58%N :: mi ++ [a; m]).
  { change (py "/") with [47%N]. change (py " ") with [32%N].
    repeat (rewrite <- app_assoc; cbn [app]). reflexivity. }
  rewrite Hdata.
  now rewrite (strptime_whatsapp_fields dd mm yyyy hh mi a m Hdd Hmm Hyy Hhh Hmi Ha Hm).
Qed.

(** The row that [parse_line] gives for an export line with well-formed
    fields, whose content neither starts nor ends with a blank. *)
Lemma parse_line_well_formed (dd mm yyyy hh mi mer content nl : str) :
  fields_ok dd mm yyyy hh mi mer ->
  is_space (hd 32%N content) = false -> is_space (last content 32%N) = false ->
  ~ In 10%N content ->
  Forall (fun c => is_space c = true) nl ->
  parse_line (export_line dd mm yyyy hh mi mer content ++ nl)
  = match fields_datetime dd mm yyyy hh mi mer with
    | None => None
    | Some dt =>
      let (sender, message) :=
        if str_contains (py ": ") content
        then match split_first (py ": ") content with
             | (a, Some b) => (a, b)
             | (a, None) => (a, [])
             end
        else (py "SYSTEM", content) in
      Some {| msg_datetime := dt; msg_sender := sender; msg_text := message |}
    end.
Proof.
  intros Hok Hhd Hlast Hnl Hsp.
  assert (Hok' := Hok). destruct Hok' as (Hdd & Hmm & Hyy & Hhh & Hmi & Hmer).
  destruct (pattern_leads dd mm yyyy hh mi mer content Hok) as (pv & Hlead).
  { destruct content; [exact I|exact Hhd]. }
  { apply Forall_forall. intros c Hc. unfold not_newline.
    destruct (N.eqb_spec c 10) as [->|]; [now elim Hnl|reflexivity]. }
  destruct (normalize_time_mark mer Hmer) as (a & m & Hnorm & Ha & Hm & Hpm).
  rewrite (parse_line_matched dd mm yyyy hh mi mer content nl a m pv) by assumption.
  unfold fields_datetime. now rewrite Hpm.
Qed.

Lemma str_contains_app_r (old a b : str) :
  str_contains old b = true -> str_contains old (a ++ b) = true.
Proof.
  intro H. induction a as [|c a IH]; [exact H|].
  cbn [app str_contains]. rewrite IH. apply orb_true_r.
Qed.

(** [split(": ", 1)] cuts at the end of a sender that holds no ": ". *)
Lemma split_first_sender (sender message : str) :
  str_contains (py ": ") sender = false ->
  split_first (py ": ") (sender ++ py ": " ++ message) = (sender, Some message).
Proof.
  change (py ": ") with [58%N; 32%N]. intro H.
  change ([58%N; 32%N] ++ message) with (58%N :: 32%N :: message).
  induction sender as [|c sender IH].
  - cbn. reflexivity.
  - cbn [app]. pose proof (str_contains_tail_false _ _ _ H) as Htl.
    specialize (IH Htl).
    assert (Hp : is_prefix [58%N; 32%N] (c :: sender ++ 58%N :: 32%N :: message) = false).
    { apply str_contains_prefix_false in H. cbn [is_prefix] in H |- *.
      destruct (cp_eqb 58 c); [|reflexivity]. cbn [andb] in H |- *.
      destruct sender as [|c2 sender']; [reflexivity|].
      cbn [app]. destruct (cp_eqb 32 c2); [discriminate H|reflexivity]. }
    cbn [split_first]. rewrite Hp, IH. reflexivity.
Qed.

(** X14.  A line of an export with well-formed fields and a content of the
    form "sender: message" gives the row of that moment, sender and message:
    the day comes first in the date, 12 a.m. is midnight and 12 p.m. is
    noon, and the message starts after the first ": " of the content.  (The
    hypotheses on blanks say that the sender does not start with a blank
    and that the message is not empty and does not end with one; [nl] is
    the end of the line, made of blanks.) *)
Theorem whatsapp_message_line_gives_its_row
  (dd mm yyyy hh mi mer sender message nl : str) (dt : datetime) :
  fields_ok dd mm yyyy hh mi mer ->
  fields_datetime dd mm yyyy hh mi mer = Some dt ->
  str_contains (py ": ") sender = false ->
  is_space (hd 58%N sender) = false ->
  is_space (last message 32%N) = false ->
  ~ In 10%N (sender ++ py ": " ++ message) ->
  Forall (fun c => is_space c = true) nl ->
  parse_line (export_line dd mm yyyy hh mi mer (sender ++ py ": " ++ message) ++ nl)
  = Some {| msg_datetime := dt; msg_sender := sender; msg_text := message |}.
Proof.
  intros Hok Hdt Hsender Hhd Hlast Hnl Hsp.
  rewrite parse_line_well_formed; try assumption.
  - rewrite Hdt, split_first_sender by assumption.
    rewrite str_contains_app_r; [reflexivity|].
    cbn. reflexivity.
  - destruct sender; [reflexivity|exact Hhd].
  - change (py ": ") with [58%N; 32%N]. destruct message as [|c message'];
      [discriminate Hlast|].
    rewrite app_assoc, last_app_cons. exact Hlast.
Qed.

(** X15.  A line with well-formed fields whose content holds no ": " (a
    notice of the application) gives a row of the sender "SYSTEM" with the
    whole content as message. *)
Theorem whatsapp_line_without_sender_is_system
  (dd mm yyyy hh mi mer content nl : str) (dt : datetime) :
  fields_ok dd mm yyyy hh mi mer ->
  fields_datetime dd mm yyyy hh mi mer = Some dt ->
  str_contains (py ": ") content = false ->
  is_space (hd 32%N content) = false ->
  is_space (last content 32%N) = false ->
  ~ In 10%N content ->
  Forall (fun c => is_space c = true) nl ->
  parse_line (export_line dd mm yyyy hh mi mer content ++ nl)
  = Some {| msg_datetime := dt; msg_sender := py "SYSTEM"; msg_text := content |}.
Proof.
  intros Hok Hdt Hcontent Hhd Hlast Hnl Hsp.
  rewrite parse_line_well_formed by assumption.
  now rewrite Hdt, Hcontent.
Qed.

(** X16.  A line whose fields are well formed but whose day does not exist
    in its month (31/4, or 29/2 of a year that is not a leap year), or whose
    year is 0000, gives no row: [strptime] raises and the line is skipped. *)
Theorem whatsapp_line_of_no_day_gives_no_row
  (dd mm yyyy hh mi mer content nl : str) :
  fields_ok dd mm yyyy hh mi mer ->
  (days_in_month (Strptime.int_of yyyy) (Strptime.int_of mm) < Strptime.int_of dd
   \/ Strptime.int_of yyyy = 0)%N ->
  is_space (hd 32%N content) = false ->
  is_space (last content 32%N) = false ->
  ~ In 10%N content ->
  Forall (fun c => is_space c = true) nl ->
  parse_line (export_line dd mm yyyy hh mi mer content ++ nl) = None.
Proof.
  intros Hok Hday Hhd Hlast Hnl Hsp.
  rewrite parse_line_well_formed by assumption.
  assert (E : fields_datetime dd mm yyyy hh mi mer = None).
  { unfold fields_datetime, make_datetime.
    destruct Hday as [Hday| ->].
    - apply N.leb_gt in Hday. rewrite Hday.
      now rewrite !andb_false_r.
    - reflexivity. }
  now rewrite E.
Qed.

Lemma meridiem_marks_split :
  meridiem_marks = bare_marks ++ map (cons 32%N) bare_marks.
Proof. reflexivity. Qed.

(** The first replacement of the chain removes a narrow no-break space
    at the head of the text. *)
Lemma normalize_time_narrow_blank (s : str) :
  normalize_time (8239%N :: s) = normalize_time s.
Proof. reflexivity. Qed.

(** X10.  The first replacement of the chain (line 61) removes the narrow
    no-break space U+202F: a line with well-formed fields in which this
    blank stands between the minutes and the mark gives what the line gives
    with the mark right after the minutes. *)
Theorem whatsapp_narrow_blank_before_mark_is_removed
  (dd mm yyyy hh mi bare content nl : str) :
  Strptime.digits_in 1 2 1 31 dd = true ->
  Strptime.digits_in 1 2 1 12 mm = true ->
  Strptime.digits_in 4 4 0 9999 yyyy = true ->
  Strptime.digits_in 1 2 1 12 hh = true ->
  Strptime.digits_in 2 2 0 59 mi = true ->
  In bare bare_marks ->
  is_space (hd 32%N content) = false -> is_space (last content 32%N) = false ->
  ~ In 10%N content ->
  Forall (fun c => is_space c = true) nl ->
  parse_line (export_line dd mm yyyy hh mi (8239%N :: bare) content ++ nl)
  = parse_line (export_line dd mm yyyy hh mi bare content ++ nl).
Proof.
  intros Hdd Hmm Hyy Hhh Hmi Hbare Hhd Hlast Hnl Hsp.
  assert (Hmer : In bare meridiem_marks)
    by (rewrite meridiem_marks_split; apply in_or_app; now left).
  assert (Hc : match content with [] => True | c :: _ => is_space c = false end)
    by (destruct content; [exact I|exact Hhd]).
  assert (Hnot : Forall (fun c => not_newline c = true) content).
  { apply Forall_forall. intros c Hin. unfold not_newline.
    destruct (N.eqb_spec c 10) as [->|]; [now elim Hnl|reflexivity]. }
  destruct (normalize_time_mark bare Hmer) as (a & m & Hnorm & Ha & Hm & _).
  pose proof (digits_in_spec _ _ _ _ _ Hdd) as (Hdd1 & Hdd2 & _).
  pose proof (digits_in_spec _ _ _ _ _ Hmm) as (Hmm1 & Hmm2 & _).
  pose proof (digits_in_spec _ _ _ _ _ Hyy) as (Hyy1 & Hyy2 & _).
  pose proof (digits_in_spec _ _ _ _ _ Hhh) as (Hhh1 & Hhh2 & _).
  pose proof (digits_in_spec _ _ _ _ _ Hmi) as (Hmi1 & Hmi2 & _).
  destruct (pattern_leads_shape dd mm yyyy hh mi (8239%N :: bare) content)
    as (pv1 & Hlead1); try assumption; try lia.
  { intros tl pv g. now apply blank_mark_leads. }
  destruct (pattern_leads_shape dd mm yyyy hh mi bare content)
    as (pv2 & Hlead2); try assumption; try lia.
  { intros tl pv g. now apply meridiem_leads. }
  assert (Hnorm1 : normalize_time (8239%N :: bare) = [a; m])
    by now rewrite normalize_time_narrow_blank.
  rewrite (parse_line_matched dd mm yyyy hh mi (8239%N :: bare) content nl a m pv1
             Hdd Hmm Hyy Hhh Hmi Hlead1 Hnorm1 Ha Hm Hhd Hlast Hsp).
  now rewrite (parse_line_matched dd mm yyyy hh mi bare content nl a m pv2
                 Hdd Hmm Hyy Hhh Hmi Hlead2 Hnorm Ha Hm Hhd Hlast Hsp).
Qed.

End WhatsAppRows.

Lemma whatsapp_message_line_witness :
  WhatsApp.parse_line (U := AsciiUnicode) (py "3/1/2022, 12:05 a.m. - Ana: Hola: que tal" ++ [10%N])
  = Some {| msg_datetime := {| year := 2022; month := 1; day := 3;
                               hour := 0; minute := 5; second := 0 |};
            msg_sender := py "Ana";
            msg_text := py "Hola: que tal" |}.
Proof.
  apply (@whatsapp_message_line_gives_its_row AsciiUnicode
           (py "3") (py "1") (py "2022") (py "12") (py "05") (py " a.m.")
           (py "Ana") (py "Hola: que tal") [10%N]).
  - repeat split; try reflexivity. vm_compute. tauto.
  - reflexivity.
  - reflexivity.
  - reflexivity.
  - reflexivity.
  - vm_compute. intuition discriminate.
  - repeat constructor.
Defined.

Lemma whatsapp_line_without_sender_witness :
  WhatsApp.parse_line (U := AsciiUnicode) (py "3/1/2022, 8:31 PM - Ana salio del grupo" ++ [10%N])
  = Some {| msg_datetime := {| year := 2022; month := 1; day := 3;
                               hour := 20; minute := 31; second := 0 |};
            msg_sender := py "SYSTEM";
            msg_text := py "Ana salio del grupo" |}.
Proof.
  apply (@whatsapp_line_without_sender_is_system AsciiUnicode
           (py "3") (py "1") (py "2022") (py "8") (py "31") (py " PM")
           (py "Ana salio del grupo") [10%N]).
  - repeat split; try reflexivity. vm_compute. tauto.
  - reflexivity.
  - reflexivity.
  - reflexivity.
  - reflexivity.
  - vm_compute. intuition discriminate.
  - repeat constructor.
Defined.

Lemma whatsapp_line_of_no_day_witness :
  WhatsApp.parse_line (U := AsciiUnicode) (py "31/4/2022, 10:57 p.m. - Ana: Hola" ++ [10%N])
  = None.
Proof.
  apply (@whatsapp_line_of_no_day_gives_no_row AsciiUnicode
           (py "31") (py "4") (py "2022") (py "10") (py "57") (py " p.m.")
           (py "Ana: Hola") [10%N]).
  - repeat split; try reflexivity. vm_compute. tauto.
  - left. reflexivity.
  - reflexivity.
  - reflexivity.
  - vm_compute. intuition discriminate.
  - repeat constructor.
Defined.

Lemma whatsapp_narrow_blank_witness :
  WhatsApp.parse_line (U := AsciiUnicode)
    (py "3/1/2022, 8:30" ++ [8239%N] ++ py "p.m. - Ana: Hola" ++ [10%N])
  = WhatsApp.parse_line (U := AsciiUnicode) (py "3/1/2022, 8:30p.m. - Ana: Hola" ++ [10%N])
  /\ WhatsApp.parse_line (U := AsciiUnicode) (py "3/1/2022, 8:30p.m. - Ana: Hola" ++ [10%N])
     = Some {| msg_datetime := {| year := 2022; month := 1; day := 3;
                                  hour := 20; minute := 30; second := 0 |};
               msg_sender := py "Ana";
               msg_text := py "Hola" |}.
Proof.
  split; [|reflexivity].
  apply (@whatsapp_narrow_blank_before_mark_is_removed AsciiUnicode
           (py "3") (py "1") (py "2022") (py "8") (py "30") (py "p.m.")
           (py "Ana: Hola") [10%N]); try reflexivity.
  - vm_compute. tauto.
  - vm_compute. intuition discriminate.
  - repeat constructor.
Defined.

(* ------------------------------------------------------------------ *)
(** ** data_parsers.py: the timestamp of a Telegram node               *)
(* ------------------------------------------------------------------ *)

Section TelegramDates.
Context {U : Unicode}.
Import Re Strptime Telegram.

(** ["%d.%m.%Y %H:%M:%S"] on well-formed fields. *)
Lemma strptime_telegram_fields (dd mm yyyy HH MM SS : str) :
  title_ok dd mm yyyy HH MM SS ->
  strptime_telegram (dd ++ 46%N :: mm ++ 46%N :: yyyy ++ 32%N :: HH
                        ++ 58%N :: MM ++ 58%N :: SS)
  = make_datetime (int_of yyyy) (int_of mm) (int_of dd)
                  (int_of HH) (int_of MM) (int_of SS).
Proof.
  intros (Hdd & Hmm & Hyy & HHH & HMM & HSS).
  assert (Hlead : leads format_telegram
            {| rest := dd ++ 46%N :: mm ++ 46%N :: yyyy ++ 32%N :: HH
                          ++ 58%N :: MM ++ 58%N :: SS;
               prev := None; groups := [] |}
            {| rest := []; prev := last (map Some SS) (Some 58%N);
               groups := [(6, SS); (5, MM); (4, HH); (3, yyyy); (2, mm); (1, dd)] |}).
  { pose proof (digits_in_spec _ _ _ _ _ HHH) as (Hlen & Hd & _).
    destruct HH as [|h1 hh']; [simpl in Hlen; lia|].
    assert (Hh1 : is_space h1 = false)
      by (inversion Hd; now apply ascii_digit_not_space).
    cbv [format_telegram seqs fold_right blanks plus chr].
    eapply leads_Seq;
      [eapply (leads_Group 1) with (w := dd);
       [|apply leads_dir_d; [exact Hdd|now right]]; reflexivity|].
    eapply leads_Seq; [apply leads_Chr; reflexivity|].
    eapply leads_Seq;
      [eapply (leads_Group 2) with (w := mm);
       [|apply leads_dir_m; [exact Hmm|now right; left]]; reflexivity|].
    eapply leads_Seq; [apply leads_Chr; reflexivity|].
    eapply leads_Seq;
      [eapply (leads_Group 3) with (w := yyyy); [|apply leads_dir_Y; exact Hyy];
       reflexivity|].
    eapply leads_Seq;
      [apply (leads_rep _ [32%N]); [repeat constructor|cbn; lia|exact I|right; exact Hh1]|].
    eapply leads_Seq;
      [eapply (leads_Group 4) with (w := h1 :: hh'); [|apply leads_dir_H; exact HHH];
       reflexivity|].
    eapply leads_Seq; [apply leads_Chr; reflexivity|].
    eapply leads_Seq;
      [eapply (leads_Group 5) with (w := MM); [|apply leads_dir_M; exact HMM];
       reflexivity|].
    eapply leads_Seq; [apply leads_Chr; reflexivity|].
    eapply leads_Seq;
      [eapply (leads_Group 6) with (w := SS);
       [|rewrite <- (app_nil_r SS) at 1; apply leads_dir_S; exact HSS];
       now rewrite app_nil_r|].
    apply leads_Eps. }
  unfold strptime_telegram. rewrite (match_format_leads _ _ _ _ Hlead).
  pose proof (digits_in_spec _ _ _ _ _ Hdd) as (_ & Hd1 & _).
  pose proof (digits_in_spec _ _ _ _ _ Hmm) as (_ & Hd2 & _).
  pose proof (digits_in_spec _ _ _ _ _ Hyy) as (_ & Hd3 & _).
  pose proof (digits_in_spec _ _ _ _ _ HHH) as (_ & Hd4 & _).
  pose proof (digits_in_spec _ _ _ _ _ HMM) as (_ & Hd5 & _).
  pose proof (digits_in_spec _ _ _ _ _ HSS) as (_ & Hd6 & _).
  set (gs := [(6, SS); (5, MM); (4, HH); (3, yyyy); (2, mm); (1, dd)]).
  now rewrite (group_int_digits gs 1 dd eq_refl Hd1), (group_int_digits gs 2 mm eq_refl Hd2),
    (group_int_digits gs 3 yyyy eq_refl Hd3), (group_int_digits gs 4 HH eq_refl Hd4),
    (group_int_digits gs 5 MM eq_refl Hd5), (group_int_digits gs 6 SS eq_refl Hd6).
Qed.

(** [split(" UTC")[0]] is what stands before the first " UTC". *)
Lemma split_first_utc (stamp offset : str) :
  str_contains (py " UTC") stamp = false ->
  split_first (py " UTC") (stamp ++ py " UTC" ++ offset) = (stamp, Some offset).
Proof.
  change (py " UTC") with [32%N; 85%N; 84%N; 67%N]. intro H.
  change ([32%N; 85%N; 84%N; 67%N] ++ offset) with (32%N :: 85%N :: 84%N :: 67%N :: offset).
  induction stamp as [|c stamp IH].
  - cbn. reflexivity.
  - cbn [app]. pose proof (str_contains_tail_false _ _ _ H) as Htl.
    specialize (IH Htl).
    assert (Hp : is_prefix [32%N; 85%N; 84%N; 67%N]
                   (c :: stamp ++ 32%N :: 85%N :: 84%N :: 67%N :: offset) = false).
    { apply str_contains_prefix_false in H. cbn [is_prefix] in H |- *.
      destruct (cp_eqb 32 c); [|reflexivity]. cbn [andb] in H |- *.
      destruct stamp as [|c2 stamp]; [reflexivity|]. cbn [app].
      destruct (cp_eqb 85 c2); [|reflexivity]. cbn [andb] in H |- *.
      destruct stamp as [|c3 stamp]; [reflexivity|]. cbn [app].
      destruct (cp_eqb 84 c3); [|reflexivity]. cbn [andb] in H |- *.
      destruct stamp as [|c4 stamp]; [reflexivity|]. cbn [app].
      destruct (cp_eqb 67 c4); [discriminate H|reflexivity]. }
    cbn [split_first]. rewrite Hp, IH. reflexivity.
Qed.

Lemma digits_no_U (s : str) :
  Forall (fun c => ascii_digit c = true) s -> Forall (fun c => c <> 85%N) s.
Proof.
  intro H. apply Forall_forall. intros c Hc ->. rewrite Forall_forall in H.
  now specialize (H _ Hc).
Qed.

(** X17.  The title "DD.MM.YYYY HH:MM:SS UTC..." of a node gives the moment
    that its fields denote, day first, when there is such a day (and no
    timestamp otherwise, in which case the node is skipped); what follows
    " UTC" is dropped: the time is taken as written, whatever the offset. *)
Theorem telegram_title_gives_its_moment (dd mm yyyy HH MM SS offset : str) :
  title_ok dd mm yyyy HH MM SS ->
  parse_date (title_of dd mm yyyy HH MM SS offset)
  = make_datetime (int_of yyyy) (int_of mm) (int_of dd)
                  (int_of HH) (int_of MM) (int_of SS).
Proof.
  intros Hok. assert (Hok' := Hok). destruct Hok' as (Hdd & Hmm & Hyy & HHH & HMM & HSS).
  pose proof (digits_in_spec _ _ _ _ _ Hdd) as (Hl1 & Hd1 & _).
  pose proof (digits_in_spec _ _ _ _ _ Hmm) as (_ & Hd2 & _).
  pose proof (digits_in_spec _ _ _ _ _ Hyy) as (_ & Hd3 & _).
  pose proof (digits_in_spec _ _ _ _ _ HHH) as (_ & Hd4 & _).
  pose proof (digits_in_spec _ _ _ _ _ HMM) as (_ & Hd5 & _).
  pose proof (digits_in_spec _ _ _ _ _ HSS) as (Hl6 & Hd6 & _).
  set (stamp := dd ++ 46%N :: mm ++ 46%N :: yyyy ++ 32%N :: HH ++ 58%N :: MM ++ 58%N :: SS).
  assert (Etitle : title_of dd mm yyyy HH MM SS offset = stamp ++ py " UTC" ++ offset).
  { unfold title_of, stamp. change (py ".") with [46%N]. change (py " ") with [32%N].
    change (py ":") with [58%N].
    repeat (rewrite <- app_assoc; cbn [app]). reflexivity. }
  assert (HnoU : ~ In 85%N stamp).
  { unfold stamp. intro Hin.
    repeat (apply in_app_or in Hin as [Hin|Hin];
            [eapply Forall_forall in Hin; [|apply digits_no_U; eassumption]; now elim Hin|];
            destruct Hin as [Hin|Hin]; [discriminate Hin|]).
    eapply Forall_forall in Hin; [|apply digits_no_U; eassumption]. now elim Hin. }
  unfold parse_date. rewrite Etitle, split_first_utc
    by (apply (str_contains_absent _ _ 85%N); [cbn; tauto|exact HnoU]).
  cbn [fst].
  assert (Hs : str_strip stamp = stamp).
  { rewrite <- (app_nil_r stamp) at 1. apply str_strip_core; [| |constructor].
    - destruct dd as [|d1 dd']; [simpl in Hl1; lia|]. unfold stamp. cbn [app hd].
      apply ascii_digit_not_space. now inversion Hd1.
    - destruct SS as [|s1 SS']; [simpl in Hl6; lia|]. unfold stamp.
      assert (E : dd ++ 46%N :: mm ++ 46%N :: yyyy ++ 32%N :: HH ++ 58%N :: MM
                     ++ 58%N :: s1 :: SS'
                  = (dd ++ 46%N :: mm ++ 46%N :: yyyy ++ 32%N :: HH ++ 58%N :: MM ++ [58%N])
                      ++ s1 :: SS')
        by (repeat (rewrite <- app_assoc; cbn [app]); reflexivity).
      rewrite E, last_app_cons.
      apply ascii_digit_not_space.
      assert (Hin : In (last (s1 :: SS') 32%N) (s1 :: SS')).
      { clear. revert s1. induction SS' as [|x SS' IH]; intro s1; [now left|].
        right. apply (IH x). }
      rewrite Forall_forall in Hd6. now apply Hd6. }
  rewrite Hs. apply strptime_telegram_fields. exact Hok.
Qed.

End TelegramDates.

Lemma telegram_title_gives_its_moment_witness :
  Telegram.parse_date (U := AsciiUnicode) (py "03.01.2022 18:33:10 UTC-05:00")
  = Some (tg_time 18 33 10).
Proof.
  apply (@telegram_title_gives_its_moment AsciiUnicode
           (py "03") (py "01") (py "2022") (py "18") (py "33") (py "10") (py "-05:00")).
  repeat split; reflexivity.
Defined.

(* ------------------------------------------------------------------ *)
(** ** data_parsers.py: lines that give no row                         *)
(* ------------------------------------------------------------------ *)

Section WhatsAppNoRow.
Context {U : Unicode}.
Import Re WhatsApp.

(** A repetition that has to read a character of the class finds none. *)
Lemma rmatch_rep_none (p : codepoint -> bool) (lo : nat) (hi : option nat) K st :
  1 <= lo ->
  match rest st with [] => True | c :: _ => p c = false end ->
  rmatch (Rep (Chr p) lo hi) K st = None.
Proof.
  intros Hlo Hc. rewrite rmatch_Rep. cbn [rep].
  assert (Hbody : forall k, rmatch (Chr p) k st = None).
  { intro k. rewrite rmatch_Chr. destruct (rest st); [reflexivity|now rewrite Hc]. }
  rewrite Hbody. destruct hi as [[|h]|]; destruct lo; try lia; reflexivity.
Qed.

Lemma rmatch_Bol_start (k : mstate -> option mstate) (s : str) g :
  rmatch Bol k {| rest := s; prev := None; groups := g |}
  = k {| rest := s; prev := None; groups := g |}.
Proof. reflexivity. Qed.

Lemma rmatch_Eps (k : mstate -> option mstate) st : rmatch Eps k st = k st.
Proof. reflexivity. Qed.

(** X18.  A line that does not start (after blanks) with a digit gives no
    row: this is what happens to the second and later lines of a message
    written on several lines, whose text is thus left out of the result. *)
Theorem whatsapp_line_without_date_gives_no_row (line : str) :
  match str_strip line with
  | [] => True
  | c :: _ => is_digit c = false
  end ->
  parse_line line = None.
Proof.
  intro H. unfold parse_line, re_match, match_here.
  cbv [pattern seqs fold_right times d].
  rewrite rmatch_Seq, rmatch_Bol_start, rmatch_Seq, rmatch_Group, rmatch_Seq.
  rewrite rmatch_rep_none; [reflexivity|lia|exact H].
Qed.

(** A greedy repetition followed by something that fails after the whole
    run and after every shorter one. *)
Lemma rep_kills (p : codepoint -> bool) (K : mstate -> option mstate)
      (w tl : str) (lo : nat) (hi : option nat) (pv : option codepoint)
      (g : list (nat * str)) :
  Forall (fun c => p c = true) w ->
  lo <= length w -> within hi (length w) -> run_ends p hi (length w) tl ->
  K {| rest := tl; prev := last (map Some w) pv; groups := g |} = None ->
  (forall w1 c w2,
      w = w1 ++ c :: w2 -> lo <= length w1 ->
      K {| rest := c :: w2 ++ tl; prev := last (map Some w1) pv; groups := g |} = None) ->
  rmatch (Rep (Chr p) lo hi) K {| rest := w ++ tl; prev := pv; groups := g |} = None.
Proof.
  intros Hw Hlo Hhi Hend Hfinal Hinter.
  rewrite rmatch_rep_chr_first; try assumption.
  intros w1 c w2 E Hlo1 _. now apply Hinter.
Qed.

Lemma seq_chr_mismatch (sep c : codepoint) (R : regex) K (tl : str) pv g :
  cp_eqb sep c = false ->
  rmatch (Seq (Chr (cp_eqb sep)) R) K {| rest := c :: tl; prev := pv; groups := g |} = None.
Proof. intro H. rewrite rmatch_Seq, rmatch_Chr. cbn [rest]. now rewrite H. Qed.

Lemma seq_chr_step (p : codepoint -> bool) (c : codepoint) (R : regex) K (tl : str) pv g :
  p c = true ->
  rmatch (Seq (Chr p) R) K {| rest := c :: tl; prev := pv; groups := g |}
  = rmatch R K {| rest := tl; prev := Some c; groups := g |}.
Proof. intro H. rewrite rmatch_Seq, rmatch_Chr. cbn [rest]. now rewrite H. Qed.

Lemma digit_in_run_not (sep : codepoint) (w w1 w2 : str) (c : codepoint) :
  Forall (fun c => is_digit c = true) w -> is_digit sep = false ->
  w = w1 ++ c :: w2 -> cp_eqb sep c = false.
Proof.
  intros Hw Hsep ->. apply Forall_elt in Hw. unfold cp_eqb.
  destruct (N.eqb_spec sep c) as [->|]; [congruence|reflexivity].
Qed.

(** X19.  A line in the 24-hour format, "D/M/YYYY, H:MM - content" with
    no meridiem mark, gives no row, whatever its content: the pattern asks
    for "a" or "p" after the minutes. *)
Theorem whatsapp_24_hour_line_gives_no_row (dd mm yyyy hh mi content nl : str) :
  Strptime.digits_in 1 2 0 99 dd = true ->
  Strptime.digits_in 1 2 0 99 mm = true ->
  Strptime.digits_in 4 4 0 9999 yyyy = true ->
  Strptime.digits_in 1 2 0 99 hh = true ->
  Strptime.digits_in 2 2 0 99 mi = true ->
  is_space (last content 32%N) = false ->
  Forall (fun c => is_space c = true) nl ->
  parse_line (export_line dd mm yyyy hh mi [] content ++ nl) = None.
Proof.
  intros Hdd Hmm Hyy Hhh Hmi Hlast Hsp.
  apply digits_in_spec in Hdd as (Hdd1 & Hdd2 & _).
  apply digits_in_spec in Hmm as (Hmm1 & Hmm2 & _).
  apply digits_in_spec in Hyy as (Hyy1 & Hyy2 & _).
  apply digits_in_spec in Hhh as (Hhh1 & Hhh2 & _).
  apply digits_in_spec in Hmi as (Hmi1 & Hmi2 & _).
  unfold parse_line.
  assert (Hstrip : str_strip (export_line dd mm yyyy hh mi [] content ++ nl)
                   = export_line dd mm yyyy hh mi [] content).
  { apply str_strip_core; [| |exact Hsp].
    - destruct dd as [|d1 dd']; [simpl in Hdd1; lia|].
      cbn [export_line app hd]. apply ascii_digit_not_space. now inversion Hdd2.
    - destruct content as [|c content']; [discriminate Hlast|].
      unfold export_line. change (py " - ") with [32%N; 45%N; 32%N].
      rewrite !app_assoc. rewrite last_app_cons. exact Hlast. }
  rewrite Hstrip. clear Hstrip.
  destruct hh as [|h1 hh']; [simpl in Hhh1; lia|].
  assert (Hh1 : is_space h1 = false)
    by (inversion Hhh2; now apply ascii_digit_not_space).
  apply digits_Forall_is_digit in Hdd2, Hmm2, Hyy2, Hhh2, Hmi2.
  assert (Hnone : rmatch pattern Some
                    {| rest := export_line dd mm yyyy (h1 :: hh') mi [] content;
                       prev := None; groups := [] |} = None).
  { cbv [export_line pattern seqs fold_right times d s_star s_opt star opt chr chr_ci].
    change (py "/") with [47%N]. change (py ", ") with [44%N; 32%N].
    change (py ":") with [58%N]. change (py " - ") with [32%N; 45%N; 32%N].
    cbn [app].
    rewrite rmatch_Seq, rmatch_Bol_start, rmatch_Seq, rmatch_Group, rmatch_Seq.
    apply (rep_kills _ _ dd); [assumption|lia|exact (proj2 Hdd1)|now right| |].
    2: { intros w1 c w2 E _. apply seq_chr_mismatch.
         now apply (digit_in_run_not 47%N dd w1 w2). }
    rewrite seq_chr_step by reflexivity. rewrite rmatch_Seq.
    apply (rep_kills _ _ mm); [assumption|lia|exact (proj2 Hmm1)|now right| |].
    2: { intros w1 c w2 E _. apply seq_chr_mismatch.
         now apply (digit_in_run_not 47%N mm w1 w2). }
    rewrite seq_chr_step by reflexivity. rewrite rmatch_Seq.
    apply (rep_kills _ _ yyyy); [assumption|lia|exact (proj2 Hyy1)|now right| |].
    2: { intros w1 c w2 E Hlo. apply (f_equal (@length _)) in E.
         rewrite length_app in E. cbn [length] in E. lia. }
    rewrite rmatch_Eps. cbv beta. unfold group_set. cbn [rest prev groups].
    rewrite seq_chr_step by reflexivity. rewrite rmatch_Seq.
    apply (rep_kills _ _ [32%N]); [repeat constructor|cbn; lia|exact I|right; exact Hh1| |].
    2: { intros w1 c w2 E _. destruct w1 as [|x [|y w1]]; try discriminate E.
         injection E as <- <-. cbn [app].
         rewrite rmatch_Seq, rmatch_Group, rmatch_Seq.
         now apply rmatch_rep_none; [lia|]. }
    rewrite rmatch_Seq, rmatch_Group, rmatch_Seq.
    apply (rep_kills _ _ (h1 :: hh')); [assumption|cbn [length] in *; lia
                                       |exact (proj2 Hhh1)|now right| |].
    2: { intros w1 c w2 E _. apply seq_chr_mismatch.
         now apply (digit_in_run_not 58%N (h1 :: hh') w1 w2). }
    rewrite seq_chr_step by reflexivity. rewrite rmatch_Seq.
    apply (rep_kills _ _ mi); [assumption|lia|exact (proj2 Hmi1)|left; f_equal; lia| |].
    2: { intros w1 c w2 E Hlo. apply (f_equal (@length _)) in E.
         rewrite length_app in E. cbn [length] in E. lia. }
    rewrite rmatch_Seq.
    apply (rep_kills _ _ [32%N]); [repeat constructor|cbn; lia|cbn; lia|now left| |].
    - now rewrite rmatch_Seq, rmatch_Chr.
    - intros w1 c w2 E _. destruct w1 as [|x [|y w1]]; try discriminate E.
      injection E as <- <-. now rewrite rmatch_Seq, rmatch_Chr. }
  unfold re_match, match_here. now rewrite Hnone.
Qed.

End WhatsAppNoRow.

Lemma whatsapp_line_without_date_witness :
  WhatsApp.parse_line (U := AsciiUnicode) (py "y luego vamos al cine" ++ [10%N]) = None.
Proof.
  apply (@whatsapp_line_without_date_gives_no_row AsciiUnicode). reflexivity.
Defined.

Lemma whatsapp_24_hour_line_witness :
  WhatsApp.parse_line (U := AsciiUnicode) (py "3/1/2022, 18:30 - Ana: Hola" ++ [10%N]) = None.
Proof.
  apply (@whatsapp_24_hour_line_gives_no_row AsciiUnicode
           (py "3") (py "1") (py "2022") (py "18") (py "30") (py "Ana: Hola") [10%N]);
    try reflexivity.
  repeat constructor.
Defined.

(* ------------------------------------------------------------------ *)
(** ** strptime: what else a directive could read                      *)
(* ------------------------------------------------------------------ *)

Section DirectivesExact.
Context {U : Unicode}.
Import Re Strptime.

Ltac digit_cases H :=
  apply ascii_digit_cases in H;
  destruct H as [->|[->|[->|[->|[->|[->|[->|[->|[->| ->]]]]]]]]].

Ltac field_cases s H :=
  let Hs := fresh "Hs" in
  pose proof (digits_in_spec _ _ _ _ _ H) as (Hs & _ & _);
  destruct s as [|?c1 [|?c2 [|?c3 ?s']]]; cbn [length] in Hs; try lia; clear Hs;
  let Hd := fresh "Hd" in
  pose proof (digits_in_spec _ _ _ _ _ H) as (_ & Hd & _);
  repeat match goal with
         | Hd : Forall _ (_ :: _) |- _ =>
           let H1 := fresh "H1" in
           let Ht := fresh "Ht" in
           inversion Hd as [|? ? H1 Ht]; subst; clear Hd; digit_cases H1;
           try (vm_compute in H; discriminate H)
         | Hd : Forall _ [] |- _ => clear Hd
         end.

(** The other ways a directive can read a field leave a digit of the field
    to be read next; when what follows fails there, the directive has read
    the whole field. *)
Ltac directive_exact HK :=
  cbn; unfold advance; cbn [rest prev groups];
  repeat match goal with
         | |- context [?K {| rest := ?c :: ?t; prev := ?p; groups := ?g' |}] =>
           rewrite (HK c t p g' eq_refl)
         end;
  match goal with
  | |- context [match ?x with Some _ => _ | None => _ end] => destruct x; reflexivity
  | _ => reflexivity
  end.

Lemma dir_d_exact (dd : str) (sep : codepoint) (tl : str) pv g K :
  digits_in 1 2 1 31 dd = true -> sep = 47%N \/ sep = 46%N ->
  (forall c tl' pv' g', ascii_digit c = true ->
     K {| rest := c :: tl'; prev := pv'; groups := g' |} = None) ->
  rmatch dir_d K {| rest := dd ++ sep :: tl; prev := pv; groups := g |}
  = K {| rest := sep :: tl; prev := last (map Some dd) pv; groups := g |}.
Proof.
  intros H Hsep HK. field_cases dd H; destruct Hsep as [-> | ->]; directive_exact HK.
Qed.

Lemma dir_m_exact (mm : str) (sep : codepoint) (tl : str) pv g K :
  digits_in 1 2 1 12 mm = true -> sep = 47%N \/ sep = 46%N \/ sep = 58%N ->
  (forall c tl' pv' g', ascii_digit c = true ->
     K {| rest := c :: tl'; prev := pv'; groups := g' |} = None) ->
  rmatch dir_m K {| rest := mm ++ sep :: tl; prev := pv; groups := g |}
  = K {| rest := sep :: tl; prev := last (map Some mm) pv; groups := g |}.
Proof.
  intros H Hsep HK. field_cases mm H; destruct Hsep as [-> | [-> | ->]];
    directive_exact HK.
Qed.

Lemma blank_not_mark_letter (b : codepoint) :
  is_space b = true ->
  (b =? 97)%N = false /\ (b =? 65)%N = false /\ (b =? 112)%N = false /\ (b =? 80)%N = false.
Proof.
  intro H. repeat split;
    match goal with
    | |- (b =? ?n)%N = false =>
      destruct (N.eqb_spec b n) as [->|]; [discriminate H|reflexivity]
    end.
Qed.

(** After the minutes a blank stands where ["%p"] has to read. *)
Lemma dir_M_then_blank (mi : str) (b : codepoint) (tl : str) pv g R K :
  digits_in 2 2 0 59 mi = true -> is_space b = true ->
  rmatch (Seq (Group 5 dir_M) (Seq (Group 6 dir_p) R)) K
         {| rest := mi ++ b :: tl; prev := pv; groups := g |} = None.
Proof.
  intros H Hb. destruct (blank_not_mark_letter b Hb) as (H1 & H2 & H3 & H4).
  field_cases mi H; cbn; unfold cp_eqb; rewrite H1, H2, H3, H4; reflexivity.
Qed.

Lemma dir_Y_exact (yyyy : str) (tl : str) pv g K :
  digits_in 4 4 0 9999 yyyy = true ->
  rmatch dir_Y K {| rest := yyyy ++ tl; prev := pv; groups := g |}
  = K {| rest := tl; prev := last (map Some yyyy) pv; groups := g |}.
Proof.
  intro H. apply digits_in_spec in H as (Hlen & Hd & _).
  destruct yyyy as [|y1 [|y2 [|y3 [|y4 [|]]]]]; cbn [length] in Hlen; try lia.
  apply digits_Forall_is_digit in Hd.
  pose proof (Forall_inv Hd) as Hy1.
  pose proof (Forall_inv (Forall_inv_tail Hd)) as Hy2.
  pose proof (Forall_inv (Forall_inv_tail (Forall_inv_tail Hd))) as Hy3.
  pose proof (Forall_inv (Forall_inv_tail (Forall_inv_tail (Forall_inv_tail Hd)))) as Hy4.
  cbv beta in Hy1, Hy2, Hy3, Hy4.
  cbv [dir_Y seqs fold_right d]. cbn [app map last].
  rewrite (seq_chr_step _ y1) by exact Hy1. rewrite (seq_chr_step _ y2) by exact Hy2.
  rewrite (seq_chr_step _ y3) by exact Hy3. rewrite (seq_chr_step _ y4) by exact Hy4.
  apply rmatch_Eps.
Qed.

(** ["%d/%m/%Y %I:%M%p"] does not match when a blank follows the minutes. *)
Lemma strptime_whatsapp_blank (dd mm yyyy hh mi : str) (b : codepoint) (tl : str) :
  digits_in 1 2 1 31 dd = true -> digits_in 1 2 1 12 mm = true ->
  digits_in 4 4 0 9999 yyyy = true ->
  digits_in 1 2 1 12 hh = true -> digits_in 2 2 0 59 mi = true ->
  is_space b = true ->
  strptime_whatsapp (dd ++ 47%N :: mm ++ 47%N :: yyyy ++ 32%N :: hh
                        ++ 58%N :: mi ++ b :: tl) = None.
Proof.
  intros Hdd Hmm Hyy Hhh Hmi Hb.
  assert (Hmis : forall (sep : codepoint) (R : regex) (k : mstate -> option mstate)
                        (st : mstate) c tl',
             rest st = c :: tl' -> ascii_digit sep = false -> ascii_digit c = true ->
             rmatch (Seq (Chr (cp_eqb sep)) R) k st = None).
  { intros sep R k st c tl' Hrest Hsep Hc. rewrite rmatch_Seq, rmatch_Chr, Hrest.
    unfold cp_eqb. destruct (N.eqb_spec sep c) as [->|]; [congruence|reflexivity]. }
  assert (Hnone : rmatch format_whatsapp Some
                    {| rest := dd ++ 47%N :: mm ++ 47%N :: yyyy ++ 32%N :: hh
                                  ++ 58%N :: mi ++ b :: tl;
                       prev := None; groups := [] |} = None).
  { pose proof (digits_in_spec _ _ _ _ _ Hhh) as (Hlen & Hd & _).
    destruct hh as [|h1 hh']; [simpl in Hlen; lia|].
    assert (Hh1 : is_space h1 = false)
      by (inversion Hd; now apply ascii_digit_not_space).
    cbv [format_whatsapp seqs fold_right blanks plus chr dir_I].
    rewrite rmatch_Seq, rmatch_Group.
    rewrite dir_d_exact; [|exact Hdd|now left|intros c0 tl0 pv0 g0 Hc0; now apply (Hmis _ _ _ _ c0 tl0)].
    unfold group_set. cbn [rest prev groups].
    rewrite seq_chr_step by reflexivity.
    rewrite rmatch_Seq, rmatch_Group.
    rewrite dir_m_exact; [|exact Hmm|now left|intros c0 tl0 pv0 g0 Hc0; now apply (Hmis _ _ _ _ c0 tl0)].
    unfold group_set. cbn [rest prev groups].
    rewrite seq_chr_step by reflexivity.
    rewrite rmatch_Seq, rmatch_Group.
    rewrite dir_Y_exact by exact Hyy.
    unfold group_set. cbn [rest prev groups].
    rewrite rmatch_Seq.
    change (32%N :: (h1 :: hh') ++ 58%N :: mi ++ b :: tl)
      with ([32%N] ++ (h1 :: hh') ++ 58%N :: mi ++ b :: tl).
    rewrite rmatch_rep_chr_first;
      [|repeat constructor|cbn; lia|exact I|right; exact Hh1|].
    2: { intros w1 c w2 E Hlo. destruct w1 as [|x [|y w1]]; try discriminate E.
         simpl in Hlo. lia. }
    rewrite rmatch_Seq, rmatch_Group.
    rewrite dir_m_exact; [|exact Hhh|now right; right|intros c0 tl0 pv0 g0 Hc0; now apply (Hmis _ _ _ _ c0 tl0)].
    unfold group_set. cbn [rest prev groups].
    rewrite seq_chr_step by reflexivity.
    now apply dir_M_then_blank. }
  unfold strptime_whatsapp, match_format, re_match, match_here. now rewrite Hnone.
Qed.

End DirectivesExact.

Section WhatsAppOtherBlank.
Context {U : Unicode}.
Import Re WhatsApp.

(** X20.  A line with well-formed fields whose meridiem mark stands after a
    blank that is neither U+0020 nor U+202F (a no-break space U+00A0, a
    tab) gives no row: the pattern accepts the blank, the chain of
    replacements removes U+202F and U+0020 only, and [strptime] then finds
    the blank where it expects the mark. *)
Theorem whatsapp_line_with_other_blank_gives_no_row
  (dd mm yyyy hh mi bare content nl : str) (b : codepoint) :
  Strptime.digits_in 1 2 1 31 dd = true ->
  Strptime.digits_in 1 2 1 12 mm = true ->
  Strptime.digits_in 4 4 0 9999 yyyy = true ->
  Strptime.digits_in 1 2 1 12 hh = true ->
  Strptime.digits_in 2 2 0 59 mi = true ->
  In bare bare_marks ->
  is_space b = true -> b <> 32%N -> b <> 8239%N ->
  is_space (hd 32%N content) = false -> is_space (last content 32%N) = false ->
  ~ In 10%N content ->
  Forall (fun c => is_space c = true) nl ->
  parse_line (export_line dd mm yyyy hh mi (b :: bare) content ++ nl) = None.
Proof.
  intros Hdd Hmm Hyy Hhh Hmi Hbare Hb Hb32 Hb8239 Hhd Hlast Hnl Hsp.
  pose proof (digits_in_spec _ _ _ _ _ Hdd) as (Hdd1 & Hdd2 & _).
  pose proof (digits_in_spec _ _ _ _ _ Hmm) as (Hmm1 & Hmm2 & _).
  pose proof (digits_in_spec _ _ _ _ _ Hyy) as (Hyy1 & Hyy2 & _).
  pose proof (digits_in_spec _ _ _ _ _ Hhh) as (Hhh1 & Hhh2 & _).
  pose proof (digits_in_spec _ _ _ _ _ Hmi) as (Hmi1 & Hmi2 & _).
  unfold parse_line.
  assert (Hstrip : str_strip (export_line dd mm yyyy hh mi (b :: bare) content ++ nl)
                   = export_line dd mm yyyy hh mi (b :: bare) content).
  { apply str_strip_core; [| |exact Hsp].
    - destruct dd as [|d1 dd']; [simpl in Hdd1; lia|].
      cbn [export_line app hd]. apply ascii_digit_not_space. now inversion Hdd2.
    - destruct content as [|c content']; [discriminate Hhd|].
      unfold export_line. change (py " - ") with [32%N; 45%N; 32%N].
      rewrite !app_assoc. rewrite last_app_cons. exact Hlast. }
  rewrite Hstrip.
  destruct (pattern_leads_shape dd mm yyyy hh mi (b :: bare) content) as (pv & Hlead);
    try assumption; try lia.
  { intros tl pv g. now apply blank_mark_leads. }
  { destruct content; [exact I|exact Hhd]. }
  { apply Forall_forall. intros c Hc. unfold not_newline.
    destruct (N.eqb_spec c 10) as [->|]; [now elim Hnl|reflexivity]. }
  unfold re_match, match_here. rewrite (Hlead Some _ eq_refl).
  cbn [groups group_text group_get Nat.eqb].
  assert (Htime : exists tl, normalize_time (hh ++ py ":" ++ mi ++ b :: bare)
                             = hh ++ 58%N :: mi ++ b :: tl).
  { exists (normalize_time bare). change (py ":") with [58%N]. cbn [app].
    rewrite normalize_time_skip
      by (apply Forall_forall; intros c Hc; rewrite Forall_forall in Hhh2;
          now apply digit_not_mark, Hhh2).
    f_equal. change (58%N :: mi ++ b :: bare) with ([58%N] ++ mi ++ b :: bare).
    rewrite (normalize_time_skip [58%N]) by (repeat constructor; discriminate).
    cbn [app]. f_equal.
    rewrite normalize_time_skip
      by (apply Forall_forall; intros c Hc; rewrite Forall_forall in Hmi2;
          now apply digit_not_mark, Hmi2).
    f_equal. change (b :: bare) with ([b] ++ bare).
    rewrite normalize_time_skip; [reflexivity|].
    repeat constructor; try assumption; intros ->; discriminate Hb. }
  destruct Htime as (tl & ->).
  assert (Hdata : (dd ++ py "/" ++ mm ++ py "/" ++ yyyy) ++ py " " ++ hh ++ 58%N :: mi ++ b :: tl
                  = dd ++ 47%N :: mm ++ 47%N :: yyyy ++ 32%N :: hh ++ 58%N :: mi ++ b :: tl).
  { change (py "/") with [47%N]. change (py " ") with [32%N].
    repeat (rewrite <- app_assoc; cbn [app]). reflexivity. }
  rewrite Hdata.
  now rewrite (strptime_whatsapp_blank dd mm yyyy hh mi b tl Hdd Hmm Hyy Hhh Hmi Hb).
Qed.

End WhatsAppOtherBlank.

Lemma whatsapp_line_with_other_blank_witness :
  WhatsApp.parse_line (U := AsciiUnicode)
    (py "3/1/2022, 8:30" ++ [160%N] ++ py "PM - Ana: Hola" ++ [10%N]) = None.
Proof.
  apply (@whatsapp_line_with_other_blank_gives_no_row AsciiUnicode
           (py "3") (py "1") (py "2022") (py "8") (py "30") (py "PM")
           (py "Ana: Hola") [10%N] 160%N); try reflexivity.
  - vm_compute. tauto.
  - discriminate.
  - discriminate.
  - vm_compute. intuition discriminate.
  - repeat constructor.
Defined.

(* ------------------------------------------------------------------ *)
(** ** text_cleaning.py: extract_emojis                                *)
(* ------------------------------------------------------------------ *)

Section EmojiFacts.
Context {U : Unicode}.
Import Re TextCleaning.

Lemma is_space_small (c : codepoint) : is_space c = true -> (c <= 12288)%N.
Proof.
  unfold is_space.
  rewrite !orb_true_iff, !andb_true_iff, !N.leb_le, !N.eqb_eq. lia.
Qed.

Lemma is_emoji_large (c : codepoint) : is_emoji c = true -> (127456 <= c)%N.
Proof.
  unfold is_emoji, range.
  rewrite !orb_true_iff, !andb_true_iff, !N.leb_le. lia.
Qed.

Lemma space_not_emoji (c : codepoint) : is_space c = true -> is_emoji c = false.
Proof.
  intro H. apply is_space_small in H.
  destruct (is_emoji c) eqn:E; [|reflexivity].
  apply is_emoji_large in E. lia.
Qed.

Lemma filter_emoji_all_space (s : str) :
  Forall (fun c => is_space c = true) s -> filter is_emoji s = [].
Proof.
  induction 1 as [|c s Hc _ IH]; [reflexivity|].
  cbn [filter]. now rewrite (space_not_emoji c Hc).
Qed.

(** [extract_emojis] keeps the emoji characters, in their order. *)
Lemma extract_emojis_filter (text : str) :
  extract_emojis text = filter is_emoji text.
Proof.
  unfold extract_emojis. destruct (str_strip text) as [|c tl] eqn:E.
  - symmetry. apply filter_emoji_all_space. now apply str_strip_nil_all_space.
  - unfold re_findall, EMOJI_PATTERN. apply findall_from_plus_concat. apply Nat.le_refl.
Qed.

Lemma filter_idem (p : codepoint -> bool) (s : str) : filter p (filter p s) = filter p s.
Proof.
  induction s as [|c s IH]; [reflexivity|]. cbn [filter].
  destruct (p c) eqn:E; [|exact IH]. cbn [filter]. now rewrite E, IH.
Qed.

(** C8.  [extract_emojis] is idempotent; its result is the concatenation of
    the matches of [EMOJI_PATTERN] in the text, in order, that is, the
    emoji characters of the text in the order in which they occur; and it
    is the empty string for a text without emoji, in particular for an
    empty text or one made of blanks. *)
Theorem extract_emojis_idempotent_in_order (text : str) :
  extract_emojis (extract_emojis text) = extract_emojis text
  /\ extract_emojis text = filter is_emoji text
  /\ (str_strip text <> [] ->
      extract_emojis text = concat (re_findall EMOJI_PATTERN text))
  /\ (Forall (fun c => is_emoji c = false) text -> extract_emojis text = [])
  /\ (str_strip text = [] -> extract_emojis text = []).
Proof.
  repeat split.
  - rewrite !extract_emojis_filter. apply filter_idem.
  - apply extract_emojis_filter.
  - intro H. unfold extract_emojis. destruct (str_strip text); [now elim H|reflexivity].
  - intro H. rewrite extract_emojis_filter.
    induction H as [|c s Hc _ IH]; [reflexivity|]. cbn [filter]. now rewrite Hc.
  - intro H. unfold extract_emojis. now rewrite H.
Qed.

End EmojiFacts.

Lemma extract_emojis_idempotent_witness :
  TextCleaning.extract_emojis (U := AsciiUnicode) (py "Hola 😀😀 que 🚀 tal")
  = concat (Re.re_findall (U := AsciiUnicode) TextCleaning.EMOJI_PATTERN
                          (py "Hola 😀😀 que 🚀 tal"))
  /\ TextCleaning.extract_emojis (U := AsciiUnicode) (py "Hola 😀😀 que 🚀 tal")
     = py "😀😀🚀".
Proof.
  split.
  - apply (proj1 (proj2 (proj2 (@extract_emojis_idempotent_in_order AsciiUnicode
                                  (py "Hola 😀😀 que 🚀 tal"))))).
    discriminate.
  - reflexivity.
Defined.
(* ------------------------------------------------------------------ *)
(** ** text_cleaning.py: the text handed to the linguistic model       *)
(* ------------------------------------------------------------------ *)

Section NormalizeFacts.
Context {U : Unicode}.
Import Re TextCleaning.

Lemma re_sub_empty_Forall (P : codepoint -> Prop) (r : regex) (s : str) :
  Forall P s -> Forall P (re_sub r empty s).
Proof. intro H. apply (re_sub_const_Forall P r [] s); [constructor|exact H]. Qed.

Lemma re_sub_space_Forall (P : codepoint -> Prop) (r : regex) (s : str) :
  P 32%N -> Forall P s -> Forall P (re_sub r space s).
Proof.
  intros H32 H. apply (re_sub_const_Forall P r [32%N] s); [|exact H].
  constructor; [exact H32|constructor].
Qed.

Lemma first_step_no_newline (text : str) : Forall (fun c => c <> 10%N) (first_step text).
Proof.
  unfold first_step. rewrite !str_replace_char.
  apply Forall_forall. intros c Hc.
  apply in_map_iff in Hc as (y & <- & Hy).
  apply in_map_iff in Hy as (x & <- & _).
  unfold cp_eqb. destruct (N.eqb_spec 10 x) as [<-|Hx].
  - now cbn.
  - destruct (N.eqb_spec 13 x); [discriminate|]. congruence.
Qed.

Lemma first_step_chars (text : str) :
  Forall (fun c => In c (str_lower text) \/ c = 32%N) (first_step text).
Proof.
  unfold first_step. rewrite !str_replace_char.
  apply Forall_forall. intros c Hc.
  apply in_map_iff in Hc as (y & <- & Hy).
  apply in_map_iff in Hy as (x & <- & Hx).
  destruct (cp_eqb 10 x).
  - right. reflexivity.
  - destruct (cp_eqb 13 x); [now right|now left].
Qed.

(** Steps 2 to 9 only remove characters, put spaces, or keep the first
    character of a run. *)
Lemma cascade_Forall (P : codepoint -> Prop) (text : str) :
  P 32%N -> Forall P (first_step text) -> Forall P (normalize text).
Proof.
  intros H32 H. unfold normalize. fold (first_step text).
  apply (Forall_factor P _ _ (str_strip_factor _)).
  apply re_sub_space_Forall; [exact H32|].
  apply sub_repeated_Forall.
  apply re_sub_space_Forall; [exact H32|].
  do 6 apply re_sub_empty_Forall. exact H.
Qed.

Lemma word_or_space_not_at (c : codepoint) :
  is_word c || is_space c = true -> c <> 64%N.
Proof. intros H ->. discriminate H. Qed.

(** What holds of the text after step 9. *)
Lemma normalize_props (text : str) :
  no_run3 (normalize text)
  /\ single_spaced (normalize text)
  /\ Forall (fun c => is_emoji c = false) (normalize text)
  /\ Forall (fun c => c <> 64%N) (normalize text)
  /\ Forall (fun c => In c (str_lower text) \/ c = 32%N) (normalize text).
Proof.
  pose proof (first_step_no_newline text) as Hnl.
  pose proof (first_step_chars text) as Hch.
  assert (Hcasc := fun P => cascade_Forall P text).
  unfold normalize in *. fold (first_step text) in *.
  set (t2 := re_sub URL_PATTERN empty (first_step text)) in *.
  set (t3 := re_sub EMOJI_PATTERN empty t2) in *.
  set (t6 := re_sub TIME_PATTERN empty
               (re_sub DATE_PATTERN empty
                  (re_sub PHONE_PATTERN empty (re_sub MENTION_PATTERN empty t3)))) in *.
  set (t7 := re_sub NOT_WORD_NOR_SPACE space t6) in *.
  set (t8 := re_sub REPEATED_CHARS group1 t7) in *.
  set (t9 := re_sub SPACES space t8) in *.
  assert (H3 : Forall (fun c => is_emoji c = false) t3).
  { unfold t3, re_sub, EMOJI_PATTERN, empty.
    rewrite sub_from_plus_empty by apply Nat.le_refl.
    apply Forall_forall. intros c Hc. apply filter_In in Hc as [_ Hc].
    now destruct (is_emoji c). }
  assert (H6 : Forall (fun c => is_emoji c = false) t6).
  { unfold t6. do 4 apply re_sub_empty_Forall. exact H3. }
  assert (H6nl : Forall (fun c => c <> 10%N) t6).
  { unfold t6, t3, t2. do 6 apply re_sub_empty_Forall. exact Hnl. }
  assert (H7 : t7 = map (fun c => if negb (is_word c || is_space c) then 32%N else c) t6).
  { unfold t7, re_sub, NOT_WORD_NOR_SPACE, space.
    apply sub_from_Chr. apply Nat.le_refl. }
  assert (H7nl : Forall (fun c => c <> 10%N) t7).
  { rewrite H7. apply Forall_forall. intros c Hc.
    apply in_map_iff in Hc as (x & <- & Hx).
    rewrite Forall_forall in H6nl.
    destruct (negb _); [discriminate|now apply H6nl]. }
  assert (H7at : Forall (fun c => c <> 64%N) t7).
  { rewrite H7. apply Forall_forall. intros c Hc.
    apply in_map_iff in Hc as (x & <- & Hx).
    destruct (is_word x || is_space x) eqn:E; cbn [negb];
      [now apply word_or_space_not_at|discriminate]. }
  assert (H7em : Forall (fun c => is_emoji c = false) t7).
  { rewrite H7. apply Forall_forall. intros c Hc.
    apply in_map_iff in Hc as (x & <- & Hx).
    rewrite Forall_forall in H6.
    destruct (negb _); [reflexivity|now apply H6]. }
  destruct (sub_repeated_no_run3 (length t7) None t7 (Nat.le_refl _) H7nl) as [H8 _].
  fold (re_sub REPEATED_CHARS group1 t7) in H8. fold t8 in H8.
  destruct (sub_spaces_props (length t8) None t8 (Nat.le_refl _) H8) as (H9 & _ & H9s & _).
  fold (re_sub SPACES space t8) in H9, H9s. fold t9 in H9, H9s.
  repeat split.
  - exact (no_run3_factor _ _ (str_strip_factor t9) H9).
  - now apply single_spaced_strip.
  - apply (Forall_factor _ _ _ (str_strip_factor t9)).
    apply re_sub_space_Forall; [reflexivity|]. now apply sub_repeated_Forall.
  - apply (Forall_factor _ _ _ (str_strip_factor t9)).
    apply re_sub_space_Forall; [discriminate|]. now apply sub_repeated_Forall.
  - apply Hcasc; [now right|exact Hch].
Qed.

End NormalizeFacts.
(* ------------------------------------------------------------------ *)
(** ** text_cleaning.py: clean_text                                    *)
(* ------------------------------------------------------------------ *)

Section CleanTextFacts.
Context {U : Unicode}.
Import Re TextCleaning.

Variable nlp : str -> list Token.
Variables stopwords_spacy stopwords_nltk CUSTOM_STOPWORDS : list str.

Local Abbreviation clean_text :=
  (TextCleaning.clean_text nlp stopwords_spacy stopwords_nltk CUSTOM_STOPWORDS).
Local Abbreviation keeps :=
  (TextCleaning.keeps stopwords_spacy stopwords_nltk CUSTOM_STOPWORDS).

Lemma In_factor (t s : str) (c : codepoint) : is_factor t s -> In c t -> In c s.
Proof.
  intros (a & b & ->) H. apply in_or_app. right. apply in_or_app. now left.
Qed.

(** The tokens of the normalized text, as [clean_text] writes them. *)
Lemma token_props (text : str) (t : Token) :
  lower_stable -> tokens_are_word_pieces nlp ->
  In t (nlp (normalize text)) ->
  lower_ t = tok_text t
  /\ (lower_ t <> [] /\ ~ In 32%N (lower_ t))
  /\ no_run3 (lower_ t)
  /\ Forall (fun c => is_emoji c = false) (lower_ t)
  /\ Forall (fun c => c <> 64%N) (lower_ t).
Proof.
  intros Hlower Htok Hin.
  destruct (normalize_props text) as (Hrun & Hsp & Hem & Hat & Hch).
  specialize (Htok (normalize text) Hsp). rewrite Forall_forall in Htok.
  destruct (Htok t Hin) as (Hne & Hfac & Hns).
  assert (E : lower_ t = tok_text t).
  { unfold lower_. apply (Hlower text). intros c Hc.
    rewrite Forall_forall in Hch. apply Hch. now apply (In_factor _ _ _ Hfac). }
  rewrite E. repeat split.
  - exact Hne.
  - intro H32. rewrite Forall_forall in Hns. now specialize (Hns _ H32).
  - exact (no_run3_factor _ _ Hfac Hrun).
  - exact (Forall_factor _ _ _ Hfac Hem).
  - exact (Forall_factor _ _ _ Hfac Hat).
Qed.

Lemma match_here_mention_none before c (tl : str) :
  c <> 64%N -> match_here MENTION_PATTERN before (c :: tl) = None.
Proof.
  intro Hc. unfold match_here, MENTION_PATTERN, chr.
  rewrite rmatch_Seq, rmatch_Chr. cbn [rest]. unfold cp_eqb.
  destruct (N.eqb_spec 64 c); [congruence|reflexivity].
Qed.

(** A text without [@] has no match of [MENTION_PATTERN]. *)
Lemma findall_mention_none (s : str) :
  Forall (fun c => c <> 64%N) s -> re_findall MENTION_PATTERN s = [].
Proof.
  unfold re_findall. generalize (@None codepoint). generalize (length s).
  intros fuel. revert s. induction fuel as [|fuel IH]; intros s before H;
    [reflexivity|].
  cbn [findall_from]. destruct s as [|c tl]; [reflexivity|].
  inversion H; subst. rewrite match_here_mention_none by assumption. now apply IH.
Qed.

(** C7.  Provided that lowercasing leaves lowercased text unchanged
    ([lower_stable]) and that the tokens of the linguistic model are
    non-empty pieces of the words of the text it is given
    ([tokens_are_word_pieces]), the result of [clean_text] contains no
    character of the ranges of [EMOJI_PATTERN], no match of
    [MENTION_PATTERN] (indeed no [@] at all), and no character three or
    more times in a row. *)
Theorem clean_text_output_is_clean (text : str) :
  lower_stable -> tokens_are_word_pieces nlp ->
  Forall (fun c => is_emoji c = false) (clean_text text)
  /\ re_findall MENTION_PATTERN (clean_text text) = []
  /\ ~ In 64%N (clean_text text)
  /\ no_run3 (clean_text text).
Proof.
  intros Hlower Htok.
  assert (Hparts : forall w, In w (map lower_ (filter keeps (nlp (normalize text)))) ->
             (w <> [] /\ ~ In 32%N w) /\ no_run3 w
             /\ Forall (fun c => is_emoji c = false) w
             /\ Forall (fun c => c <> 64%N) w).
  { intros w Hw. apply in_map_iff in Hw as (t & <- & Ht).
    apply filter_In in Ht as [Ht _].
    destruct (token_props text t Hlower Htok Ht) as (_ & H1 & H2 & H3 & H4). auto. }
  assert (Hat : Forall (fun c => c <> 64%N) (clean_text text)).
  { unfold TextCleaning.clean_text. destruct (str_strip text); [constructor|].
    apply str_join_Forall; [repeat constructor; discriminate|].
    apply Forall_forall. intros w Hw. now apply Hparts in Hw. }
  repeat split.
  - unfold TextCleaning.clean_text. destruct (str_strip text); [constructor|].
    apply str_join_Forall; [repeat constructor|].
    apply Forall_forall. intros w Hw. now apply Hparts in Hw.
  - now apply findall_mention_none.
  - intro H. rewrite Forall_forall in Hat. now apply (Hat _ H).
  - unfold TextCleaning.clean_text. destruct (str_strip text); [apply no_run3_nil|].
    apply str_join_no_run3; apply Forall_forall; intros w Hw; now apply Hparts in Hw.
Qed.

(** What [clean_text] returns for a text that is not blank. *)
Lemma clean_text_unfold (text : str) :
  str_strip text <> [] ->
  clean_text text
  = str_join [32%N] (map lower_ (filter keeps (nlp (normalize text)))).
Proof.
  intro H. unfold TextCleaning.clean_text. destruct (str_strip text); [now elim H|reflexivity].
Qed.

End CleanTextFacts.
(* ------------------------------------------------------------------ *)
(** ** text_cleaning.py: an instance of the assumptions                *)
(* ------------------------------------------------------------------ *)

Lemma ascii_lower_cp_idem (c : codepoint) : ascii_lower_cp (ascii_lower_cp c) = ascii_lower_cp c.
Proof.
  unfold ascii_lower_cp, ascii_upper.
  destruct ((65 <=? c) && (c <=? 90))%N eqn:E; [|now rewrite E].
  apply andb_prop in E as [H1 H2]. apply N.leb_le in H1, H2.
  destruct (N.leb_spec 65 (c + 32)); destruct (N.leb_spec (c + 32) 90);
    cbn; try reflexivity; lia.
Qed.

Lemma ascii_lower_stable : TextCleaning.lower_stable (U := AsciiUnicode).
Proof.
  intros s t H. cbn [str_lower AsciiUnicode] in *.
  rewrite <- (map_id t) at 2. apply map_ext_in. intros c Hc.
  destruct (H c Hc) as [Hin| ->]; [|reflexivity].
  apply in_map_iff in Hin as (x & <- & _). apply ascii_lower_cp_idem.
Qed.

Lemma is_factor_trans (a b c : str) : is_factor a b -> is_factor b c -> is_factor a c.
Proof.
  intros (p1 & q1 & ->) (p2 & q2 & ->).
  exists (p2 ++ p1), (q1 ++ q2). now rewrite <- !app_assoc.
Qed.

Lemma takewhile_Forall (p : codepoint -> bool) (s : str) :
  Forall (fun c => p c = true) (takewhile p s).
Proof.
  induction s as [|c s IH]; cbn; [constructor|].
  destruct (p c) eqn:E; constructor; auto.
Qed.

Lemma split_blanks_pieces (fuel : nat) (s : str) (w : str) :
  In w (ToyModel.split_blanks fuel s) ->
  w <> [] /\ is_factor w s /\ Forall (fun c => is_space c = false) w.
Proof.
  revert s. induction fuel as [|fuel IH]; intros s H; [contradiction|].
  cbn [ToyModel.split_blanks] in H.
  destruct (dropwhile is_space s) as [|c tl] eqn:E; [contradiction|].
  assert (Hs : s = takewhile is_space s ++ c :: tl).
  { rewrite <- E. symmetry. apply takewhile_dropwhile. }
  destruct H as [<-|H].
  - split; [discriminate|]. split.
    + exists (takewhile is_space s), (dropwhile TextCleaning.not_space tl).
      rewrite Hs at 1. cbn [app]. now rewrite takewhile_dropwhile.
    + constructor; [now apply dropwhile_head in E|].
      pose proof (takewhile_Forall TextCleaning.not_space tl) as HF.
      rewrite Forall_forall in *. intros x Hx. specialize (HF x Hx).
      unfold TextCleaning.not_space in HF. now destruct (is_space x).
  - destruct (IH _ H) as (Hne & Hfac & Hns). repeat split; try assumption.
    apply (is_factor_trans _ _ _ Hfac).
    exists (takewhile is_space s ++ c :: takewhile TextCleaning.not_space tl), [].
    rewrite app_nil_r, <- app_assoc. cbn [app].
    rewrite takewhile_dropwhile. exact Hs.
Qed.

Lemma toy_tokens_are_word_pieces : TextCleaning.tokens_are_word_pieces ToyModel.nlp.
Proof.
  intros s _. apply Forall_forall. intros t Ht.
  unfold ToyModel.nlp in Ht. apply in_map_iff in Ht as (w & <- & Hw).
  cbn [tok_text ToyModel.token_of]. now apply split_blanks_pieces in Hw.
Qed.

Lemma clean_text_output_is_clean_witness :
  Forall (fun c => TextCleaning.is_emoji c = false) (demo_clean_text demo_message)
  /\ Re.re_findall (U := AsciiUnicode) (TextCleaning.MENTION_PATTERN (U := AsciiUnicode))
                   (demo_clean_text demo_message) = []
  /\ ~ In 64%N (demo_clean_text demo_message)
  /\ no_run3 (demo_clean_text demo_message).
Proof.
  apply (@clean_text_output_is_clean AsciiUnicode ToyModel.nlp
           [py "el"; py "a"] [py "los"; py "las"] [py "mira"] demo_message
           ascii_lower_stable toy_tokens_are_word_pieces).
Defined.

(* ------------------------------------------------------------------ *)
(** ** text_cleaning.py: the last stage of clean_text                  *)
(* ------------------------------------------------------------------ *)

Section LastStage.
Context {U : Unicode}.
Variable nlp : str -> list Token.
Variables stopwords_spacy stopwords_nltk CUSTOM_STOPWORDS : list str.

Local Abbreviation in_set := TextCleaning.in_set.
Local Abbreviation with_lemmas := (TextCleaning.with_lemmas nlp).

(** The stopword set is the union of the three sources. *)
Lemma in_spanish_stopwords (w : str) :
  in_set w (TextCleaning.spanish_stopwords stopwords_spacy stopwords_nltk CUSTOM_STOPWORDS)
  = in_set w stopwords_spacy || in_set w stopwords_nltk || in_set w CUSTOM_STOPWORDS.
Proof.
  unfold TextCleaning.spanish_stopwords, TextCleaning.in_set.
  now rewrite !existsb_app.
Qed.

(** The lemmas computed by the model have no influence on the result. *)
Lemma clean_text_ignores_lemmas (f : Token -> str) (text : str) :
  TextCleaning.clean_text (with_lemmas f) stopwords_spacy stopwords_nltk CUSTOM_STOPWORDS text
  = TextCleaning.clean_text nlp stopwords_spacy stopwords_nltk CUSTOM_STOPWORDS text.
Proof.
  unfold TextCleaning.clean_text. destruct (str_strip text); [reflexivity|].
  f_equal. unfold TextCleaning.with_lemmas.
  set (g := fun t => {| tok_text := tok_text t; tok_like_num := tok_like_num t;
                        tok_lemma := f t |}).
  set (keeps := TextCleaning.keeps stopwords_spacy stopwords_nltk CUSTOM_STOPWORDS).
  assert (Hk : forall t, keeps (g t) = keeps t) by reflexivity.
  assert (Hl : forall t, TextCleaning.lower_ (g t) = TextCleaning.lower_ t) by reflexivity.
  induction (nlp (TextCleaning.normalize text)) as [|t ts IH]; [reflexivity|].
  cbn [map filter]. rewrite Hk. destruct (keeps t); cbn [map]; now rewrite ?Hl, IH.
Qed.

End LastStage.

(** C9 (divergence).  The tokens kept are those whose lowercase form is in
    none of the three stopword lists and which are not number-like, and they
    are joined by single spaces; but what is joined is [token.lower_], the
    lowercase surface form, and not [token.lemma_].  With a model whose
    lemma of "gatos" is "gato", the text "Los gatos corren" becomes "gatos
    corren", where joining the lemmas gives "gato corren". *)
Theorem clean_text_joins_surface_forms_not_lemmas :
  TextCleaning.clean_text (U := AsciiUnicode) ToyModel.nlp
    [py "el"] [py "los"] [py "mira"] (py "Los gatos corren") = py "gatos corren"
  /\ TextCleaning.clean_text_joining_lemmas (U := AsciiUnicode) ToyModel.nlp
       [py "el"] [py "los"] [py "mira"] (py "Los gatos corren") = py "gato corren"
  /\ map tok_lemma (ToyModel.nlp (py "los gatos corren"))
     = [py "lo"; py "gato"; py "corren"].
Proof. repeat split; vm_compute; reflexivity. Qed.

(* ------------------------------------------------------------------ *)
(** ** text_cleaning.py and pipeline.py: the words of a clean text     *)
(* ------------------------------------------------------------------ *)

Section CleanWords.
Context {U : Unicode}.
Import Re TextCleaning.

Variable nlp : str -> list Token.
Variables stopwords_spacy stopwords_nltk CUSTOM_STOPWORDS : list str.

Local Abbreviation clean_text :=
  (TextCleaning.clean_text nlp stopwords_spacy stopwords_nltk CUSTOM_STOPWORDS).
Local Abbreviation keeps :=
  (TextCleaning.keeps stopwords_spacy stopwords_nltk CUSTOM_STOPWORDS).

(** After step 7 only word characters and blanks are left. *)
Lemma normalize_word_or_space (text : str) :
  Forall (fun c => is_word c || is_space c = true) (normalize text).
Proof.
  unfold normalize.
  apply (Forall_factor _ _ _ (str_strip_factor _)).
  apply re_sub_space_Forall; [reflexivity|].
  apply sub_repeated_Forall.
  unfold re_sub at 1, NOT_WORD_NOR_SPACE, space.
  rewrite sub_from_Chr by apply Nat.le_refl.
  apply Forall_forall. intros c Hc. apply in_map_iff in Hc as (x & <- & _).
  destruct (is_word x || is_space x) eqn:E; cbn [negb]; [exact E|].
  apply orb_true_intro. right. reflexivity.
Qed.

Lemma kept_tokens_are_words (text : str) :
  lower_stable -> tokens_are_word_pieces nlp ->
  Forall is_clean_word (map lower_ (filter keeps (nlp (normalize text)))).
Proof.
  intros Hlower Htok. apply Forall_forall. intros w Hw.
  apply in_map_iff in Hw as (t & <- & Ht). apply filter_In in Ht as [Ht _].
  destruct (token_props nlp text t Hlower Htok Ht) as (E & _).
  destruct (normalize_props text) as (_ & Hsp & _).
  specialize (Htok (normalize text) Hsp). rewrite Forall_forall in Htok.
  destruct (Htok t Ht) as (Hne & Hfac & Hns).
  rewrite E. split; [exact Hne|].
  pose proof (Forall_factor _ _ _ Hfac (normalize_word_or_space text)) as Hw.
  rewrite Forall_forall in *. intros c Hc. specialize (Hw c Hc). specialize (Hns c Hc).
  rewrite Hns, orb_false_r in Hw. now split.
Qed.

Lemma spaced_app_word (b : bool) (w rest : str) :
  w <> [] -> Forall (fun c => is_space c = false) w -> spaced false rest ->
  spaced b (w ++ rest).
Proof.
  intros Hne Hw Hrest. revert b. induction Hw as [|c w Hc Hw IH]; [now elim Hne|].
  intro b. cbn [app]. apply spaced_char; [exact Hc|].
  destruct w as [|c' w']; [exact Hrest|]. apply IH. discriminate.
Qed.

Lemma clean_word_no_space (w : str) :
  is_clean_word w -> Forall (fun c => is_space c = false) w.
Proof.
  intros [_ H]. apply Forall_forall. intros c Hc. rewrite Forall_forall in H.
  now apply H.
Qed.

Lemma str_join_single_spaced (words : list str) :
  Forall is_clean_word words -> single_spaced (str_join [32%N] words).
Proof.
  unfold single_spaced. induction 1 as [|w ws Hw Hws IH]; [constructor|].
  destruct ws as [|w2 ws].
  - cbn [str_join]. rewrite <- (app_nil_r w).
    apply spaced_app_word; [apply Hw|now apply clean_word_no_space|constructor].
  - rewrite str_join_cons by discriminate. cbn [app].
    apply spaced_app_word; [apply Hw|now apply clean_word_no_space|].
    apply spaced_space. exact IH.
Qed.

Lemma str_join_ends (words : list str) :
  Forall is_clean_word words -> words <> [] ->
  (exists c tl, str_join [32%N] words = c :: tl /\ is_space c = false)
  /\ (exists c tl, rev (str_join [32%N] words) = c :: tl /\ is_space c = false).
Proof.
  induction 1 as [|w ws Hw Hws IH]; intro Hne; [now elim Hne|].
  pose proof (clean_word_no_space w Hw) as Hns. destruct Hw as [Hw _].
  assert (Hhead : forall rest, exists c tl, w ++ rest = c :: tl /\ is_space c = false).
  { intro rest. destruct w as [|c w']; [now elim Hw|]. exists c, (w' ++ rest).
    inversion Hns; subst. now split. }
  assert (Hlast : forall pre, exists c tl, pre ++ rev w = c :: tl /\ is_space c = false
                                          \/ pre <> []).
  { intro pre. destruct pre as [|p pre]; [|exists p, pre; right; discriminate].
    destruct (rev w) as [|c tl] eqn:E.
    - apply (f_equal (@rev _)) in E. rewrite rev_involutive in E. now elim Hw.
    - exists c, tl. left. split; [reflexivity|].
      rewrite Forall_forall in Hns. apply Hns. apply in_rev. rewrite E. now left. }
  destruct ws as [|w2 ws].
  - cbn [str_join]. split.
    + rewrite <- (app_nil_r w). apply Hhead.
    + destruct (Hlast []) as (c & tl & [H|H]); [|now elim H]. now exists c, tl.
  - rewrite str_join_cons by discriminate. split; [apply Hhead|].
    destruct (IH ltac:(discriminate)) as [_ (c & tl & E & Hc)].
    exists c, (tl ++ 32%N :: rev w). split; [|exact Hc].
    rewrite rev_app_distr. cbn [app rev].
    rewrite E. cbn [app]. now rewrite <- app_assoc.
Qed.

Lemma str_join_stripped (words : list str) :
  Forall is_clean_word words -> str_strip (str_join [32%N] words) = str_join [32%N] words.
Proof.
  intro H. destruct words as [|w ws]; [reflexivity|].
  destruct (str_join_ends _ H ltac:(discriminate)) as [(c & tl & E & Hc) (c' & tl' & E' & Hc')].
  unfold str_strip, rstrip. rewrite E at 1. cbn [lstrip]. rewrite Hc, <- E, E'.
  cbn [lstrip]. rewrite Hc', <- E'. apply rev_involutive.
Qed.

(** X11.  Under the assumptions of C7, a clean text is made of words joined
    by single spaces: its characters are characters of [\w] and spaces
    (U+0020), its only blanks are single spaces between two words, and it
    neither starts nor ends with a blank. *)
Theorem clean_text_is_words_and_single_spaces (text : str) :
  lower_stable -> tokens_are_word_pieces nlp ->
  (exists words, Forall is_clean_word words /\ clean_text text = str_join [32%N] words)
  /\ Forall (fun c => is_word c = true \/ c = 32%N) (clean_text text)
  /\ single_spaced (clean_text text)
  /\ str_strip (clean_text text) = clean_text text.
Proof.
  intros Hlower Htok.
  assert (Hex : exists words, Forall is_clean_word words
                              /\ clean_text text = str_join [32%N] words).
  { unfold TextCleaning.clean_text. destruct (str_strip text).
    - exists []. split; [constructor|reflexivity].
    - eexists. split; [|reflexivity]. now apply kept_tokens_are_words. }
  split; [exact Hex|]. destruct Hex as (words & Hw & ->).
  split; [|split].
  - apply str_join_Forall; [repeat constructor; now right|].
    apply Forall_forall. intros w Hin. rewrite Forall_forall in Hw.
    destruct (Hw w Hin) as [_ Hc]. apply Forall_forall. intros c Hcin.
    rewrite Forall_forall in Hc. left. now apply Hc.
  - now apply str_join_single_spaced.
  - now apply str_join_stripped.
Qed.

Lemma lower_stable_idempotent : lower_stable -> forall s, str_lower (str_lower s) = str_lower s.
Proof. intros H s. apply (H s). intros c Hc. now left. Qed.

(** X13.  A stopword that is not in lowercase never filters anything: the
    tokens are compared in lowercase, so that adding such a word to
    [CUSTOM_STOPWORDS] changes no result. *)
Theorem stopword_not_in_lowercase_is_ignored (w : str) (text : str) :
  lower_stable -> str_lower w <> w ->
  TextCleaning.clean_text nlp stopwords_spacy stopwords_nltk (w :: CUSTOM_STOPWORDS) text
  = clean_text text.
Proof.
  intros Hlower Hw. unfold TextCleaning.clean_text.
  destruct (str_strip text); [reflexivity|]. f_equal. f_equal.
  apply filter_ext. intro t. unfold TextCleaning.keeps. f_equal. f_equal.
  unfold spanish_stopwords, in_set. rewrite !existsb_app. f_equal.
  cbn [existsb].
  destruct (str_eqb (str_lower (tok_text t)) w) eqn:E; [|reflexivity].
  apply str_eqb_eq in E. elim Hw. rewrite <- E.
  now apply lower_stable_idempotent.
Qed.

End CleanWords.

Section SplitFacts.
Import Pipeline.

Lemma split_fuel_space (fuel : nat) (x : str) :
  split_fuel fuel (32%N :: x) = split_fuel fuel x.
Proof. destruct fuel; reflexivity. Qed.

Lemma takewhile_app_stop (p : codepoint -> bool) (w rest : str) :
  Forall (fun c => p c = true) w ->
  match rest with [] => True | c :: _ => p c = false end ->
  takewhile p (w ++ rest) = w /\ dropwhile p (w ++ rest) = rest.
Proof.
  intros Hw Hrest. induction Hw as [|c w Hc _ [IH1 IH2]].
  - destruct rest as [|c rest]; [now split|]. cbn. now rewrite Hrest.
  - cbn. rewrite Hc, IH1, IH2. now split.
Qed.

(** Splitting at blanks what was joined with single spaces gives back the
    words, when these are not empty and hold no blank. *)
Lemma split_fuel_join (words : list str) :
  Forall (fun w => w <> [] /\ Forall (fun c => is_space c = false) w) words ->
  forall fuel, length (str_join [32%N] words) <= fuel ->
  split_fuel fuel (str_join [32%N] words) = words.
Proof.
  induction 1 as [|w ws [Hne Hw] Hws IH]; intros fuel Hfuel.
  - destruct fuel; reflexivity.
  - destruct w as [|c w']; [now elim Hne|]. inversion Hw as [|? ? Hc Hw']; subst.
    assert (Hneg : Forall (fun c => negb (is_space c) = true) w').
    { apply Forall_forall. intros x Hx. rewrite Forall_forall in Hw'.
      now rewrite (Hw' x Hx). }
    destruct ws as [|w2 ws].
    + cbn [str_join] in *. destruct fuel as [|fuel]; [simpl in Hfuel; lia|].
      cbn [split_fuel dropwhile]. rewrite Hc.
      destruct (takewhile_app_stop (fun c => negb (is_space c)) w' [] Hneg I) as [E1 E2].
      rewrite app_nil_r in E1, E2. rewrite E1, E2.
      f_equal. destruct fuel; reflexivity.
    + rewrite str_join_cons in * by discriminate.
      destruct fuel as [|fuel]; [simpl in Hfuel; lia|].
      cbn [app split_fuel dropwhile]. rewrite Hc.
      match goal with
      | |- context [takewhile ?p ?l] =>
        assert (E : takewhile p l = w'
                    /\ dropwhile p l = 32%N :: str_join [32%N] (w2 :: ws))
          by (apply takewhile_app_stop; [exact Hneg|reflexivity]);
          destruct E as [E1 E2]
      end.
      rewrite E1, E2. f_equal. rewrite split_fuel_space. apply IH.
      cbn [app length] in Hfuel. rewrite length_app in Hfuel. cbn [length] in Hfuel. lia.
Qed.

End SplitFacts.

Section TokenCount.
Context {U : Unicode}.
Import Re TextCleaning.

Variable nlp : str -> list Token.
Variables stopwords_spacy stopwords_nltk CUSTOM_STOPWORDS : list str.

Local Abbreviation clean_text :=
  (TextCleaning.clean_text nlp stopwords_spacy stopwords_nltk CUSTOM_STOPWORDS).
Local Abbreviation keeps :=
  (TextCleaning.keeps stopwords_spacy stopwords_nltk CUSTOM_STOPWORDS).

(** X12.  Under the assumptions of C7, splitting a clean text at blanks
    gives back the tokens that were kept, so that [n_tokens] counts them: a
    message goes to the classifier when at least two of its tokens are
    neither stopwords nor number-like, and a blank message counts none. *)
Theorem n_tokens_counts_kept_tokens (text : str) :
  lower_stable -> tokens_are_word_pieces nlp ->
  (str_strip text <> [] ->
   Pipeline.str_split (clean_text text)
   = map lower_ (filter keeps (nlp (normalize text)))
   /\ Pipeline.n_tokens (clean_text text)
      = length (filter keeps (nlp (normalize text))))
  /\ (str_strip text = [] -> Pipeline.n_tokens (clean_text text) = 0).
Proof.
  intros Hlower Htok. split.
  - intro Hne. rewrite clean_text_unfold by assumption.
    assert (E : Pipeline.str_split
                  (str_join [32%N] (map lower_ (filter keeps (nlp (normalize text)))))
                = map lower_ (filter keeps (nlp (normalize text)))).
    { apply split_fuel_join; [|apply Nat.le_refl].
      pose proof (kept_tokens_are_words nlp stopwords_spacy stopwords_nltk CUSTOM_STOPWORDS
                    text Hlower Htok) as H.
      apply Forall_forall. intros w Hw. rewrite Forall_forall in H.
      split; [apply (H w Hw)|apply clean_word_no_space, (H w Hw)]. }
    split; [exact E|]. unfold Pipeline.n_tokens. now rewrite E, length_map.
  - intro Hb. unfold TextCleaning.clean_text. now rewrite Hb.
Qed.

End TokenCount.

Lemma clean_text_is_words_and_single_spaces_witness :
  Forall (fun c => is_word (U := AsciiUnicode) c = true \/ c = 32%N)
         (demo_clean_text demo_message)
  /\ single_spaced (demo_clean_text demo_message)
  /\ str_strip (demo_clean_text demo_message) = demo_clean_text demo_message.
Proof.
  apply (proj2 (@clean_text_is_words_and_single_spaces AsciiUnicode ToyModel.nlp
                  [py "el"; py "a"] [py "los"; py "las"] [py "mira"] demo_message
                  ascii_lower_stable toy_tokens_are_word_pieces)).
Defined.

Lemma stopword_not_in_lowercase_is_ignored_witness :
  TextCleaning.clean_text (U := AsciiUnicode) ToyModel.nlp
    [py "el"; py "a"] [py "los"; py "las"] [py "Gatos"; py "mira"] demo_message
  = demo_clean_text demo_message.
Proof.
  apply (@stopword_not_in_lowercase_is_ignored AsciiUnicode ToyModel.nlp
           [py "el"; py "a"] [py "los"; py "las"] [py "mira"] (py "Gatos") demo_message
           ascii_lower_stable).
  intro H. vm_compute in H. discriminate H.
Defined.

Lemma n_tokens_counts_kept_tokens_witness :
  Pipeline.str_split (demo_clean_text demo_message)
  = map (TextCleaning.lower_ (U := AsciiUnicode))
        (filter (TextCleaning.keeps (U := AsciiUnicode)
                   [py "el"; py "a"] [py "los"; py "las"] [py "mira"])
                (ToyModel.nlp (TextCleaning.normalize (U := AsciiUnicode) demo_message)))
  /\ Pipeline.n_tokens (demo_clean_text demo_message)
     = length (filter (TextCleaning.keeps (U := AsciiUnicode)
                         [py "el"; py "a"] [py "los"; py "las"] [py "mira"])
                      (ToyModel.nlp (TextCleaning.normalize (U := AsciiUnicode) demo_message))).
Proof.
  apply (proj1 (@n_tokens_counts_kept_tokens AsciiUnicode ToyModel.nlp
                  [py "el"; py "a"] [py "los"; py "las"] [py "mira"] demo_message
                  ascii_lower_stable toy_tokens_are_word_pieces)).
  intro H. vm_compute in H. discriminate H.
Defined.

(* ------------------------------------------------------------------ *)
(** ** Regular expressions: texts in which a pattern has no match      *)
(* ------------------------------------------------------------------ *)

Section NoMatch.
Context {U : Unicode}.
Import Re.

Variable I : str -> Prop.
Hypothesis I_tail : forall c tl, I (c :: tl) -> I tl.

Lemma I_skipn (n : nat) (s : str) : I s -> I (skipn n s).
Proof.
  revert s. induction n as [|n IH]; intros s H; [exact H|].
  destruct s as [|c s]; [exact H|]. cbn [skipn]. apply IH. now apply (I_tail c).
Qed.

(** When what follows a pattern fails wherever the text left has the
    property [I], so does the pattern followed by it. *)
Lemma rmatch_dead (r : regex) :
  forall k st, I (rest st) -> (forall st', I (rest st') -> k st' = None) ->
               rmatch r k st = None.
Proof.
  induction r as [|p|r1 IH1 r2 IH2|r1 IH1 r2 IH2|r1 IH1 lo hi|n r1 IH1|n| | |];
    intros k st HI Hk.
  - now apply Hk.
  - rewrite rmatch_Chr. destruct (rest st) as [|c tl] eqn:E; [reflexivity|].
    destruct (p c); [|reflexivity]. apply Hk. cbn [advance rest].
    now apply (I_tail c).
  - rewrite rmatch_Seq. apply IH1; [exact HI|]. intros st' HI'. now apply IH2.
  - cbn [rmatch]. rewrite IH1 by assumption. now apply IH2.
  - rewrite rmatch_Rep. generalize (S (length (rest st))). intro fuel.
    revert lo hi st HI. induction fuel as [|fuel IHf]; intros lo hi st HI; [reflexivity|].
    cbn [rep].
    assert (Hmore : rmatch r1
                      (fun st' =>
                         if length (rest st') <? length (rest st)
                         then rep (rmatch r1) fuel (pred lo) (option_map pred hi) k st'
                         else None) st = None).
    { apply IH1; [exact HI|]. intros st' HI'.
      destruct (length (rest st') <? length (rest st)); [|reflexivity].
      now apply IHf. }
    rewrite Hmore. rewrite (Hk st HI).
    destruct hi as [[|h]|]; destruct (Nat.eqb lo 0); reflexivity.
  - rewrite rmatch_Group. apply IH1; [exact HI|]. intros st' HI'. now apply Hk.
  - cbn [rmatch]. destruct (group_get (groups st) n) as [g|]; [|reflexivity].
    destruct (is_prefix g (rest st)); [|reflexivity].
    apply Hk. cbn [advance_by rest]. now apply I_skipn.
  - cbn [rmatch]. rewrite (Hk st HI). now destruct (prev st).
  - cbn [rmatch]. rewrite (Hk st HI).
    destruct (rest st) as [|c [|c' tl]]; try reflexivity. now destruct (c =? 10)%N.
  - cbn [rmatch]. rewrite (Hk st HI). now destruct (xorb _ _).
Qed.

(** A pattern that has to read a character of a class that the text does
    not hold. *)
Lemma rmatch_needs (r1 : regex) (p : codepoint -> bool) (r2 : regex) k st :
  I (rest st) ->
  (forall c tl, I (c :: tl) -> p c = false) ->
  rmatch (Seq r1 (Seq (Chr p) r2)) k st = None.
Proof.
  intros HI Hp. rewrite rmatch_Seq. apply rmatch_dead; [exact HI|].
  intros st' HI'. rewrite rmatch_Seq, rmatch_Chr.
  destruct (rest st') as [|c tl] eqn:E; [reflexivity|]. now rewrite (Hp c tl).
Qed.

(** A substitution leaves the text as it is when the pattern matches at
    none of its positions. *)
Lemma sub_from_no_match (r : regex) repl :
  (forall before s, I s -> match_here r before s = None) ->
  forall fuel before s, I s -> sub_from r repl fuel before s = s.
Proof.
  intros Hno. induction fuel as [|fuel IH]; intros before s HI; [reflexivity|].
  destruct s as [|c tl]; [reflexivity|]. cbn [sub_from].
  rewrite Hno by exact HI. f_equal. apply IH. now apply (I_tail c).
Qed.

Lemma match_here_None (r : regex) before (s : str) :
  rmatch r Some {| rest := s; prev := before; groups := [] |} = None ->
  match_here r before s = None.
Proof. intro H. unfold match_here. now rewrite H. Qed.

End NoMatch.

(* ------------------------------------------------------------------ *)
(** ** text_cleaning.py: cleaning what is already clean                *)
(* ------------------------------------------------------------------ *)

Section NormalizeAgain.
Context {U : Unicode}.
Import Re TextCleaning.

(** Texts made of characters of [\w] and of blanks. *)
Local Abbreviation plain := (Forall (fun c => is_word c || is_space c = true)).

Lemma plain_tail (c : codepoint) (tl : str) : plain (c :: tl) -> plain tl.
Proof. apply Forall_inv_tail. Qed.

Lemma plain_head (c : codepoint) (tl : str) : plain (c :: tl) -> is_word c || is_space c = true.
Proof. apply Forall_inv. Qed.

Lemma rmatch_Alt r1 r2 k st :
  rmatch (Alt r1 r2) k st
  = match rmatch r1 k st with Some res => Some res | None => rmatch r2 k st end.
Proof. reflexivity. Qed.

(** A character that is neither of [\w] nor a blank does not occur. *)
Lemma chr_absent (p : codepoint -> bool) k st :
  plain (rest st) ->
  (forall c, is_word c || is_space c = true -> p c = false) ->
  rmatch (Chr p) k st = None.
Proof.
  intros H Hp. rewrite rmatch_Chr. destruct (rest st) as [|c tl]; [reflexivity|].
  now rewrite (Hp c (plain_head _ _ H)).
Qed.

Lemma not_plain (x : codepoint) (c : codepoint) :
  is_word x || is_space x = false ->
  is_word c || is_space c = true -> cp_eqb x c = false.
Proof.
  intros Hx Hc. unfold cp_eqb. destruct (N.eqb_spec x c) as [->|]; [congruence|reflexivity].
Qed.

Ltac absent :=
  apply chr_absent; [assumption|];
  let c := fresh "c" in let Hc := fresh "Hc" in
  intros c Hc;
  first [ apply (not_plain _ c); [reflexivity|exact Hc]
        | unfold slash_or_dash; rewrite !(not_plain _ c) by (reflexivity || exact Hc);
          reflexivity ].

Lemma url_no_match before (s : str) : plain s -> match_here URL_PATTERN before s = None.
Proof.
  intro H. apply match_here_None.
  unfold URL_PATTERN. rewrite rmatch_Alt. cbv [seqs fold_right].
  change (lit (py "://")) with (Seq (Chr (cp_eqb 58)) (lit (py "//"))).
  change (chr 46) with (Chr (cp_eqb 46)).
  assert (H1 : forall r1 r2 r3 r4 k st,
             plain (rest st) ->
             rmatch (Seq r1 (Seq r2 (Seq (Seq (Chr (cp_eqb 58)) r3) r4))) k st = None).
  { intros r1 r2 r3 r4 k st Hst. rewrite rmatch_Seq.
    apply (rmatch_dead plain plain_tail); [exact Hst|]. intros st1 Hst1.
    rewrite rmatch_Seq. apply (rmatch_dead plain plain_tail); [exact Hst1|].
    intros st2 Hst2. rewrite !rmatch_Seq. absent. }
  assert (H2 : forall r1 r2 k st,
             plain (rest st) ->
             rmatch (Seq r1 (Seq (Chr (cp_eqb 46)) r2)) k st = None).
  { intros r1 r2 k st Hst. apply (rmatch_needs plain plain_tail); [exact Hst|].
    intros c tl Hc. apply (not_plain _ c); [reflexivity|]. exact (plain_head _ _ Hc). }
  rewrite H1 by exact H. now rewrite H2.
Qed.

Lemma not_plain_r (x : codepoint) (c : codepoint) :
  is_word x || is_space x = false ->
  is_word c || is_space c = true -> cp_eqb c x = false.
Proof.
  intros Hx Hc. unfold cp_eqb. destruct (N.eqb_spec c x) as [->|]; [congruence|reflexivity].
Qed.

Lemma mention_no_match before (s : str) : plain s -> match_here MENTION_PATTERN before s = None.
Proof.
  intro H. apply match_here_None. unfold MENTION_PATTERN, chr. rewrite rmatch_Seq. absent.
Qed.

Lemma phone_no_match before (s : str) : plain s -> match_here PHONE_PATTERN before s = None.
Proof.
  intro H. apply match_here_None. cbv [PHONE_PATTERN seqs fold_right chr].
  rewrite rmatch_Seq. absent.
Qed.

Lemma date_no_match before (s : str) : plain s -> match_here DATE_PATTERN before s = None.
Proof.
  intro H. apply match_here_None. cbv [DATE_PATTERN seqs fold_right].
  rewrite rmatch_Seq. apply (rmatch_dead plain plain_tail); [exact H|].
  intros st Hst. apply (rmatch_needs plain plain_tail); [exact Hst|].
  intros c tl Hc. apply plain_head in Hc. unfold slash_or_dash.
  now rewrite (not_plain_r 47%N c), (not_plain_r 45%N c).
Qed.

Lemma time_no_match before (s : str) : plain s -> match_here TIME_PATTERN before s = None.
Proof.
  intro H. apply match_here_None. cbv [TIME_PATTERN seqs fold_right chr].
  rewrite rmatch_Seq. apply (rmatch_dead plain plain_tail); [exact H|].
  intros st Hst. apply (rmatch_needs plain plain_tail); [exact Hst|].
  intros c tl Hc. apply plain_head in Hc. now apply (not_plain 58%N c).
Qed.

Lemma re_sub_plain (r : regex) repl (s : str) :
  (forall before s, plain s -> match_here r before s = None) ->
  plain s -> re_sub r repl s = s.
Proof. intros Hno H. now apply (sub_from_no_match plain plain_tail). Qed.

Lemma filter_all (p : codepoint -> bool) (s : str) :
  Forall (fun c => p c = true) s -> filter p s = s.
Proof. induction 1 as [|c s Hc _ IH]; [reflexivity|]. cbn. now rewrite Hc, IH. Qed.

Lemma map_fixed (f : codepoint -> codepoint) (s : str) :
  Forall (fun c => f c = c) s -> map f s = s.
Proof. induction 1 as [|c s Hc _ IH]; [reflexivity|]. cbn. now rewrite Hc, IH. Qed.

Lemma repeated_no_match before (s : str) :
  no_run3 s -> match_here REPEATED_CHARS before s = None.
Proof.
  intro H. destruct s as [|c tl]; [reflexivity|].
  rewrite match_here_repeated. apply no_run3_lead in H.
  destruct (2 <=? lead c tl) eqn:E; [apply Nat.leb_le in E; lia|].
  now rewrite andb_false_r.
Qed.

(** In a text whose only blanks are single spaces each run of blanks is
    one space, which [\s+] replaces by itself. *)
Lemma sub_spaces_spaced (fuel : nat) :
  forall b before (s : str), spaced b s -> sub_from SPACES space fuel before s = s.
Proof.
  induction fuel as [|fuel IH]; intros b before s H; [reflexivity|].
  destruct H as [b|b c s Hc H|s H]; [reflexivity| |].
  - cbn [sub_from]. unfold SPACES. rewrite match_here_plus. cbn [takewhile].
    rewrite Hc. f_equal. now apply (IH false).
  - cbn [sub_from]. unfold SPACES. rewrite match_here_plus. cbn [takewhile].
    change (is_space 32%N) with true. cbv iota.
    assert (E : takewhile is_space s = []).
    { inversion H as [|? c s' Hc _|]; subst; [reflexivity|].
      cbn. now rewrite Hc. }
    rewrite E. cbn [length skipn nth_error space app]. f_equal. now apply (IH true).
Qed.

Lemma spaced_blank_is_space (b : bool) (s : str) (c : codepoint) :
  spaced b s -> In c s -> is_space c = true -> c = 32%N.
Proof.
  induction 1 as [b|b x s Hx _ IH|s _ IH]; intros Hin Hc.
  - contradiction.
  - destruct Hin as [->|Hin]; [congruence|now apply IH].
  - destruct Hin as [<-|Hin]; [reflexivity|now apply IH].
Qed.

Lemma str_strip_ends (y : str) (c : codepoint) (tl : str) :
  str_strip y = c :: tl ->
  is_space (hd 32%N (str_strip y)) = false /\ is_space (last (str_strip y) 32%N) = false.
Proof.
  intro E. split.
  - unfold str_strip in *. destruct (rstrip_prefix (lstrip y)) as (post & Hpost).
    rewrite E in *. cbn [hd].
    rewrite lstrip_dropwhile in Hpost. cbn [app] in Hpost.
    now apply dropwhile_head in Hpost.
  - rewrite <- last_rev_hd. unfold str_strip, rstrip in *.
    rewrite rev_involutive.
    destruct (lstrip (rev (lstrip y))) as [|x r] eqn:El.
    + cbn in E. discriminate E.
    + cbn [hd]. rewrite lstrip_dropwhile in El. now apply dropwhile_head in El.
Qed.

Lemma str_strip_idem (y : str) : str_strip (str_strip y) = str_strip y.
Proof.
  destruct (str_strip y) as [|c tl] eqn:E; [reflexivity|]. rewrite <- E.
  destruct (str_strip_ends y c tl E) as [Hhd Hlast].
  rewrite <- (app_nil_r (str_strip y)) at 1.
  apply str_strip_core; [exact Hhd|exact Hlast|constructor].
Qed.

(** X21.  Cleaning is stable: provided that lowercasing leaves lowercased
    text unchanged, the steps of lines 79-90 applied to their own result
    change nothing.  On a text made of characters of [\w] and single
    spaces none of the patterns has a match. *)
Theorem normalize_again_changes_nothing (text : str) :
  lower_stable -> normalize (normalize text) = normalize text.
Proof.
  intro Hlower.
  destruct (normalize_props text) as (Hrun & Hsp & Hem & _ & Hch).
  pose proof (normalize_word_or_space text) as Hplain.
  assert (Hstrip : str_strip (normalize text) = normalize text)
    by (unfold normalize at 2; apply str_strip_idem).
  set (s := normalize text) in *. clearbody s.
  assert (Hno : forall x, is_space x = true -> x <> 32%N -> ~ In x s).
  { intros x Hx Hx32 Hin. apply Hx32.
    apply (spaced_blank_is_space true s x); assumption. }
  assert (E1 : first_step s = s).
  { unfold first_step.
    rewrite (Hlower text s)
      by (intros c Hc; rewrite Forall_forall in Hch; now apply Hch).
    rewrite (str_replace_absent [10%N] [32%N] s)
      by (apply (str_contains_absent _ _ 10%N); [now left|now apply Hno]).
    apply str_replace_absent.
    apply (str_contains_absent _ _ 13%N); [now left|now apply Hno]. }
  unfold normalize. fold (first_step s). rewrite E1.
  rewrite (re_sub_plain URL_PATTERN empty s url_no_match Hplain).
  assert (E3 : re_sub EMOJI_PATTERN empty s = s).
  { unfold re_sub, EMOJI_PATTERN, empty. rewrite sub_from_plus_empty by apply Nat.le_refl.
    apply filter_all. apply Forall_forall. intros c Hc.
    rewrite Forall_forall in Hem. now rewrite (Hem c Hc). }
  rewrite E3.
  rewrite (re_sub_plain MENTION_PATTERN empty s mention_no_match Hplain).
  rewrite (re_sub_plain PHONE_PATTERN empty s phone_no_match Hplain).
  rewrite (re_sub_plain DATE_PATTERN empty s date_no_match Hplain).
  rewrite (re_sub_plain TIME_PATTERN empty s time_no_match Hplain).
  assert (E7 : re_sub NOT_WORD_NOR_SPACE space s = s).
  { unfold re_sub, NOT_WORD_NOR_SPACE, space. rewrite sub_from_Chr by apply Nat.le_refl.
    apply map_fixed. apply Forall_forall. intros c Hc.
    rewrite Forall_forall in Hplain. now rewrite (Hplain c Hc). }
  rewrite E7.
  assert (E8 : re_sub REPEATED_CHARS group1 s = s).
  { apply (sub_from_no_match no_run3 no_run3_tail); [|exact Hrun].
    intros before s' H'. now apply repeated_no_match. }
  rewrite E8.
  assert (E9 : re_sub SPACES space s = s) by (now apply (sub_spaces_spaced _ true)).
  rewrite E9. exact Hstrip.
Qed.

End NormalizeAgain.

Lemma normalize_again_witness :
  TextCleaning.normalize (U := AsciiUnicode)
    (TextCleaning.normalize (U := AsciiUnicode) demo_message)
  = TextCleaning.normalize (U := AsciiUnicode) demo_message.
Proof.
  apply (@normalize_again_changes_nothing AsciiUnicode demo_message ascii_lower_stable).
Defined.

